(** * Extraction of the module bundle embedded in a Bun standalone executable

    A shallow embedding of [scripts/extract-standalone.ts]: the container
    locator ([extractEmbeddedData]), the bundle parser ([parseStandalone]),
    the path reconstructor ([sanitizeModulePath], [chooseRelativePath]) and
    the bundle writer ([writeOutputs]).

    Conventions.
    - A [Uint8Array] is a [list byte]; a JS number that holds an integer is
      a [Z]; loop counters that index arrays are [nat].
    - A JS string is a [string]: one [ascii] per code unit.  Every test the
      program makes on a code unit is against an ASCII character.
    - A [throw] is the [Err] case of [result]; the constructor of [error]
      tells which [throw] statement it was.
    - What the JavaScript runtime supplies ([TextDecoder], [toLowerCase],
      the [path] module) is a field of the record [Host]. *)

From Stdlib Require Import ZArith List String Ascii Lia DecimalString.
From Stdlib.Strings Require Import Byte.
From stdpp Require Import base option list gmap strings.
From Stdlib Require DecimalNat.

Local Open Scope string_scope.
Local Open Scope list_scope.
Local Open Scope Z_scope.

(** ** Errors and the result type *)

(** One constructor per [throw new Error(...)] of the source, in source
    order, plus the [RangeError] of an out-of-bounds [DataView] read. *)
Inductive error : Type :=
| NotPE                      (* "文件不是有效的 PE (MZ) 可执行文件" *)
| PEHeaderOutOfRange         (* "PE 头越界，文件可能已损坏" *)
| NoPESignature              (* "未找到 PE\0\0 签名..." *)
| BadSectionTable            (* "节表位置非法" *)
| SectionRecordOutOfRange    (* "节表记录越界" *)
| BunSectionOutOfRange       (* ".bun 节数据越界" *)
| BunLengthPrefixMismatch    (* ".bun 节的长度前缀与实际数据不匹配" *)
| NoBunSection               (* "未在 PE 文件中找到 .bun 节..." *)
| NoEmbeddedData (pe : error)(* "${message}；同时也未检测到结尾的 Bun trailer..." *)
| BlobTooShort               (* "嵌入数据长度过短，缺少尾部标记或偏移表" *)
| NoTrailer                  (* "未找到 bun 末尾标记..." *)
| BadOffsetsPos              (* "偏移数据位置非法" *)
| ByteCountUnsafe            (* "嵌入数据过大，超出 JS 可安全表示的范围" *)
| ByteCountOutOfRange        (* "偏移表中的 byte_count 超出嵌入数据范围" *)
| ModuleTableOutOfRange      (* "模块表越界，嵌入数据可能损坏" *)
| UnknownRecordSize          (* "模块记录长度不是已知的结构尺寸整数倍 (36 或 40 字节)" *)
| ModulePointerOutOfRange    (* "模块表中的指针越界" *)
| StringPointerOutOfRange    (* "字符串指针越界，嵌入数据损坏" *)
| PathEscapes (targetPath : string) (* "生成的路径越界: ${targetPath}" *)
| RangeError.                (* DataView read outside the view *)

Inductive result (A : Type) : Type :=
| Ok (a : A)
| Err (e : error).
Arguments Ok {A} a.
Arguments Err {A} e.

#[global] Instance result_ret : MRet result := fun A a => Ok a.
#[global] Instance result_bind : MBind result := fun A B f m =>
  match m with
  | Ok a => f a
  | Err e => Err e
  end.

Definition isOk {A : Type} (r : result A) : bool :=
  match r with Ok _ => true | Err _ => false end.

(** ** Byte buffers *)

Definition byteZ (b : byte) : Z := Z.of_N (Byte.to_N b).

Definition blen (b : list byte) : Z := Z.of_nat (length b).

(** [bytes[i]] on a typed array: [undefined] ([None]) out of range. *)
Definition byteAt (b : list byte) (i : Z) : option Z :=
  if i <? 0 then None else byteZ <$> (b !! Z.to_nat i).

(** [TypedArray.prototype.subarray(begin, end)]: a negative index counts
    from the end, both are clamped to the array. *)
Definition relIndex (len i : Z) : Z :=
  if i <? 0 then Z.max (len + i) 0 else Z.min i len.

Definition subarray (b : list byte) (s e : Z) : list byte :=
  let s' := relIndex (blen b) s in
  let e' := relIndex (blen b) e in
  take (Z.to_nat (e' - s')) (drop (Z.to_nat s') b).

(** Little-endian value of a byte sequence. *)
Fixpoint leValue (bs : list byte) : Z :=
  match bs with
  | [] => 0
  | x :: r => byteZ x + 256 * leValue r
  end.

(** [DataView.prototype.getUintN(off, true)], N = 8 * width: throws a
    [RangeError] when the [width] bytes at [off] are not all in the view. *)
Definition getUint (width : nat) (b : list byte) (off : Z) : result Z :=
  if (off <? 0) || (blen b <? off + Z.of_nat width) then Err RangeError
  else Ok (leValue (take width (drop (Z.to_nat off) b))).

Definition getUint16 := getUint 2.
Definition getUint32 := getUint 4.
Definition getBigUint64 := getUint 8.

Definition MAX_SAFE_INTEGER : Z := 9007199254740991.

(** ** Constants *)

Definition LF : ascii := "010"%char.

Definition TRAILER : string := String LF ("---- Bun! ----" +:+ String LF "").
Definition TRAILER_BYTES : list byte := list_byte_of_string TRAILER.
Definition OFFSETS_SIZE : Z := 32.
Definition MODULE_RECORD_SIZE : Z := 40.

Definition loaderDefaultExtensions (loader : Z) : option string :=
  match loader with
  | 0 => Some ".jsx"
  | 1 => Some ".js"
  | 2 => Some ".ts"
  | 3 => Some ".tsx"
  | 4 => Some ".css"
  | 5 => Some ""
  | 6 => Some ".json"
  | 7 => Some ".json"
  | 8 => Some ".toml"
  | 9 => Some ".wasm"
  | 10 => Some ".node"
  | 11 => Some ".txt"
  | 12 => Some ".txt"
  | 13 => Some ".txt"
  | 14 => Some ".sh"
  | 15 => Some ".sqlite"
  | 16 => Some ".sqlite"
  | 17 => Some ".html"
  | 18 => Some ".yaml"
  | _ => None
  end.

(** ** Data model *)

(** [StringPointer]; the fields [offset] and [length] of the source. *)
Record StringPointer : Type := mkPtr { ptr_offset : Z; ptr_length : Z }.

Record ModuleRecord : Type := mkModule {
  originalPath : string;
  contents : list byte;
  sourcemap : option (list byte);
  bytecode : option (list byte);
  encoding : Z;
  loader : Z;
  moduleFormat : Z;
  side : Z;
}.

Record ParsedStandalone : Type := mkParsed {
  modules : list ModuleRecord;
  entryPointId : Z;
  compileExecArgv : string;
}.

(** ** The runtime *)

(** What the program takes from Bun: the lenient UTF-8 [TextDecoder],
    [String.prototype.toLowerCase] and the host's [path] module. *)
Record Host : Type := mkHost {
  textDecoder_decode : list byte -> string;
  toLowerCase : string -> string;
  path_sep : string;
  path_isAbsolute : string -> bool;
  path_extname : string -> string;
  path_dirname : string -> string;
  path_resolve : list string -> string;
}.

(** ** Searching a buffer *)

Fixpoint isPrefixOf (needle hay : list byte) : bool :=
  match needle, hay with
  | [], _ => true
  | _ :: _, [] => false
  | x :: n', y :: h' => Byte.eqb x y && isPrefixOf n' h'
  end.

(** The [outer] loop of [lastIndexOfSubarray], entered at position [i]:
    the inner loop compares [needle] with [haystack[i ..]]. *)
Fixpoint scanDown (haystack needle : list byte) (i : nat) : Z :=
  if isPrefixOf needle (drop i haystack) then Z.of_nat i
  else match i with
       | O => -1
       | S i' => scanDown haystack needle i'
       end.

Definition lastIndexOfSubarray (haystack needle : list byte) : Z :=
  if (blen needle =? 0) || (blen haystack <? blen needle) then -1
  else scanDown haystack needle (length haystack - length needle)%nat.

(** ** Container locator *)

Fixpoint untilNull (bytes : list byte) : list byte :=
  match bytes with
  | [] => []
  | x :: r => if byteZ x =? 0 then [] else x :: untilNull r
  end.

Definition decodeAsciiNullTerminated (h : Host) (bytes : list byte) : string :=
  textDecoder_decode h (untilNull bytes).

(** The [for] loop over the section table of [extractBunSection], with
    [n] iterations left and the loop variable at [i]. *)
Fixpoint scanSections (h : Host) (fileBytes : list byte)
    (sectionTableOffset : Z) (n : nat) (i : Z) : result (list byte) :=
  match n with
  | O => Err NoBunSection
  | S n' =>
    let sectionOffset := sectionTableOffset + i * 40 in
    if blen fileBytes <? sectionOffset + 40 then Err SectionRecordOutOfRange
    else
      let nameBytes := subarray fileBytes sectionOffset (sectionOffset + 8) in
      let sectionName := decodeAsciiNullTerminated h nameBytes in
      if negb (String.eqb sectionName ".bun")
      then scanSections h fileBytes sectionTableOffset n' (i + 1)
      else
        sizeOfRawData ← getUint32 fileBytes (sectionOffset + 16);
        pointerToRawData ← getUint32 fileBytes (sectionOffset + 20);
        if (blen fileBytes <? pointerToRawData + sizeOfRawData)
           || (blen fileBytes <? pointerToRawData + 4)
        then Err BunSectionOutOfRange
        else
          dataLength ← getUint32 fileBytes pointerToRawData;
          let dataStart := pointerToRawData + 4 in
          let dataEnd := dataStart + dataLength in
          if (pointerToRawData + sizeOfRawData <? dataEnd)
             || (blen fileBytes <? dataEnd)
          then Err BunLengthPrefixMismatch
          else Ok (subarray fileBytes dataStart dataEnd)
  end.

Definition extractBunSection (h : Host) (fileBytes : list byte) : result (list byte) :=
  if blen fileBytes <? 64 then Err NotPE
  else
    magic ← getUint16 fileBytes 0;
    if negb (magic =? 23117) then Err NotPE
    else
      peHeaderOffset ← getUint32 fileBytes 60;
      if blen fileBytes <? peHeaderOffset + 24 then Err PEHeaderOutOfRange
      else
        signature ← getUint32 fileBytes peHeaderOffset;
        if negb (signature =? 17744) then Err NoPESignature
        else
          numberOfSections ← getUint16 fileBytes (peHeaderOffset + 6);
          sizeOfOptionalHeader ← getUint16 fileBytes (peHeaderOffset + 20);
          let sectionTableOffset := peHeaderOffset + 24 + sizeOfOptionalHeader in
          if blen fileBytes <? sectionTableOffset then Err BadSectionTable
          else scanSections h fileBytes sectionTableOffset (Z.to_nat numberOfSections) 0.

Definition extractTrailerAppendedBlob (fileBytes : list byte) : option (list byte) :=
  if blen fileBytes <? blen TRAILER_BYTES + OFFSETS_SIZE + 8 then None
  else
    let trailerIndex := lastIndexOfSubarray fileBytes TRAILER_BYTES in
    if trailerIndex =? -1 then None
    else
      let lengthFieldOffset := blen fileBytes - 8 in
      match getBigUint64 fileBytes lengthFieldOffset with
      | Err _ => None
      | Ok totalBytesBig =>
        if totalBytesBig =? 0 then None
        else
          let fileLengthBig := blen fileBytes in
          if (totalBytesBig =? 0) || (fileLengthBig <? totalBytesBig) then None
          else
            let totalBytes :=
              if MAX_SAFE_INTEGER <? totalBytesBig then MAX_SAFE_INTEGER
              else totalBytesBig in
            if (totalBytes =? MAX_SAFE_INTEGER) && (MAX_SAFE_INTEGER <? totalBytesBig)
            then None
            else
              let start := blen fileBytes - 8 - totalBytes in
              if start <? 0 then None
              else
                let blob := subarray fileBytes start (blen fileBytes - 8) in
                if lastIndexOfSubarray blob TRAILER_BYTES =? -1 then None
                else Some blob
      end.

(** [try { return extractBunSection(..) } catch (peErr) { fallback }]. *)
Definition extractEmbeddedData (h : Host) (fileBytes : list byte) : result (list byte) :=
  match extractBunSection h fileBytes with
  | Ok section => Ok section
  | Err peErr =>
    match extractTrailerAppendedBlob fileBytes with
    | Some fallback => Ok fallback
    | None => Err (NoEmbeddedData peErr)
    end
  end.

(** ** Bundle parser *)

#[global] Instance result_fmap : FMap result := fun A B f m =>
  match m with
  | Ok a => Ok (f a)
  | Err e => Err e
  end.

Definition readPointer (view : list byte) (off : Z) : result StringPointer :=
  pointerOffset ← getUint32 view off;
  pointerLength ← getUint32 view (off + 4);
  Ok (mkPtr pointerOffset pointerLength).

(** The [DataView] is the 8 bytes of [bytes] from [off]. *)
Definition readPointerFromPayload (bytes : list byte) (off : Z) : result StringPointer :=
  if blen bytes <? off + 8 then Err ModulePointerOutOfRange
  else
    let view := take 8 (drop (Z.to_nat off) bytes) in
    o ← getUint32 view 0;
    l ← getUint32 view 4;
    Ok (mkPtr o l).

Definition slicePointer (bytes : list byte) (ptr : StringPointer) : result (list byte) :=
  if ptr_length ptr =? 0 then Ok []
  else
    let end_ := ptr_offset ptr + ptr_length ptr in
    if blen bytes <? end_ then Err StringPointerOutOfRange
    else Ok (subarray bytes (ptr_offset ptr) end_).

Definition decodeUtf8 (h : Host) (bytes : list byte) (ptr : StringPointer) : result string :=
  if ptr_length ptr =? 0 then Ok ""
  else
    slice ← slicePointer bytes ptr;
    Ok (textDecoder_decode h slice).

(** [ptr.length > 0 ? slicePointer(payload, ptr) : null] *)
Definition sliceOptional (payload : list byte) (ptr : StringPointer) : result (option (list byte)) :=
  if 0 <? ptr_length ptr then Some <$> slicePointer payload ptr else Ok None.

(** The body of the record loop of [parseStandalone], for the record at
    [base]. *)
Definition parseRecord (h : Host) (payload : list byte) (base : Z) : result ModuleRecord :=
  namePtr ← readPointerFromPayload payload base;
  contentsPtr ← readPointerFromPayload payload (base + 8);
  sourcemapPtr ← readPointerFromPayload payload (base + 16);
  bytecodePtr ← readPointerFromPayload payload (base + 24);
  let encoding := default 0 (byteAt payload (base + 32)) in
  let loader := default 5 (byteAt payload (base + 33)) in
  let moduleFormat := default 0 (byteAt payload (base + 34)) in
  let side := default 0 (byteAt payload (base + 35)) in
  originalPath ← decodeUtf8 h payload namePtr;
  contents ← slicePointer payload contentsPtr;
  sourcemap ← sliceOptional payload sourcemapPtr;
  bytecode ← sliceOptional payload bytecodePtr;
  Ok (mkModule originalPath contents sourcemap bytecode
        encoding loader moduleFormat side).

(** The record loop, with [n] iterations left and the loop variable at [i]. *)
Fixpoint parseRecords (h : Host) (payload : list byte)
    (modulesOffset recordSize : Z) (n : nat) (i : Z) : result (list ModuleRecord) :=
  match n with
  | O => Ok []
  | S n' =>
    m ← parseRecord h payload (modulesOffset + i * recordSize);
    rest ← parseRecords h payload modulesOffset recordSize n' (i + 1);
    Ok (m :: rest)
  end.

(** The choice of [recordSize]; the operands of [%] are not negative. *)
Definition chooseRecordSize (modulesLength : Z) : result Z :=
  if negb (modulesLength mod MODULE_RECORD_SIZE =? 0) then
    let alternateSize := 36 in
    if modulesLength mod alternateSize =? 0 then Ok alternateSize
    else Err UnknownRecordSize
  else Ok MODULE_RECORD_SIZE.

Definition parseStandalone (h : Host) (blob : list byte) : result ParsedStandalone :=
  if blen blob <? blen TRAILER_BYTES + OFFSETS_SIZE then Err BlobTooShort
  else
    let trailerIndex := lastIndexOfSubarray blob TRAILER_BYTES in
    if trailerIndex =? -1 then Err NoTrailer
    else
      let offsetsPos := trailerIndex - OFFSETS_SIZE in
      if offsetsPos <? 0 then Err BadOffsetsPos
      else
        byteCountBig ← getBigUint64 blob offsetsPos;
        if MAX_SAFE_INTEGER <? byteCountBig then Err ByteCountUnsafe
        else
          let byteCount := byteCountBig in
          modulesPtr ← readPointer blob (offsetsPos + 8);
          entryPointId ← getUint32 blob (offsetsPos + 16);
          compileExecArgvPtr ← readPointer blob (offsetsPos + 20);
          if blen blob <? byteCount then Err ByteCountOutOfRange
          else
            let payload := subarray blob 0 byteCount in
            let modulesEnd := ptr_offset modulesPtr + ptr_length modulesPtr in
            if blen payload <? modulesEnd then Err ModuleTableOutOfRange
            else
              recordSize ← chooseRecordSize (ptr_length modulesPtr);
              let recordCount := ptr_length modulesPtr / recordSize in
              modules ← parseRecords h payload (ptr_offset modulesPtr) recordSize
                          (Z.to_nat recordCount) 0;
              compileExecArgv ← decodeUtf8 h payload compileExecArgvPtr;
              Ok (mkParsed modules entryPointId compileExecArgv).

(** ** JavaScript string operations *)

Definition NUL : ascii := "000"%char.
Definition CR : ascii := "013"%char.
Definition DQUOTE : ascii := "034"%char.

(** [s.replace(/c/g, "")] for a class of single code units: keep the
    code units on which [keep] holds. *)
Fixpoint filterS (keep : ascii -> bool) (s : string) : string :=
  match s with
  | EmptyString => EmptyString
  | String c r => if keep c then String c (filterS keep r) else filterS keep r
  end.

(** [s.replace(/[...]/g, x)] with a single code unit [x]. *)
Fixpoint mapS (f : ascii -> ascii) (s : string) : string :=
  match s with
  | EmptyString => EmptyString
  | String c r => String (f c) (mapS f r)
  end.

(** [s.replace(/^[...]+/, "")]: drop the longest prefix in the class. *)
Fixpoint dropWhileS (p : ascii -> bool) (s : string) : string :=
  match s with
  | EmptyString => EmptyString
  | String c r => if p c then dropWhileS p r else s
  end.

(** [s.split(c)] at every code unit on which [sep] holds; the pieces may
    be empty, and the empty string gives one empty piece. *)
Fixpoint splitOn (sep : ascii -> bool) (s : string) : list string :=
  match s with
  | EmptyString => [EmptyString]
  | String c r =>
    if sep c then EmptyString :: splitOn sep r
    else match splitOn sep r with
         | [] => [String c EmptyString]
         | piece :: pieces => String c piece :: pieces
         end
  end.

Definition nonEmpty (s : string) : bool := negb (String.eqb s "").

(** [String.prototype.slice(begin, end)]. *)
Definition sliceS (s : string) (b e : Z) : string :=
  let len := Z.of_nat (String.length s) in
  let b' := relIndex len b in
  let e' := relIndex len e in
  substring (Z.to_nat b') (Z.to_nat (e' - b')) s.

Definition startsWith (s p : string) : bool := String.prefix p s.

Definition endsWith (s p : string) : bool :=
  (String.length p <=? String.length s)%nat
  && String.eqb (substring (String.length s - String.length p) (String.length p) s) p.

Fixpoint zeros (n : nat) : string :=
  match n with
  | O => EmptyString
  | S n' => String "0" (zeros n')
  end.

(** [s.padStart(width, "0")] *)
Definition padStart0 (width : nat) (s : string) : string :=
  zeros (width - String.length s) +:+ s.

(** [n.toString()] for a counter. *)
Definition natToString (n : nat) : string :=
  NilZero.string_of_uint (Nat.to_uint n).

(** Code units equal up to ASCII case: what the [i] flag means for the
    ASCII letters of the patterns below. *)
Definition upperAscii (c : ascii) : ascii :=
  let n := nat_of_ascii c in
  if (97 <=? n)%nat && (n <=? 122)%nat then ascii_of_nat (n - 32) else c.

Definition isAsciiLetter (c : ascii) : bool :=
  let n := nat_of_ascii (upperAscii c) in
  (65 <=? n)%nat && (n <=? 90)%nat.

(** ** Path reconstructor *)

(** The regular expressions of [prefixes] are anchored sequences of
    literal code units, of literal code units up to case, and of
    [[A-Z]] under the [i] flag; [/^\.\/+/] is the only one with a
    repetition. *)
Inductive atom : Type :=
| Lit (c : ascii)
| LitI (c : ascii)
| LetterI.

Definition atomMatches (a : atom) (c : ascii) : bool :=
  match a with
  | Lit x => Ascii.eqb x c
  | LitI x => Ascii.eqb (upperAscii x) (upperAscii c)
  | LetterI => isAsciiLetter c
  end.

(** The rest of [s] after the match, when the atoms match at its start. *)
Fixpoint matchAtoms (p : list atom) (s : string) : option string :=
  match p with
  | [] => Some s
  | a :: p' =>
    match s with
    | EmptyString => None
    | String c r => if atomMatches a c then matchAtoms p' r else None
    end
  end.

Inductive prefixPattern : Type :=
| Atoms (p : list atom)
| DotSlashes.

Definition isSlash (c : ascii) : bool := Ascii.eqb c "/".
Definition isDot (c : ascii) : bool := Ascii.eqb c ".".

Definition matchPrefix (p : prefixPattern) (s : string) : option string :=
  match p with
  | Atoms a => matchAtoms a s
  | DotSlashes =>
    match s with
    | String c1 (String c2 r) =>
      if isDot c1 && isSlash c2 then Some (dropWhileS isSlash r) else None
    | _ => None
    end
  end.

Definition lits (s : string) : list atom := map Lit (list_ascii_of_string s).
Definition litsI (s : string) : list atom := map LitI (list_ascii_of_string s).

Definition prefixes : list prefixPattern :=
  [ Atoms (litsI "B:/~BUN/root/");
    Atoms (LetterI :: litsI ":/~BUN/root/");
    Atoms (lits "/$bunfs/root/");
    Atoms (litsI "B:/~BUN/");
    Atoms (LetterI :: litsI ":/~BUN/");
    Atoms (lits "/$bunfs/");
    DotSlashes;
    Atoms (lits "root/");
    Atoms (lits "/root/") ].

(** [if (prefix.test(rel)) rel = rel.replace(prefix, "")] *)
Definition stripPrefix (rel : string) (p : prefixPattern) : string :=
  match matchPrefix p rel with
  | Some rest => rest
  | None => rel
  end.

(** The class of [/[:*?...<>|]/g]: colon, star, question mark, double
    quote, angle brackets and bar. *)
Definition isIllegal (c : ascii) : bool :=
  Ascii.eqb c ":" || Ascii.eqb c "*" || Ascii.eqb c "?" || Ascii.eqb c DQUOTE
  || Ascii.eqb c "<" || Ascii.eqb c ">" || Ascii.eqb c "|".

Definition keptPart (part : string) : bool :=
  negb (String.eqb part "") && negb (String.eqb part "..").

(** The string [rel] of [sanitizeModulePath] just before it is split. *)
Definition cleanedPath (original : string) : string :=
  let rel := filterS (fun c => negb (Ascii.eqb c NUL)) original in
  let rel := fold_left stripPrefix prefixes rel in
  let rel := mapS (fun c => if isIllegal c then "_"%char else c) rel in
  let rel := filterS (fun c => negb (Ascii.eqb c CR)) rel in
  let rel := mapS (fun c => if Ascii.eqb c "\" then "/"%char else c) rel in
  dropWhileS isDot rel.

Definition sanitizeModulePath (original : string) : string :=
  let rel := cleanedPath original in
  let parts := List.filter keptPart (splitOn isSlash rel) in
  String.concat "/" parts.

Definition isSlashOrBackslash (c : ascii) : bool :=
  Ascii.eqb c "/" || Ascii.eqb c "\".

Definition moduleNumber (index : nat) : string :=
  "module-" +:+ padStart0 4 (natToString index).

(** [`module-${index.toString().padStart(4, "0")}${fallbackExt}`] *)
Definition fallbackName (m : ModuleRecord) (index : nat) : string :=
  let fallbackExt := default ".bin" (loaderDefaultExtensions (loader m)) in
  moduleNumber index +:+ fallbackExt.

(** The value of [finalPath] when the collision table is consulted. *)
Definition finalPathOf (h : Host) (m : ModuleRecord) (index : nat) : string :=
  let candidate := sanitizeModulePath (originalPath m) in
  let candidate :=
    if String.eqb candidate "" then fallbackName m index else candidate in
  let candidate := dropWhileS isSlashOrBackslash candidate in
  let candidate :=
    if String.eqb candidate "" || path_isAbsolute h candidate
    then fallbackName m index else candidate in
  let normalized := List.filter nonEmpty (splitOn isSlashOrBackslash candidate) in
  let finalPath := String.concat (path_sep h) normalized in
  if String.eqb finalPath "" then moduleNumber index else finalPath.

(** [chooseRelativePath]: the path returned and the table [used] after
    the call (the source updates the [Map] in place). *)
Definition chooseRelativePath (h : Host) (m : ModuleRecord) (index : nat)
    (used : gmap string nat) : string * gmap string nat :=
  let finalPath := finalPathOf h m index in
  let key := toLowerCase h finalPath in
  match used !! key with
  | Some n =>
    let count := (n + 1)%nat in
    let ext := path_extname h finalPath in
    let base := sliceS finalPath 0
                  (Z.of_nat (String.length finalPath) - Z.of_nat (String.length ext)) in
    (base +:+ "." +:+ natToString count +:+ ext, <[key := count]> used)
  | None => (finalPath, <[key := 1%nat]> used)
  end.

(** ** Bundle writer *)

Record MetadataEntry : Type := mkEntry {
  md_index : nat;
  md_originalPath : string;
  md_relativePath : string;
  md_loader : Z;
  md_encoding : Z;
  md_moduleFormat : Z;
  md_side : Z;
  md_hasSourcemap : bool;
  md_hasBytecode : bool;
}.

(** The object given to [JSON.stringify] for [metadata.json]. *)
Record Manifest : Type := mkManifest {
  mf_modules : list MetadataEntry;
  mf_entryPointId : Z;
  mf_compileExecArgv : string;
}.

Inductive FileData : Type :=
| Bytes (b : list byte)
| Text (s : string)
| Json (m : Manifest).

(** The file-system calls the writer issues, in the order it awaits them.
    Each call is taken to succeed; a call the operating system rejects
    ends the run in the source. *)
Inductive FsOp : Type :=
| Mkdir (p : string)
| WriteFile (p : string) (d : FileData).

(** The local state of [writeOutputs] across the module loop. *)
Record WriterState : Type := mkState {
  metadata : list MetadataEntry;
  usedPaths : gmap string nat;
  fs : list FsOp;
}.

Definition ensureTrailingSep (h : Host) (dir : string) : string :=
  if endsWith dir (path_sep h) then dir else dir +:+ path_sep h.

(** [!targetPath.startsWith(resolvedOutputWithSep) && targetPath !== resolvedOutput] *)
Definition escapesOutput (h : Host) (resolvedOutput targetPath : string) : bool :=
  negb (startsWith targetPath (ensureTrailingSep h resolvedOutput))
  && negb (String.eqb targetPath resolvedOutput).

Definition optionalWrite (p : string) (d : option (list byte)) : list FsOp :=
  match d with
  | Some b => [WriteFile p (Bytes b)]
  | None => []
  end.

Definition isSome {A : Type} (o : option A) : bool :=
  match o with Some _ => true | None => false end.

Definition entryOf (index : nat) (m : ModuleRecord) (relPath : string) : MetadataEntry :=
  mkEntry index (originalPath m) relPath (loader m) (encoding m)
          (moduleFormat m) (side m) (isSome (sourcemap m)) (isSome (bytecode m)).

(** The calls one iteration issues once its path has passed the check. *)
Definition moduleWrites (h : Host) (targetPath : string) (m : ModuleRecord) : list FsOp :=
  [Mkdir (path_dirname h targetPath); WriteFile targetPath (Bytes (contents m))]
  ++ optionalWrite (targetPath +:+ ".map") (sourcemap m)
  ++ optionalWrite (targetPath +:+ ".bytecode.bin") (bytecode m).

(** One iteration of the module loop: the state after it, and the error
    when it throws. *)
Definition writeModule (h : Host) (resolvedOutput : string) (st : WriterState)
    (index : nat) (m : ModuleRecord) : WriterState * option error :=
  let '(relPath, used') := chooseRelativePath h m index (usedPaths st) in
  let targetPath := path_resolve h [resolvedOutput; relPath] in
  if escapesOutput h resolvedOutput targetPath
  then (mkState (metadata st) used' (fs st), Some (PathEscapes targetPath))
  else (mkState (metadata st ++ [entryOf index m relPath]) used'
                (fs st ++ moduleWrites h targetPath m), None).

Fixpoint writeModules (h : Host) (resolvedOutput : string) (st : WriterState)
    (index : nat) (ms : list ModuleRecord) : WriterState * option error :=
  match ms with
  | [] => (st, None)
  | m :: rest =>
    match writeModule h resolvedOutput st index m with
    | (st', None) => writeModules h resolvedOutput st' (S index) rest
    | (st', Some e) => (st', Some e)
    end
  end.

(** [writeOutputs]: the calls issued, and whether it returned or threw. *)
Definition writeOutputs (h : Host) (parsed : ParsedStandalone) (outputDir : string)
    : list FsOp * result Manifest :=
  let resolvedOutput := path_resolve h [outputDir] in
  let st0 := mkState [] ∅ [Mkdir resolvedOutput] in
  match writeModules h resolvedOutput st0 0 (modules parsed) with
  | (st, Some e) => (fs st, Err e)
  | (st, None) =>
    let argvWrite :=
      if (0 <? String.length (compileExecArgv parsed))%nat
      then [WriteFile (path_resolve h [resolvedOutput; "__compile_exec_argv.txt"])
                      (Text (compileExecArgv parsed +:+ String LF ""))]
      else [] in
    let manifest :=
      mkManifest (metadata st) (entryPointId parsed) (compileExecArgv parsed) in
    (fs st ++ argvWrite
       ++ [WriteFile (path_resolve h [resolvedOutput; "metadata.json"]) (Json manifest)],
     Ok manifest)
  end.

(** [main], from the bytes of the executable and the output directory
    argument on. *)
Definition main (h : Host) (exeBytes : list byte) (outputDirArg : string)
    : list FsOp * result Manifest :=
  let outputDir := path_resolve h [outputDirArg] in
  match extractEmbeddedData h exeBytes with
  | Err e => ([], Err e)
  | Ok embedded =>
    match parseStandalone h embedded with
    | Err e => ([], Err e)
    | Ok parsed => writeOutputs h parsed outputDir
    end
  end.

(** ** A POSIX host

    The [path] functions of a POSIX host, after Node's [path.posix] (which
    Bun follows), and the two string functions on ASCII text.  The general
    theorems below hold for every [Host]; this one serves the statements
    about concrete paths. *)
Module Posix.

Definition lowerAscii (c : ascii) : ascii :=
  let n := nat_of_ascii c in
  if (65 <=? n)%nat && (n <=? 90)%nat then ascii_of_nat (n + 32) else c.

Definition isAbsolute (p : string) : bool :=
  match p with
  | String c _ => isSlash c
  | EmptyString => false
  end.

(** The variables of the scanning loop of [extname]. *)
Record extState : Type := mkExt {
  startDot : Z;
  startPart : Z;
  end_ : Z;
  matchedSlash : bool;
  preDotState : Z;
}.

(** The loop [for (i = path.length - 1; i >= 0; --i)] of [extname],
    about to read index [n - 1]. *)
Fixpoint extnameLoop (p : string) (n : nat) (st : extState) : extState :=
  match n with
  | O => st
  | S i =>
    match String.get i p with
    | None => st
    | Some code =>
      if isSlash code then
        if negb (matchedSlash st)
        then mkExt (startDot st) (Z.of_nat i + 1) (end_ st) (matchedSlash st) (preDotState st)
        else extnameLoop p i st
      else
        let st1 :=
          if end_ st =? -1
          then mkExt (startDot st) (startPart st) (Z.of_nat i + 1) false (preDotState st)
          else st in
        let st2 :=
          if isDot code then
            if startDot st1 =? -1
            then mkExt (Z.of_nat i) (startPart st1) (end_ st1) (matchedSlash st1) (preDotState st1)
            else if negb (preDotState st1 =? 1)
                 then mkExt (startDot st1) (startPart st1) (end_ st1) (matchedSlash st1) 1
                 else st1
          else if negb (startDot st1 =? -1)
               then mkExt (startDot st1) (startPart st1) (end_ st1) (matchedSlash st1) (-1)
               else st1 in
        extnameLoop p i st2
    end
  end.

Definition extname (p : string) : string :=
  let st := extnameLoop p (String.length p) (mkExt (-1) 0 (-1) true 0) in
  if (startDot st =? -1) || (end_ st =? -1) || (preDotState st =? 0)
     || ((preDotState st =? 1) && (startDot st =? end_ st - 1)
         && (startDot st =? startPart st + 1))
  then ""
  else sliceS p (startDot st) (end_ st).

(** The loop [for (i = path.length - 1; i >= 1; --i)] of [dirname],
    about to read index [n]; the result is [end]. *)
Fixpoint dirnameLoop (p : string) (n : nat) (matchedSlash : bool) : Z :=
  match n with
  | O => -1
  | S i =>
    match String.get n p with
    | None => -1
    | Some code =>
      if isSlash code then
        if negb matchedSlash then Z.of_nat n else dirnameLoop p i matchedSlash
      else dirnameLoop p i false
    end
  end.

Definition dirname (p : string) : string :=
  if (String.length p =? 0)%nat then "."
  else
    let hasRoot := isAbsolute p in
    let e := dirnameLoop p (String.length p - 1) true in
    if e =? -1 then (if hasRoot then "/" else ".")
    else if hasRoot && (e =? 1) then "//"
    else sliceS p 0 e.

(** [normalizeString], on the pieces between slashes: an empty piece
    and [.] are skipped, [..] removes the piece before it (and is kept
    only where [allowAboveRoot] holds and nothing can be removed).
    [stack] is the result so far, last piece first. *)
Fixpoint normalizeSegments (allowAboveRoot : bool) (segs stack : list string) : list string :=
  match segs with
  | [] => rev stack
  | seg :: rest =>
    if String.eqb seg "" || String.eqb seg "." then
      normalizeSegments allowAboveRoot rest stack
    else if String.eqb seg ".." then
      match stack with
      | top :: below =>
        if String.eqb top ".." then
          normalizeSegments allowAboveRoot rest
            (if allowAboveRoot then ".." :: stack else stack)
        else normalizeSegments allowAboveRoot rest below
      | [] =>
        normalizeSegments allowAboveRoot rest
          (if allowAboveRoot then [".."] else [])
      end
    else normalizeSegments allowAboveRoot rest (seg :: stack)
  end.

Definition normalizeString (p : string) (allowAboveRoot : bool) : string :=
  String.concat "/" (normalizeSegments allowAboveRoot (splitOn isSlash p) []).

(** The loop of [resolve] over its arguments, last first, then over the
    working directory: the path gathered and whether it is absolute. *)
Fixpoint resolveLoop (cwd : string) (argsRev : list string) (resolvedPath : string)
    : string * bool :=
  match argsRev with
  | [] =>
    if (String.length cwd =? 0)%nat then (resolvedPath, false)
    else (cwd +:+ "/" +:+ resolvedPath, isAbsolute cwd)
  | p :: rest =>
    if (String.length p =? 0)%nat then resolveLoop cwd rest resolvedPath
    else
      let resolvedPath := p +:+ "/" +:+ resolvedPath in
      if isAbsolute p then (resolvedPath, true)
      else resolveLoop cwd rest resolvedPath
  end.

Definition resolve (cwd : string) (args : list string) : string :=
  let '(resolvedPath, resolvedAbsolute) := resolveLoop cwd (rev args) "" in
  let resolvedPath := normalizeString resolvedPath (negb resolvedAbsolute) in
  if resolvedAbsolute then "/" +:+ resolvedPath
  else if (0 <? String.length resolvedPath)%nat then resolvedPath else ".".

(** The host whose working directory is [cwd]. *)
Definition host (cwd : string) : Host :=
  mkHost string_of_list_byte (mapS lowerAscii) "/"
         isAbsolute extname dirname (resolve cwd).

End Posix.

(** ** The parser read in phases

    [parseStandalone] first decodes the offset table, then truncates the
    payload and checks the module table against it, then chooses the
    record size and runs the record loop.  The three functions below name
    these phases; [parseStandalone_phases] shows that they compose to
    [parseStandalone]. *)

Record OffsetTable : Type := mkOffsets {
  byteCount : Z;
  modulesPointer : StringPointer;
  ot_entryPointId : Z;
  argvPointer : StringPointer;
}.

Definition modulesEnd (t : OffsetTable) : Z :=
  ptr_offset (modulesPointer t) + ptr_length (modulesPointer t).

Definition readOffsetTable (blob : list byte) : result OffsetTable :=
  if blen blob <? blen TRAILER_BYTES + OFFSETS_SIZE then Err BlobTooShort
  else
    let trailerIndex := lastIndexOfSubarray blob TRAILER_BYTES in
    if trailerIndex =? -1 then Err NoTrailer
    else
      let offsetsPos := trailerIndex - OFFSETS_SIZE in
      if offsetsPos <? 0 then Err BadOffsetsPos
      else
        byteCountBig ← getBigUint64 blob offsetsPos;
        if MAX_SAFE_INTEGER <? byteCountBig then Err ByteCountUnsafe
        else
          modulesPtr ← readPointer blob (offsetsPos + 8);
          entryPointId ← getUint32 blob (offsetsPos + 16);
          compileExecArgvPtr ← readPointer blob (offsetsPos + 20);
          Ok (mkOffsets byteCountBig modulesPtr entryPointId compileExecArgvPtr).

(** The record loop and what follows it, for a given record size. *)
Definition parseWith (h : Host) (payload : list byte) (t : OffsetTable)
    (recordSize : Z) : result ParsedStandalone :=
  let recordCount := ptr_length (modulesPointer t) / recordSize in
  modules ← parseRecords h payload (ptr_offset (modulesPointer t)) recordSize
              (Z.to_nat recordCount) 0;
  compileExecArgv ← decodeUtf8 h payload (argvPointer t);
  Ok (mkParsed modules (ot_entryPointId t) compileExecArgv).

Definition parseTable (h : Host) (blob : list byte) (t : OffsetTable)
    : result ParsedStandalone :=
  if blen blob <? byteCount t then Err ByteCountOutOfRange
  else
    let payload := subarray blob 0 (byteCount t) in
    if blen payload <? modulesEnd t then Err ModuleTableOutOfRange
    else
      recordSize ← chooseRecordSize (ptr_length (modulesPointer t));
      parseWith h payload t recordSize.

(** ** Vocabulary of the statements *)

(** [needle] stands in [hay] at position [i]. *)
Definition occursAt (needle hay : list byte) (i : nat) : Prop :=
  take (length needle) (drop i hay) = needle.

Definition containsTrailer (b : list byte) : Prop :=
  exists i : nat, occursAt TRAILER_BYTES b i.

(** A pointer that [slicePointer] accepts. *)
Definition sliceable (payload : list byte) (ptr : StringPointer) : bool :=
  (ptr_length ptr =? 0) || (ptr_offset ptr + ptr_length ptr <=? blen payload).

(** Some code unit of [s] is in the class [p]. *)
Fixpoint existsS (p : ascii -> bool) (s : string) : bool :=
  match s with
  | EmptyString => false
  | String c r => p c || existsS p r
  end.

Definition isBackslash (c : ascii) : bool := Ascii.eqb c "\".

(** A path segment that names an entry below the directory it stands
    in: not empty, not [..], without a slash. *)
Definition plainSegment (s : string) : Prop :=
  s <> "" /\ s <> ".." /\ existsS isSlash s = false.

(** A relative path of plain segments joined by slashes. *)
Definition plainPath (p : string) : Prop :=
  exists segs, segs <> [] /\ Forall plainSegment segs /\ p = String.concat "/" segs.



Definition isDigit (c : ascii) : bool :=
  let n := nat_of_ascii c in (48 <=? n)%nat && (n <=? 57)%nat.

(** No code unit of [p] at an index from [a] up to [b] is a slash. *)
Definition nonSlashBetween (p : string) (a b : Z) : Prop :=
  forall i : nat,
    a <= Z.of_nat i < b -> exists c, String.get i p = Some c /\ isSlash c = false.

(** What the loop of [Posix.extname] maintains, about to read index
    [n - 1], and what it ends with. *)
Definition extInv (p : string) (n : nat) (st : Posix.extState) : Prop :=
  (Posix.end_ st = -1 -> Posix.startDot st = -1)
  /\ (Posix.end_ st <> -1 ->
       Posix.matchedSlash st = false
       /\ Z.of_nat n < Posix.end_ st <= Z.of_nat (String.length p))
  /\ (Posix.startDot st <> -1 ->
       Z.of_nat n <= Posix.startDot st < Posix.end_ st)
  /\ nonSlashBetween p (Z.of_nat n) (Posix.end_ st).

Definition extRes (p : string) (st : Posix.extState) : Prop :=
  Posix.startDot st <> -1 ->
  0 <= Posix.startDot st < Posix.end_ st
  /\ Posix.end_ st <= Z.of_nat (String.length p)
  /\ nonSlashBetween p (Posix.startDot st) (Posix.end_ st).

(** The four pointers of a module record, by field. *)
Inductive field : Type :=
| NameField
| ContentsField
| SourcemapField
| BytecodeField.

Definition fieldOffset (f : field) : Z :=
  match f with
  | NameField => 0
  | ContentsField => 8
  | SourcemapField => 16
  | BytecodeField => 24
  end.

Definition fieldPointer (payload : list byte) (base : Z) (f : field) : result StringPointer :=
  readPointerFromPayload payload (base + fieldOffset f).

Definition fieldSliceable (payload : list byte) (base : Z) (f : field) : bool :=
  match fieldPointer payload base f with
  | Ok ptr => sliceable payload ptr
  | Err _ => false
  end.




(** Every pointer of the [n] records from index [i] on is accepted. *)
Fixpoint recordsSliceable (payload : list byte) (modulesOffset recordSize : Z)
    (n : nat) (i : Z) : bool :=
  match n with
  | O => true
  | S n' =>
    let base := modulesOffset + i * recordSize in
    fieldSliceable payload base NameField
    && fieldSliceable payload base ContentsField
    && fieldSliceable payload base SourcemapField
    && fieldSliceable payload base BytecodeField
    && recordsSliceable payload modulesOffset recordSize n' (i + 1)
  end.

(** The paths [chooseRelativePath] returns over the module loop. *)
Fixpoint choosePaths (h : Host) (ms : list ModuleRecord) (index : nat)
    (used : gmap string nat) : list string :=
  match ms with
  | [] => []
  | m :: rest =>
    let '(p, used') := chooseRelativePath h m index used in
    p :: choosePaths h rest (S index) used'
  end.

(** The key of a module in the collision table. *)
Definition keyOf (h : Host) (m : ModuleRecord) (index : nat) : string :=
  toLowerCase h (finalPathOf h m index).





(** The manifest entries and the calls of the module loop when no path
    fails the check. *)
Fixpoint planEntries (h : Host) (ms : list ModuleRecord) (index : nat)
    (used : gmap string nat) : list MetadataEntry :=
  match ms with
  | [] => []
  | m :: rest =>
    let '(p, used') := chooseRelativePath h m index used in
    entryOf index m p :: planEntries h rest (S index) used'
  end.

Fixpoint planWrites (h : Host) (ro : string) (ms : list ModuleRecord) (index : nat)
    (used : gmap string nat) : list FsOp :=
  match ms with
  | [] => []
  | m :: rest =>
    let '(p, used') := chooseRelativePath h m index used in
    moduleWrites h (path_resolve h [ro; p]) m ++ planWrites h ro rest (S index) used'
  end.


(** [`${base}.${count}${ext}`] for [finalPath]. *)
Definition withSuffix (h : Host) (finalPath : string) (count : nat) : string :=
  let ext := path_extname h finalPath in
  let base := sliceS finalPath 0
                (Z.of_nat (String.length finalPath) - Z.of_nat (String.length ext)) in
  base +:+ "." +:+ natToString count +:+ ext.

(** [targetPath] passes the check of [writeOutputs]. *)
Definition insideOutput (h : Host) (resolvedOutput targetPath : string) : bool :=
  startsWith targetPath (ensureTrailingSep h resolvedOutput)
  || String.eqb targetPath resolvedOutput.

(** ** Test bundles *)
Module Fixture.

Definition byteOf (n : Z) : byte :=
  default "000"%byte (Byte.of_N (Z.to_N (n mod 256))).

Definition le32 (n : Z) : list byte :=
  [byteOf n; byteOf (n / 256); byteOf (n / 65536); byteOf (n / 16777216)].

Definition le64 (n : Z) : list byte := le32 n ++ le32 (n / 4294967296).

Definition ptr (off len : Z) : list byte := le32 off ++ le32 len.

(** A module record: four pointers, four tags (encoding 0, loader 1,
    format 0, side 0), and [pad] bytes of padding (4 in the 40-byte
    layout, none in the 36-byte one). *)
Definition record (name contents sm bc : list byte) (pad : nat) : list byte :=
  name ++ contents ++ sm ++ bc ++ [byteOf 0; byteOf 1; byteOf 0; byteOf 0]
  ++ repeat (byteOf 0) pad.

(** A blob: payload [data ++ table], then the 32 bytes of the offset
    table (the given byte count and module pointer, entry point 0, no
    arguments, 4 unused bytes), then the trailer. *)
Definition blobWith (data table : list byte) (count : Z) (modules : list byte)
    : list byte :=
  data ++ table ++ le64 count ++ modules ++ le32 0 ++ ptr 0 0 ++ le32 0
  ++ TRAILER_BYTES.

Definition blob (data table : list byte) : list byte :=
  blobWith data table (blen data + blen table) (ptr (blen data) (blen table)).

(** The data area: the name [a.js] at 0, the contents [hi] at 4, the
    source map [{}] at 6. *)
Definition data : list byte := list_byte_of_string "a.jshi{}".

Definition plain : list byte :=
  blob data (record (ptr 0 4) (ptr 4 2) (ptr 0 0) (ptr 0 0) 4).

Definition legacy : list byte :=
  blob data (record (ptr 0 4) (ptr 4 2) (ptr 0 0) (ptr 0 0) 0).







(** A file that is no PE executable and carries [b] before its 8-byte
    length field. *)
Definition appendedTo (b : list byte) : list byte :=
  list_byte_of_string "#!/bin/sh" ++ b ++ le64 (blen b).

Definition appended : list byte := appendedTo plain.


(** A bundle of three records with the virtual paths [a.js], [a.js] and
    [a.2.js] and the contents [1], [2] and [3]: the names stand at 0 and
    4 of the data area, the contents at 10, 11 and 12. *)
Definition threeRecords : list byte :=
  blob (list_byte_of_string "a.jsa.2.js123")
       (record (ptr 0 4) (ptr 10 1) (ptr 0 0) (ptr 0 0) 4
        ++ record (ptr 0 4) (ptr 11 1) (ptr 0 0) (ptr 0 0) 4
        ++ record (ptr 4 6) (ptr 12 1) (ptr 0 0) (ptr 0 0) 4).

(** What [threeRecords] parses to. *)
Definition threeModules : ParsedStandalone :=
  mkParsed
    [ mkModule "a.js" (list_byte_of_string "1") None None 0 1 0 0;
      mkModule "a.js" (list_byte_of_string "2") None None 0 1 0 0;
      mkModule "a.2.js" (list_byte_of_string "3") None None 0 1 0 0 ]
    0 "".

End Fixture.

(** ** More vocabulary *)

(** The errors [extractBunSection] throws by name. *)
Definition sectionErrors : list error :=
  [ NotPE; PEHeaderOutOfRange; NoPESignature; BadSectionTable;
    SectionRecordOutOfRange; BunSectionOutOfRange; BunLengthPrefixMismatch;
    NoBunSection ].

(** The errors [parseStandalone] throws by name, but for the one of
    [readPointerFromPayload]. *)
Definition parserErrors : list error :=
  [ BlobTooShort; NoTrailer; BadOffsetsPos; ByteCountUnsafe;
    ByteCountOutOfRange; ModuleTableOutOfRange; UnknownRecordSize;
    StringPointerOutOfRange ].

(** The little-endian field of [width] bytes at [off] of [b]. *)
Definition fieldAt (width off : nat) (b : list byte) : Z :=
  leValue (take width (drop off b)).

(** The 32 bytes before the trailer, by field: [byte_count] at 0, the
    module table pointer at 8, the entry point at 16, the argument
    pointer at 20. *)
Definition decodeOffsets (offs : list byte) : OffsetTable :=
  mkOffsets (fieldAt 8 0 offs)
            (mkPtr (fieldAt 4 8 offs) (fieldAt 4 12 offs))
            (fieldAt 4 16 offs)
            (mkPtr (fieldAt 4 20 offs) (fieldAt 4 24 offs)).

(** The record size [parseStandalone] settles on, for a module table
    whose length is a multiple of 40 or of 36. *)
Definition strideOf (t : OffsetTable) : Z :=
  if ptr_length (modulesPointer t) mod 40 =? 0 then 40 else 36.

(** [d] is a run of consecutive bytes of [b] that ends at [limit] or
    before. *)
Definition sliceWithin (b : list byte) (limit : Z) (d : list byte) : Prop :=
  exists off : nat,
    Z.of_nat off + blen d <= limit /\ d = take (length d) (drop off b).

(** The code units [sanitizeModulePath] removes or replaces. *)
Definition isForbidden (c : ascii) : bool :=
  isIllegal c || Ascii.eqb c NUL || Ascii.eqb c CR || isBackslash c.

(** A virtual path as a bundler writes it below its root: a relative
    path of plain segments, free of the code units that are removed or
    replaced, that begins neither with a dot nor with [root/]. *)
Definition cleanRelative (rel : string) : Prop :=
  plainPath rel
  /\ existsS isForbidden rel = false
  /\ String.prefix "." rel = false
  /\ String.prefix "root/" rel = false.

(** The value of [finalPath] in [chooseRelativePath] as it is joined,
    before the test [!finalPath]. *)
Definition joinedPathOf (h : Host) (m : ModuleRecord) (index : nat) : string :=
  let candidate := sanitizeModulePath (originalPath m) in
  let candidate :=
    if String.eqb candidate "" then fallbackName m index else candidate in
  let candidate := dropWhileS isSlashOrBackslash candidate in
  let candidate :=
    if String.eqb candidate "" || path_isAbsolute h candidate
    then fallbackName m index else candidate in
  let normalized := List.filter nonEmpty (splitOn isSlashOrBackslash candidate) in
  String.concat (path_sep h) normalized.



(** The calls of [writeOutputs] after the module loop. *)
Definition argvWrites (h : Host) (resolvedOutput argv : string) : list FsOp :=
  if (0 <? String.length argv)%nat
  then [WriteFile (path_resolve h [resolvedOutput; "__compile_exec_argv.txt"])
                  (Text (argv +:+ String LF ""))]
  else [].

Definition isModuleOp (op : FsOp) : bool :=
  match op with
  | Mkdir _ => true
  | WriteFile _ (Bytes _) => true
  | WriteFile _ _ => false
  end.

(** ** A test executable *)
Module PE.

Definition zero : byte := "000"%byte.

Definition le16 (n : Z) : list byte := [Fixture.byteOf n; Fixture.byteOf (n / 256)].

(** The 64 bytes of a DOS header: [MZ], and at 60 the offset of the PE
    header, which follows at once. *)
Definition dosHeader : list byte :=
  list_byte_of_string "MZ" ++ repeat zero 58 ++ Fixture.le32 64.

(** The 24 bytes from the signature to the end of the COFF header:
    [sections] at 6 and the size of the optional header at 20. *)
Definition peHeader (sections optional : Z) : list byte :=
  list_byte_of_string "PE" ++ [zero; zero] ++ le16 34404 ++ le16 sections
  ++ repeat zero 12 ++ le16 optional ++ le16 0.

(** A section header: the name in 8 bytes, the size of the raw data at
    16 and its position in the file at 20. *)
Definition sectionHeader (name : string) (size pointer : Z) : list byte :=
  list_byte_of_string name ++ repeat zero (8 - String.length name)
  ++ Fixture.le32 0 ++ Fixture.le32 0 ++ Fixture.le32 size ++ Fixture.le32 pointer
  ++ repeat zero 16.

(** An executable with the sections [.text] (empty) and [.bun], whose
    raw data, at 168, is the length of [data] in 4 bytes and [data]. *)
Definition file (data : list byte) : list byte :=
  dosHeader ++ peHeader 2 0
  ++ sectionHeader ".text" 0 168
  ++ sectionHeader ".bun" (4 + blen data) 168
  ++ Fixture.le32 (blen data) ++ data.

End PE.

(** ** More JavaScript string operations *)

(** [s.slice(n)] for [n] not negative. *)
Definition dropS (n : nat) (s : string) : string :=
  substring n (String.length s - n) s.

(** The longest prefix of [s] in the class [p]. *)
Fixpoint takeWhileS (p : ascii -> bool) (s : string) : string :=
  match s with
  | EmptyString => EmptyString
  | String c r => if p c then String c (takeWhileS p r) else EmptyString
  end.

(** Every code unit of [s] is in the class [p]. *)
Fixpoint allS (p : ascii -> bool) (s : string) : bool :=
  match s with
  | EmptyString => true
  | String c r => p c && allS p r
  end.

(** Of the code units below 256, those of the class [\s], which are also
    the ones [trim] removes: tab, line feed, vertical tab, form feed,
    carriage return, space and no-break space. *)
Definition isSpace (c : ascii) : bool :=
  let n := nat_of_ascii c in
  ((9 <=? n)%nat && (n <=? 13)%nat) || (n =? 32)%nat || (n =? 160)%nat.

(** [s.trimEnd()] *)
Fixpoint trimEnd (s : string) : string :=
  match s with
  | EmptyString => EmptyString
  | String c r =>
    let r' := trimEnd r in
    if isSpace c && String.eqb r' "" then EmptyString else String c r'
  end.

(** [s.trim()] *)
Definition trim (s : string) : string := trimEnd (dropWhileS isSpace s).

(** [s.split(/\s+/)], generally [s.split(/[...]+/)] for a class [sep]:
    the pieces between the runs of separators; [inRun] tells that the
    code unit before was a separator. *)
Fixpoint splitRunsFrom (sep : ascii -> bool) (inRun : bool) (s : string) : list string :=
  match s with
  | EmptyString => [EmptyString]
  | String c r =>
    if sep c then
      if inRun then splitRunsFrom sep true r
      else EmptyString :: splitRunsFrom sep true r
    else
      match splitRunsFrom sep false r with
      | [] => [String c EmptyString]
      | piece :: pieces => String c piece :: pieces
      end
  end.

Definition splitRuns (sep : ascii -> bool) (s : string) : list string :=
  splitRunsFrom sep false s.

(** * The rule script

    [scripts/apply-rules.ts]: the block of the bundled source that begins
    at a marker is cut out, handed to [ast-grep], and put back.  What the
    script takes from outside, the regular expression of a target and the
    run of [ast-grep], is a function here. *)
Module ApplyRules.

Inductive error : Type :=
| MarkerNotFound (marker : string)      (* "无法在源代码中找到标记：${startMarker}" *)
| BraceNotFound (marker : string)       (* "未能在标记后找到左花括号：${startMarker}" *)
| BracesNotClosed (marker : string)     (* "括号未正确闭合：${startMarker}" *)
| SuffixNotMatched (description : string) (* "未能在块末尾匹配附加后缀：${description}" *)
| AstGrepFailed.                        (* "执行 ast-grep 失败：..." *)

Inductive outcome (A : Type) : Type :=
| Done (a : A)
| Thrown (e : error).
Arguments Done {A} a.
Arguments Thrown {A} e.

(** [ReplacementTarget]; [suffixMatcher.exec(slice)] gives the index of
    the match and the text matched, [match[0]]. *)
Record ReplacementTarget : Type := mkTarget {
  description : string;
  startMarker : string;
  suffixMatcher : option (string -> option (nat * string));
}.

Record Block : Type := mkBlock {
  start : nat;
  end_ : nat;
  snippet : string;
  leadingIndent : string;
}.

(** [s.indexOf(needle)]: the first index at which [needle] stands. *)
Fixpoint indexOf (needle s : string) : option nat :=
  if String.prefix needle s then Some 0%nat
  else match s with
       | EmptyString => None
       | String _ r => S <$> indexOf needle r
       end.

(** [s.indexOf(needle, from)] for [from] up to the length. *)
Definition indexOfFrom (needle s : string) (from : nat) : option nat :=
  (fun i => (from + i)%nat) <$> indexOf needle (dropS from s).

(** [while (lineStart > 0 && source[lineStart - 1] !== "\n") lineStart--] *)
Fixpoint lineStartOf (source : string) (lineStart : nat) : nat :=
  match lineStart with
  | O => O
  | S i =>
    match String.get i source with
    | Some c => if Ascii.eqb c LF then lineStart else lineStartOf source i
    | None => lineStartOf source i
    end
  end.

(** The loop over the braces, about to read the first code unit of
    [rest], which stands at [index]: the values of [index] and [depth]
    when it stops. *)
Fixpoint scanBraces (rest : string) (index : nat) (depth : Z) : nat * Z :=
  match rest with
  | EmptyString => (index, depth)
  | String ch rest' =>
    let depth := if Ascii.eqb ch "{" then depth + 1 else depth in
    if Ascii.eqb ch "}" then
      let depth := depth - 1 in
      if depth =? 0 then (S index, depth)
      else scanBraces rest' (S index) depth
    else scanBraces rest' (S index) depth
  end.

Definition extractBlock (source : string) (target : ReplacementTarget) : outcome Block :=
  match indexOf (startMarker target) source with
  | None => Thrown (MarkerNotFound (startMarker target))
  | Some start =>
    let lineStart := lineStartOf source start in
    let leadingIndent := sliceS source (Z.of_nat lineStart) (Z.of_nat start) in
    match indexOfFrom "{" source start with
    | None => Thrown (BraceNotFound (startMarker target))
    | Some braceStart =>
      let '(index, depth) := scanBraces (dropS braceStart source) braceStart 0 in
      if negb (depth =? 0) then Thrown (BracesNotClosed (startMarker target))
      else
        let finish (e : nat) :=
          Done (mkBlock lineStart e
                  (sliceS source (Z.of_nat lineStart) (Z.of_nat e)) leadingIndent) in
        match suffixMatcher target with
        | None => finish index
        | Some exec =>
          match exec (dropS index source) with
          | Some (O, matched) => finish (index + String.length matched)%nat
          | _ => Thrown (SuffixNotMatched (description target))
          end
        end
    end
  end.

Definition isLF (c : ascii) : bool := Ascii.eqb c LF.

Definition NL : string := String LF "".

(** [line.startsWith(leadingIndent) ? line.slice(leadingIndent.length) : line] *)
Definition stripIndent (leadingIndent line : string) : string :=
  if startsWith line leadingIndent then dropS (String.length leadingIndent) line
  else line.

Definition normalize (leadingIndent snippet : string) : string :=
  String.concat NL (map (stripIndent leadingIndent) (splitOn isLF snippet)).

(** [while (lines.length > 0 && lines[lines.length - 1] === "") lines.pop()],
    on the lines in reverse order. *)
Fixpoint popLoop (reversed : list string) : list string :=
  match reversed with
  | [] => []
  | last :: before => if String.eqb last "" then popLoop before else reversed
  end.

Definition popEmpty (lines : list string) : list string :=
  rev (popLoop (rev lines)).

(** [line.length === 0 ? line : leadingIndent + line] *)
Definition addIndent (leadingIndent line : string) : string :=
  if (String.length line =? 0)%nat then line else leadingIndent +:+ line.

Definition reindent (leadingIndent snippet transformed : string) : string :=
  let hadEndingNewline := endsWith snippet NL in
  let transformedLines := popEmpty (splitOn isLF transformed) in
  let reindentedBody := String.concat NL (map (addIndent leadingIndent) transformedLines) in
  if hadEndingNewline then reindentedBody +:+ NL else reindentedBody.

(** One round of the loop of [main] over the targets, on the text
    [updated]. *)
Definition applyTarget (runAstGrep : string -> outcome string)
    (updated : string) (target : ReplacementTarget) : outcome string :=
  match extractBlock updated target with
  | Thrown e => Thrown e
  | Done b =>
    match runAstGrep (normalize (leadingIndent b) (snippet b)) with
    | Thrown e => Thrown e
    | Done transformed =>
      let reindented := reindent (leadingIndent b) (snippet b) transformed in
      if String.eqb (snippet b) reindented then Done updated
      else Done (sliceS updated 0 (Z.of_nat (start b)) +:+ reindented
                 +:+ dropS (end_ b) updated)
    end
  end.

(** The difference between the braces opened and closed in [s]. *)
Fixpoint depthOf (s : string) : Z :=
  match s with
  | EmptyString => 0
  | String ch r =>
    (if Ascii.eqb ch "{" then 1 else 0) - (if Ascii.eqb ch "}" then 1 else 0) + depthOf r
  end.

(** A text with a function of two lines, indented by two blanks, and a
    target for it. *)
Definition sample : string :=
  "let a;" +:+ NL +:+ "  function f() {" +:+ NL +:+ "    if (x) { y(); }" +:+ NL
  +:+ "  }" +:+ NL +:+ "let b;".

Definition sampleTarget : ReplacementTarget := mkTarget "f" "function f() {" None.

End ApplyRules.

(** * The update script

    [scripts/update-from-factory.ts]: the installer script is fetched and
    read for the version, the executable is downloaded and checked against
    its SHA-256, unpacked, and the artifacts are rotated.  A response of
    [fetch], the hash and [toLowerCase] are given from outside; the files
    of the artifacts directory are a finite map from paths to contents. *)
Module Update.

Inductive error : Type :=
| InstallerFetchFailed (status : Z) (statusText : string) (* "获取安装脚本失败: ..." *)
| NoVersion                         (* "无法从安装脚本中解析版本号" *)
| UnsupportedArch (arch : string)   (* "暂不支持当前架构: ${process.arch}" *)
| DownloadFailed (status : Z) (statusText : string)  (* "下载失败: ..." *)
| ShaFetchFailed (status : Z) (statusText : string)  (* "获取 SHA256 校验值失败: ..." *)
| EmptySha                          (* "SHA256 文件内容为空" *)
| ShaMismatch (expected actual : string) (* "SHA256 校验失败，期望 ... 得到 ..." *)
| ExeMissing                        (* "dump 结果缺少 droid.exe，无法继续" *)
| NoEntry (path : string)           (* ENOENT of a file-system call *)
| Rejected.                         (* a rejected [fetch] *)

Inductive outcome (A : Type) : Type :=
| Done (a : A)
| Thrown (e : error).
Arguments Done {A} a.
Arguments Thrown {A} e.

Record InstallerMeta : Type := mkMeta {
  version : string;
  baseUrl : string;
  binaryName : string;
}.

Record Response : Type := mkResponse {
  ok : bool;
  status : Z;
  statusText : string;
  text : string;
  arrayBuffer : list byte;
}.

(** The match at the start of [s], if there is one, of the pattern
    [/\$name\s*=\s*Q([^Q]+)Q/], where Q stands for the double quote: the
    text of its group.  The pattern needs no backtracking: no white
    space is [=] or a quote, and the group stops at the first quote. *)
Definition assignmentAt (name s : string) : option string :=
  if String.prefix ("$" +:+ name) s then
    match dropWhileS isSpace (dropS (String.length ("$" +:+ name)) s) with
    | String c1 s1 =>
      if Ascii.eqb c1 "=" then
        match dropWhileS isSpace s1 with
        | String c2 s2 =>
          if Ascii.eqb c2 DQUOTE then
            let group := takeWhileS (fun c => negb (Ascii.eqb c DQUOTE)) s2 in
            match dropS (String.length group) s2 with
            | String _ _ => if String.eqb group "" then None else Some group
            | EmptyString => None
            end
          else None
        | EmptyString => None
        end
      else None
    | EmptyString => None
    end
  else None.

(** [content.match(pattern)?.[1]] for that pattern: the group of the
    first match, trying the start of [content] and then each index
    after it. *)
Fixpoint matchAssignment (name content : string) : option string :=
  match assignmentAt name content with
  | Some group => Some group
  | None =>
    match content with
    | EmptyString => None
    | String _ rest => matchAssignment name rest
    end
  end.

Definition parseInstallerScript (content : string) : outcome InstallerMeta :=
  match matchAssignment "version" content with
  | None => Thrown NoVersion
  | Some versionMatch =>
    let baseUrlMatch := matchAssignment "baseUrl" content in
    let binaryNameMatch := matchAssignment "binaryName" content in
    Done (mkMeta versionMatch
                 (default "https://downloads.factory.ai" baseUrlMatch)
                 (default "droid.exe" binaryNameMatch))
  end.

(** [s.replace(/\/+$/, "")]: the first index from which only slashes
    follow, if there is one, is where the string is cut. *)
Fixpoint stripTrailingSlashes (s : string) : string :=
  match s with
  | EmptyString => EmptyString
  | String c r =>
    if isSlash c && allS isSlash r then EmptyString
    else String c (stripTrailingSlashes r)
  end.

Definition buildDownloadUrl (meta : InstallerMeta) (architecture : string) : string :=
  let base := stripTrailingSlashes (baseUrl meta) in
  base +:+ "/factory-cli/releases/" +:+ version meta +:+ "/windows/"
  +:+ architecture +:+ "/" +:+ binaryName meta.

Definition downloadSha256 (toLowerCase : string -> string)
    (fetch : string -> outcome Response) (url : string) : outcome string :=
  match fetch url with
  | Thrown e => Thrown e
  | Done res =>
    if negb (ok res) then Thrown (ShaFetchFailed (status res) (statusText res))
    else
      let text := trim (text res) in
      let firstToken := trim (hd EmptyString (splitRuns isSpace text)) in
      if String.eqb firstToken "" then Thrown EmptySha
      else Done (toLowerCase firstToken)
  end.

(** The paths of the artifacts, constants of the script. *)
Record Paths : Type := mkPaths {
  ARTIFACTS_DIR : string;
  VERSION_FILE : string;
  DROID_EXE : string;
  DROID_JS : string;
  DROID_RAW : string;
  DROID_OLD : string;
  DROID_GENERATED : string;
}.

(** A call that reads or changes the files, a map from paths to
    contents, and returns or throws. *)
Definition IO (A : Type) : Type :=
  gmap string (list byte) -> gmap string (list byte) * outcome A.

Definition ret {A : Type} (a : A) : IO A := fun fs => (fs, Done a).

Definition throw {A : Type} (e : error) : IO A := fun fs => (fs, Thrown e).

Definition bind {A B : Type} (m : IO A) (k : A -> IO B) : IO B :=
  fun fs =>
    match m fs with
    | (fs', Done a) => k a fs'
    | (fs', Thrown e) => (fs', Thrown e)
    end.

(** [access(target)] *)
Definition access (target : string) : IO unit :=
  fun fs => (fs, if fs !! target is Some _ then Done tt else Thrown (NoEntry target)).

(** [rm(target, { force: true })] *)
Definition rmForce (target : string) : IO unit :=
  fun fs => (delete target fs, Done tt).

(** [rename(from, to)] *)
Definition rename (from to : string) : IO unit :=
  fun fs =>
    match fs !! from with
    | Some data => (<[to := data]> (delete from fs), Done tt)
    | None => (fs, Thrown (NoEntry from))
    end.

(** [copyFile(from, to)] *)
Definition copyFile (from to : string) : IO unit :=
  fun fs =>
    match fs !! from with
    | Some data => (<[to := data]> fs, Done tt)
    | None => (fs, Thrown (NoEntry from))
    end.

Definition readFile (target : string) : IO (list byte) :=
  fun fs =>
    match fs !! target with
    | Some data => (fs, Done data)
    | None => (fs, Thrown (NoEntry target))
    end.

Definition writeFile (target : string) (data : list byte) : IO unit :=
  fun fs => (<[target := data]> fs, Done tt).

(** [try { await access(target); return true } catch { return false }] *)
Definition fileExists (target : string) : IO bool :=
  fun fs =>
    match access target fs with
    | (fs', Done _) => (fs', Done true)
    | (fs', Thrown _) => (fs', Done false)
    end.

Definition rotateArtifacts (p : Paths) : IO unit :=
  bind (fileExists (DROID_JS p)) (fun jsExists =>
  bind (if jsExists
        then bind (rmForce (DROID_OLD p)) (fun _ => rename (DROID_JS p) (DROID_OLD p))
        else ret tt) (fun _ =>
  bind (fileExists (DROID_EXE p)) (fun exeExists =>
  if negb exeExists then throw ExeMissing
  else bind (rename (DROID_EXE p) (DROID_JS p)) (fun _ =>
       copyFile (DROID_JS p) (DROID_RAW p))))).

Definition promoteGenerated (p : Paths) : IO unit :=
  bind (fileExists (DROID_GENERATED p)) (fun generatedExists =>
  if negb generatedExists then ret tt
  else bind (readFile (DROID_GENERATED p)) (fun generated =>
       writeFile (DROID_JS p) generated)).

(** An installer script of two lines: a comment, and the assignment of
    the version [0.19.3]. *)
Definition sampleScript : string :=
  "# installer" +:+ String LF ("$version = " +:+ String DQUOTE ("0.19.3" +:+ String DQUOTE "")).

(** A code unit [n] times. *)
Fixpoint repeatS (c : ascii) (n : nat) : string :=
  match n with
  | O => EmptyString
  | S n' => String c (repeatS c n')
  end.

(** The paths below [/work/artifacts]. *)
Definition samplePaths : Paths :=
  mkPaths "/work/artifacts" "/work/artifacts/droid.version.json"
          "/work/artifacts/droid.exe" "/work/artifacts/droid.js"
          "/work/artifacts/droid.raw.js" "/work/artifacts/droid.old.js"
          "/work/artifacts/droid.generated.js".

(** The four paths [rotateArtifacts] touches. *)
Definition rotated (p : Paths) : list string :=
  [DROID_EXE p; DROID_JS p; DROID_RAW p; DROID_OLD p].

(** What is at [droid.old.js] after the backup: the former [droid.js] if
    there was one, and otherwise what was there. *)
Definition backup (p : Paths) (fs : gmap string (list byte)) : option (list byte) :=
  match fs !! DROID_JS p with
  | Some js => Some js
  | None => fs !! DROID_OLD p
  end.

End Update.

(** * Properties *)

(** ** Byte buffers *)

Lemma byteZ_range (b : byte) : 0 <= byteZ b < 256.
Proof.
  unfold byteZ. pose proof (Byte.to_N_bounded b). lia.
Qed.

Lemma leValue_nonneg (bs : list byte) : 0 <= leValue bs.
Proof.
  induction bs as [|x r IH]; simpl; [lia|].
  pose proof (byteZ_range x). lia.
Qed.

Lemma getUint_nonneg (w : nat) (b : list byte) (off v : Z) :
  getUint w b off = Ok v -> 0 <= v.
Proof.
  unfold getUint. destruct (_ || _); [discriminate|].
  intros [= <-]. apply leValue_nonneg.
Qed.

Lemma relIndex_in_range (len i : Z) : 0 <= i <= len -> relIndex len i = i.
Proof.
  intros Hi. unfold relIndex. destruct (Z.ltb_spec i 0); lia.
Qed.

Lemma subarray_in_range (b : list byte) (s e : Z) :
  0 <= s <= e -> e <= blen b ->
  subarray b s e = take (Z.to_nat (e - s)) (drop (Z.to_nat s) b).
Proof.
  intros Hs He. unfold subarray.
  rewrite !relIndex_in_range by lia. reflexivity.
Qed.

Lemma subarray_blen (b : list byte) (s e : Z) :
  0 <= s <= e -> e <= blen b -> blen (subarray b s e) = e - s.
Proof.
  intros Hs He. rewrite subarray_in_range by assumption.
  unfold blen in *. rewrite length_take, length_drop. lia.
Qed.

(** ** Searching *)

Lemma isPrefixOf_spec (needle hay : list byte) :
  isPrefixOf needle hay = true <-> take (length needle) hay = needle.
Proof.
  revert hay. induction needle as [|x n IH]; intros hay; simpl.
  - rewrite take_0. tauto.
  - destruct hay as [|y hay']; simpl.
    + split; discriminate.
    + rewrite andb_true_iff, IH. split.
      * intros [Hxy Hn]. apply Byte.byte_dec_bl in Hxy. subst.
        now rewrite Hn.
      * intros [= -> Hn]. rewrite Hn. split; [apply Byte.byte_dec_lb|]; reflexivity.
Qed.

Lemma occursAt_bound (needle hay : list byte) (i : nat) :
  needle <> [] -> occursAt needle hay i -> (i + length needle <= length hay)%nat.
Proof.
  unfold occursAt. intros Hn H. apply (f_equal length) in H.
  rewrite length_take, length_drop in H.
  assert (length needle <> 0%nat) by (destruct needle; simpl; congruence).
  lia.
Qed.

Lemma scanDown_none (hay needle : list byte) (i : nat) :
  scanDown hay needle i = -1 <->
  forall j : nat, (j <= i)%nat -> ~ occursAt needle hay j.
Proof.
  induction i as [|i IH]; simpl.
  - destruct (isPrefixOf needle (drop 0 hay)) eqn:E.
    + split; [lia|]. intros H. exfalso. apply (H 0%nat); [lia|].
      now apply isPrefixOf_spec.
    + split; [|reflexivity]. intros _ j Hj Hocc.
      assert (j = 0%nat) as -> by lia.
      apply isPrefixOf_spec in Hocc. congruence.
  - destruct (isPrefixOf needle (drop (S i) hay)) eqn:E.
    + split; [lia|]. intros H. exfalso. apply (H (S i)); [lia|].
      now apply isPrefixOf_spec.
    + rewrite IH. split.
      * intros H j Hj Hocc. destruct (decide (j = S i)) as [->|Hne].
        -- apply isPrefixOf_spec in Hocc. congruence.
        -- apply (H j); [lia|assumption].
      * intros H j Hj. apply H. lia.
Qed.

Lemma scanDown_found (hay needle : list byte) (i : nat) :
  scanDown hay needle i <> -1 ->
  exists j : nat, scanDown hay needle i = Z.of_nat j /\ (j <= i)%nat
                  /\ occursAt needle hay j
                  /\ forall k : nat, (j < k <= i)%nat -> ~ occursAt needle hay k.
Proof.
  induction i as [|i IH]; simpl.
  - destruct (isPrefixOf needle (drop 0 hay)) eqn:E; [|congruence].
    intros _. exists 0%nat. repeat split; [lia|now apply isPrefixOf_spec|lia].
  - destruct (isPrefixOf needle (drop (S i) hay)) eqn:E.
    + intros _. exists (S i). repeat split; [lia|now apply isPrefixOf_spec|lia].
    + intros Hne. destruct (IH Hne) as (j & Hj & Hle & Hocc & Hlast).
      exists j. repeat split; [assumption|lia|assumption|].
      intros k Hk Hoc. destruct (decide (k = S i)) as [->|Hk'].
      * apply isPrefixOf_spec in Hoc. congruence.
      * apply (Hlast k); [lia|assumption].
Qed.

(** [lastIndexOfSubarray] answers -1 exactly when the needle stands
    nowhere in the buffer. *)
Lemma lastIndexOfSubarray_none (hay needle : list byte) :
  needle <> [] ->
  (lastIndexOfSubarray hay needle = -1 <-> forall j : nat, ~ occursAt needle hay j).
Proof.
  intros Hn. unfold lastIndexOfSubarray, blen.
  assert (length needle <> 0%nat) by (destruct needle; simpl; congruence).
  destruct (Z.eqb_spec (Z.of_nat (length needle)) 0); [lia|]. simpl.
  destruct (Z.ltb_spec (Z.of_nat (length hay)) (Z.of_nat (length needle))).
  - split; [|reflexivity]. intros _ j Hocc.
    apply occursAt_bound in Hocc; [lia|assumption].
  - rewrite scanDown_none. split.
    + intros Hall j Hocc. pose proof (occursAt_bound _ _ _ Hn Hocc).
      apply (Hall j); [lia|assumption].
    + intros Hall j _. apply Hall.
Qed.

(** Otherwise it answers the last position where the needle stands. *)
Lemma lastIndexOfSubarray_found (hay needle : list byte) :
  lastIndexOfSubarray hay needle <> -1 ->
  exists j : nat, lastIndexOfSubarray hay needle = Z.of_nat j
                  /\ occursAt needle hay j
                  /\ forall k : nat, (j < k)%nat -> ~ occursAt needle hay k.
Proof.
  unfold lastIndexOfSubarray.
  destruct (Z.eqb_spec (blen needle) 0) as [|Hlen]; [simpl; congruence|]. simpl.
  destruct (Z.ltb_spec (blen hay) (blen needle)); [congruence|]. intros Hne.
  assert (needle <> []) as Hn by (intros ->; apply Hlen; reflexivity).
  destruct (scanDown_found _ _ _ Hne) as (j & Hj & Hle & Hocc & Hlast).
  exists j. repeat split; [assumption..|].
  intros k Hk Hoc. pose proof (occursAt_bound _ _ _ Hn Hoc).
  apply (Hlast k); [lia|assumption].
Qed.

Lemma TRAILER_BYTES_length : blen TRAILER_BYTES = 16.
Proof. reflexivity. Qed.

Lemma containsTrailer_iff (b : list byte) :
  containsTrailer b <-> lastIndexOfSubarray b TRAILER_BYTES <> -1.
Proof.
  unfold containsTrailer. split.
  - intros [i Hi] Hnone.
    assert (TRAILER_BYTES <> []) as Hn by discriminate.
    exact (proj1 (lastIndexOfSubarray_none b _ Hn) Hnone i Hi).
  - intros Hne. destruct (lastIndexOfSubarray_found _ _ Hne) as (j & _ & Hocc & _).
    now exists j.
Qed.

(** ** Pointers *)

Ltac unfold_bind := unfold mbind, result_bind, fmap, result_fmap in *.

Lemma parseStandalone_phases (h : Host) (blob : list byte) :
  parseStandalone h blob = (t ← readOffsetTable blob; parseTable h blob t).
Proof.
  unfold parseStandalone, readOffsetTable. unfold_bind. cbv zeta.
  destruct (blen blob <? _); [reflexivity|].
  destruct (_ =? -1); [reflexivity|].
  destruct (_ <? 0); [reflexivity|].
  destruct (getBigUint64 _ _); [|reflexivity].
  destruct (MAX_SAFE_INTEGER <? _); [reflexivity|].
  destruct (readPointer _ _); [|reflexivity].
  destruct (getUint32 _ _); [|reflexivity].
  destruct (readPointer _ _); reflexivity.
Qed.

Lemma slicePointer_sliceable (bytes : list byte) (ptr : StringPointer) :
  sliceable bytes ptr = true ->
  slicePointer bytes ptr
  = Ok (if ptr_length ptr =? 0 then []
        else subarray bytes (ptr_offset ptr) (ptr_offset ptr + ptr_length ptr)).
Proof.
  unfold sliceable, slicePointer. destruct (ptr_length ptr =? 0); [reflexivity|].
  simpl. intros Hle. apply Z.leb_le in Hle.
  destruct (Z.ltb_spec (blen bytes) (ptr_offset ptr + ptr_length ptr)); [lia|].
  reflexivity.
Qed.



Lemma decodeUtf8_sliceable (h : Host) (bytes : list byte) (ptr : StringPointer) :
  sliceable bytes ptr = true -> exists s, decodeUtf8 h bytes ptr = Ok s.
Proof.
  intros Hs. unfold decodeUtf8. rewrite (slicePointer_sliceable _ _ Hs).
  destruct (ptr_length ptr =? 0); eexists; reflexivity.
Qed.


Lemma sliceOptional_sliceable (bytes : list byte) (ptr : StringPointer) :
  0 <= ptr_length ptr -> sliceable bytes ptr = true ->
  sliceOptional bytes ptr
  = Ok (if ptr_length ptr =? 0 then None
        else Some (subarray bytes (ptr_offset ptr) (ptr_offset ptr + ptr_length ptr))).
Proof.
  intros Hlen Hs. unfold sliceOptional.
  rewrite (slicePointer_sliceable _ _ Hs).
  destruct (Z.eqb_spec (ptr_length ptr) 0) as [->|]; [reflexivity|].
  destruct (Z.ltb_spec 0 (ptr_length ptr)); [reflexivity|lia].
Qed.

Lemma readPointerFromPayload_nonneg (bytes : list byte) (off : Z) (p : StringPointer) :
  readPointerFromPayload bytes off = Ok p -> 0 <= ptr_offset p /\ 0 <= ptr_length p.
Proof.
  unfold readPointerFromPayload. destruct (_ <? _); [discriminate|].
  unfold_bind.
  destruct (getUint32 _ 0) as [o|] eqn:Ho; [|discriminate].
  destruct (getUint32 _ 4) as [l|] eqn:Hl; [|discriminate].
  intros [= <-]. simpl. split; eapply getUint_nonneg; eassumption.
Qed.

Lemma readPointerFromPayload_in_range (bytes : list byte) (off : Z) :
  0 <= off -> off + 8 <= blen bytes ->
  exists p, readPointerFromPayload bytes off = Ok p.
Proof.
  intros H0 H8. unfold readPointerFromPayload.
  destruct (Z.ltb_spec (blen bytes) (off + 8)); [lia|].
  assert (blen (take 8 (drop (Z.to_nat off) bytes)) = 8) as Hlen.
  { unfold blen in *. rewrite length_take, length_drop. lia. }
  unfold getUint32, getUint. rewrite Hlen. simpl. eexists. reflexivity.
Qed.

Lemma fieldPointer_nonneg (payload : list byte) (base : Z) (f : field) (p : StringPointer) :
  fieldPointer payload base f = Ok p -> 0 <= ptr_offset p /\ 0 <= ptr_length p.
Proof. apply readPointerFromPayload_nonneg. Qed.

(** [parseRecord] in terms of the pointers of its four fields. *)
Lemma parseRecord_fields (h : Host) (payload : list byte) (base : Z)
    (pn pc ps pb : StringPointer) :
  fieldPointer payload base NameField = Ok pn ->
  fieldPointer payload base ContentsField = Ok pc ->
  fieldPointer payload base SourcemapField = Ok ps ->
  fieldPointer payload base BytecodeField = Ok pb ->
  parseRecord h payload base
  = (name ← decodeUtf8 h payload pn;
     body ← slicePointer payload pc;
     sm ← sliceOptional payload ps;
     bc ← sliceOptional payload pb;
     Ok (mkModule name body sm bc
           (default 0 (byteAt payload (base + 32)))
           (default 5 (byteAt payload (base + 33)))
           (default 0 (byteAt payload (base + 34)))
           (default 0 (byteAt payload (base + 35))))).
Proof.
  unfold fieldPointer, fieldOffset, parseRecord. rewrite Z.add_0_r.
  intros -> -> -> ->. reflexivity.
Qed.

(** A record that parses has its four pointers read. *)
Lemma parseRecord_pointers (h : Host) (payload : list byte) (base : Z) (m : ModuleRecord) :
  parseRecord h payload base = Ok m ->
  exists pn pc ps pb,
    fieldPointer payload base NameField = Ok pn
    /\ fieldPointer payload base ContentsField = Ok pc
    /\ fieldPointer payload base SourcemapField = Ok ps
    /\ fieldPointer payload base BytecodeField = Ok pb.
Proof.
  unfold fieldPointer, fieldOffset, parseRecord. rewrite Z.add_0_r. unfold_bind.
  destruct (readPointerFromPayload payload base) as [pn|]; [|discriminate].
  destruct (readPointerFromPayload payload (base + 8)) as [pc|]; [|discriminate].
  destruct (readPointerFromPayload payload (base + 16)) as [ps|]; [|discriminate].
  destruct (readPointerFromPayload payload (base + 24)) as [pb|]; [|discriminate].
  intros _. exists pn, pc, ps, pb. repeat split; reflexivity.
Qed.

(** What a parsed record holds, field by field. *)
Lemma parseRecord_contents (h : Host) (payload : list byte) (base : Z)
    (m : ModuleRecord) (pc ps pb : StringPointer) :
  parseRecord h payload base = Ok m ->
  fieldPointer payload base ContentsField = Ok pc ->
  fieldPointer payload base SourcemapField = Ok ps ->
  fieldPointer payload base BytecodeField = Ok pb ->
  slicePointer payload pc = Ok (contents m)
  /\ sliceOptional payload ps = Ok (sourcemap m)
  /\ sliceOptional payload pb = Ok (bytecode m).
Proof.
  intros Hm Hc Hs Hb.
  destruct (parseRecord_pointers _ _ _ _ Hm) as (pn & pc' & ps' & pb' & Hn & Hc' & Hs' & Hb').
  rewrite Hc in Hc'. rewrite Hs in Hs'. rewrite Hb in Hb'.
  injection Hc' as <-. injection Hs' as <-. injection Hb' as <-.
  rewrite (parseRecord_fields h _ _ _ _ _ _ Hn Hc Hs Hb) in Hm. unfold_bind.
  destruct (decodeUtf8 h payload pn); [|discriminate].
  destruct (slicePointer payload pc); [|discriminate].
  destruct (sliceOptional payload ps); [|discriminate].
  destruct (sliceOptional payload pb); [|discriminate].
  injection Hm as <-. simpl. repeat split; reflexivity.
Qed.

(** ** Strings *)


Lemma length_append (a b : string) :
  String.length (a +:+ b) = (String.length a + String.length b)%nat.
Proof.
  induction a as [|x a IH]; simpl; [reflexivity|]. now rewrite IH.
Qed.


(** ** One iteration of the writer *)

Lemma writeModule_inside (h : Host) (ro : string) (st : WriterState)
    (index : nat) (m : ModuleRecord) :
  let rel := (chooseRelativePath h m index (usedPaths st)).1 in
  let target := path_resolve h [ro; rel] in
  escapesOutput h ro target = false ->
  writeModule h ro st index m
  = (mkState (metadata st ++ [entryOf index m rel])
             (chooseRelativePath h m index (usedPaths st)).2
             (fs st ++ moduleWrites h target m), None).
Proof.
  unfold writeModule. destruct (chooseRelativePath _ _ _ _) as [rel used'].
  simpl. intros ->. reflexivity.
Qed.

Lemma writeModule_escapes (h : Host) (ro : string) (st : WriterState)
    (index : nat) (m : ModuleRecord) :
  let rel := (chooseRelativePath h m index (usedPaths st)).1 in
  let target := path_resolve h [ro; rel] in
  escapesOutput h ro target = true ->
  writeModule h ro st index m
  = (mkState (metadata st) (chooseRelativePath h m index (usedPaths st)).2 (fs st),
     Some (PathEscapes target)).
Proof.
  unfold writeModule. destruct (chooseRelativePath _ _ _ _) as [rel used'].
  simpl. intros ->. reflexivity.
Qed.

Lemma escapesOutput_insideOutput (h : Host) (ro target : string) :
  escapesOutput h ro target = negb (insideOutput h ro target).
Proof.
  unfold escapesOutput, insideOutput. now rewrite negb_orb.
Qed.


(** ** Zero-length pointers *)

(** C9. For a pointer of length 0, [slicePointer] returns the empty
    buffer and [decodeUtf8] the empty string, whatever the offset and
    whatever the buffer: the return on [ptr.length === 0] comes before the
    bounds check. *)
Theorem zero_length_pointer_never_out_of_range (h : Host) (bytes : list byte) (off : Z) :
  slicePointer bytes (mkPtr off 0) = Ok []
  /\ decodeUtf8 h bytes (mkPtr off 0) = Ok "".
Proof. split; reflexivity. Qed.



(** ** Optional artifacts *)




(** ** The record loop *)

Lemma parseRecord_sliceable (h : Host) (payload : list byte) (base : Z) :
  fieldSliceable payload base NameField = true ->
  fieldSliceable payload base ContentsField = true ->
  fieldSliceable payload base SourcemapField = true ->
  fieldSliceable payload base BytecodeField = true ->
  exists m, parseRecord h payload base = Ok m.
Proof.
  unfold fieldSliceable.
  destruct (fieldPointer payload base NameField) as [pn|] eqn:Hn; [|discriminate].
  destruct (fieldPointer payload base ContentsField) as [pc|] eqn:Hc; [|discriminate].
  destruct (fieldPointer payload base SourcemapField) as [ps|] eqn:Hs; [|discriminate].
  destruct (fieldPointer payload base BytecodeField) as [pb|] eqn:Hb; [|discriminate].
  intros Sn Sc Ss Sb.
  rewrite (parseRecord_fields h _ _ _ _ _ _ Hn Hc Hs Hb).
  destruct (decodeUtf8_sliceable h _ _ Sn) as [name ->].
  rewrite (slicePointer_sliceable _ _ Sc).
  rewrite (sliceOptional_sliceable _ _ (proj2 (fieldPointer_nonneg _ _ _ _ Hs)) Ss).
  rewrite (sliceOptional_sliceable _ _ (proj2 (fieldPointer_nonneg _ _ _ _ Hb)) Sb).
  eexists. reflexivity.
Qed.

(** The loop returns one module per record when every pointer of every
    record is accepted. *)
Lemma parseRecords_sliceable (h : Host) (payload : list byte) (off size : Z) (n : nat) :
  forall i : Z,
    recordsSliceable payload off size n i = true ->
    exists ms, parseRecords h payload off size n i = Ok ms /\ length ms = n.
Proof.
  induction n as [|n IH]; intros i; simpl.
  - intros _. exists []. split; reflexivity.
  - rewrite !andb_true_iff. intros [[[[Sn Sc] Ss] Sb] Hrest].
    destruct (parseRecord_sliceable h _ _ Sn Sc Ss Sb) as [m ->].
    destruct (IH _ Hrest) as (ms & -> & Hlen).
    exists (m :: ms). split; [reflexivity|]. simpl. now rewrite Hlen.
Qed.

Lemma parseRecords_length (h : Host) (payload : list byte) (off size : Z) (n : nat) :
  forall (i : Z) (ms : list ModuleRecord),
    parseRecords h payload off size n i = Ok ms -> length ms = n.
Proof.
  induction n as [|n IH]; intros i ms; simpl.
  - intros [= <-]. reflexivity.
  - unfold_bind. destruct (parseRecord _ _ _) as [m|]; [|discriminate].
    destruct (parseRecords _ _ _ _ _ _) as [rest|] eqn:Hrest; [|discriminate].
    intros [= <-]. simpl. f_equal. eapply IH. eassumption.
Qed.

Lemma readOffsetTable_nonneg (blob : list byte) (t : OffsetTable) :
  readOffsetTable blob = Ok t -> 0 <= byteCount t.
Proof.
  unfold readOffsetTable. unfold_bind.
  destruct (blen blob <? _); [discriminate|].
  destruct (_ =? -1); [discriminate|].
  destruct (_ <? 0); [discriminate|].
  destruct (getBigUint64 _ _) as [n|] eqn:Hn; [|discriminate].
  destruct (MAX_SAFE_INTEGER <? _); [discriminate|].
  destruct (readPointer _ _); [|discriminate].
  destruct (getUint32 _ _); [|discriminate].
  destruct (readPointer _ _); [|discriminate].
  intros [= <-]. simpl. eapply getUint_nonneg. exact Hn.
Qed.

(** Past the two range checks, [parseTable] is the choice of the record
    size followed by the loop. *)
Lemma parseTable_in_range (h : Host) (blob : list byte) (t : OffsetTable) :
  0 <= byteCount t <= blen blob ->
  modulesEnd t <= byteCount t ->
  parseTable h blob t
  = (recordSize ← chooseRecordSize (ptr_length (modulesPointer t));
     parseWith h (subarray blob 0 (byteCount t)) t recordSize).
Proof.
  intros Hcount Hend. unfold parseTable.
  destruct (Z.ltb_spec (blen blob) (byteCount t)); [lia|].
  rewrite subarray_blen by lia.
  destruct (Z.ltb_spec (byteCount t - 0) (modulesEnd t)); [lia|].
  reflexivity.
Qed.

Lemma parseWith_count (h : Host) (payload : list byte) (t : OffsetTable)
    (recordSize : Z) (parsed : ParsedStandalone) :
  parseWith h payload t recordSize = Ok parsed ->
  length (modules parsed)
  = Z.to_nat (ptr_length (modulesPointer t) / recordSize).
Proof.
  unfold parseWith. unfold_bind.
  destruct (parseRecords _ _ _ _ _ _) as [ms|] eqn:Hms; [|discriminate].
  destruct (decodeUtf8 _ _ _); [|discriminate].
  intros [= <-]. simpl. eapply parseRecords_length. exact Hms.
Qed.

(** C6. Once the offset table is decoded and the module table lies in
    the truncated payload: when [modulesPointer.length] is a multiple of
    40 the parser runs the record loop with stride 40; when it is not,
    but is a multiple of 36, it runs the loop with stride 36, and parsing
    succeeds with [length / 36] modules provided the pointers of the
    records and the argument pointer are in range; when it is a multiple
    of neither, parsing fails with the unknown-layout error.  Whenever
    parsing succeeds, the number of modules is the length divided by the
    stride used. *)
Theorem record_stride_selection (h : Host) (blob : list byte) (t : OffsetTable) :
  readOffsetTable blob = Ok t ->
  byteCount t <= blen blob ->
  modulesEnd t <= byteCount t ->
  let payload := subarray blob 0 (byteCount t) in
  let len := ptr_length (modulesPointer t) in
  (len mod 40 = 0 -> parseStandalone h blob = parseWith h payload t 40)
  /\ (len mod 40 <> 0 -> len mod 36 = 0 ->
      parseStandalone h blob = parseWith h payload t 36
      /\ (recordsSliceable payload (ptr_offset (modulesPointer t)) 36
            (Z.to_nat (len / 36)) 0 = true ->
          sliceable payload (argvPointer t) = true ->
          exists parsed,
            parseStandalone h blob = Ok parsed
            /\ length (modules parsed) = Z.to_nat (len / 36)))
  /\ (len mod 40 <> 0 -> len mod 36 <> 0 ->
      parseStandalone h blob = Err UnknownRecordSize)
  /\ (forall parsed,
         parseStandalone h blob = Ok parsed ->
         length (modules parsed)
         = Z.to_nat (len / (if len mod 40 =? 0 then 40 else 36))).
Proof.
  intros Ht Hcount Hend payload len.
  pose proof (readOffsetTable_nonneg _ _ Ht) as H0.
  rewrite parseStandalone_phases, Ht. simpl.
  rewrite parseTable_in_range by lia.
  fold payload. fold len. unfold chooseRecordSize, MODULE_RECORD_SIZE.
  split; [|split; [|split]].
  - intros ->. reflexivity.
  - intros Hn40 H36.
    destruct (Z.eqb_spec (len mod 40) 0); [contradiction|].
    simpl. rewrite H36. simpl. split; [reflexivity|].
    intros Hrec Hargv. unfold parseWith. fold len.
    destruct (parseRecords_sliceable h _ _ _ _ _ Hrec) as (ms & -> & Hlen).
    destruct (decodeUtf8_sliceable h _ _ Hargv) as [argv ->].
    eexists. split; [reflexivity|]. exact Hlen.
  - intros Hn40 Hn36.
    destruct (Z.eqb_spec (len mod 40) 0); [contradiction|].
    destruct (Z.eqb_spec (len mod 36) 0); [contradiction|]. reflexivity.
  - intros parsed.
    destruct (len mod 40 =? 0); simpl;
      [|destruct (len mod 36 =? 0); simpl; [|discriminate]];
      apply parseWith_count.
Qed.

Lemma record_stride_selection_witness :
  exists parsed,
    parseStandalone (Posix.host "/work") Fixture.legacy = Ok parsed
    /\ length (modules parsed) = 1%nat.
Proof.
  destruct (record_stride_selection (Posix.host "/work") Fixture.legacy
              (mkOffsets 44 (mkPtr 8 36) 0 (mkPtr 0 0)))
    as (_ & Hlegacy & _ & _);
    [reflexivity | vm_compute; discriminate | vm_compute; discriminate |].
  destruct Hlegacy as [_ Hok]; [vm_compute; discriminate | reflexivity |].
  apply Hok; reflexivity.
Defined.

(** ** Validation of pointers *)

(** The four pointers of a record that lies in the payload are read. *)
Lemma fieldPointer_in_payload (payload : list byte) (base : Z) (f : field) :
  0 <= base -> base + 32 <= blen payload ->
  exists ptr, fieldPointer payload base f = Ok ptr.
Proof.
  intros H0 H32. apply readPointerFromPayload_in_range; destruct f; simpl; lia.
Qed.






(** ** Container locator *)

(** The 8-byte little-endian field in the last 8 bytes of the file. *)
Lemma length_field_read (file : list byte) :
  8 <= blen file ->
  getBigUint64 file (blen file - 8) = Ok (leValue (drop (length file - 8) file)).
Proof.
  intros Hlen. unfold getBigUint64, getUint.
  destruct (Z.ltb_spec (blen file - 8) 0); [lia|].
  destruct (Z.ltb_spec (blen file) (blen file - 8 + Z.of_nat 8)); [lia|].
  simpl. do 2 f_equal.
  replace (Z.to_nat (blen file - 8)) with (length file - 8)%nat
    by (unfold blen; lia).
  apply take_ge. rewrite length_drop. unfold blen in Hlen. lia.
Qed.

Lemma extractTrailerAppendedBlob_spec (file blob : list byte) :
  let total := leValue (drop (length file - 8) file) in
  let start := blen file - 8 - total in
  extractTrailerAppendedBlob file = Some blob <->
  blen TRAILER_BYTES + OFFSETS_SIZE + 8 <= blen file
  /\ containsTrailer file
  /\ total <> 0 /\ total <= blen file /\ total <= MAX_SAFE_INTEGER
  /\ 0 <= start
  /\ blob = subarray file start (blen file - 8)
  /\ containsTrailer blob.
Proof.
  cbv zeta. unfold extractTrailerAppendedBlob.
  rewrite TRAILER_BYTES_length. unfold OFFSETS_SIZE.
  destruct (Z.ltb_spec (blen file) (16 + 32 + 8)) as [Hshort|Hlong].
  { split; [discriminate|]. intros (H & _). lia. }
  destruct (Z.eqb_spec (lastIndexOfSubarray file TRAILER_BYTES) (-1)) as [Hno|Hyes].
  { split; [discriminate|]. intros (_ & Hc & _).
    apply containsTrailer_iff in Hc. contradiction. }
  rewrite length_field_read by lia.
  set (total := leValue (drop (length file - 8) file)).
  destruct (Z.eqb_spec total 0) as [Hz|Hnz].
  { split; [discriminate|]. intros (_ & _ & H & _). contradiction. }
  simpl orb.
  destruct (Z.ltb_spec (blen file) total) as [Hover|Hfits].
  { split; [discriminate|]. intros (_ & _ & _ & H & _). lia. }
  destruct (Z.ltb_spec MAX_SAFE_INTEGER total) as [Hbig|Hsafe].
  { rewrite Z.eqb_refl. simpl. split; [discriminate|].
    intros (_ & _ & _ & _ & H & _). lia. }
  rewrite andb_false_r.
  destruct (Z.ltb_spec (blen file - 8 - total) 0) as [Hneg|Hpos].
  { split; [discriminate|]. intros (_ & _ & _ & _ & _ & H & _). lia. }
  destruct (Z.eqb_spec
              (lastIndexOfSubarray
                 (subarray file (blen file - 8 - total) (blen file - 8))
                 TRAILER_BYTES) (-1)) as [Hnone|Hsome].
  { split; [discriminate|]. intros (_ & _ & _ & _ & _ & _ & -> & Hc).
    apply containsTrailer_iff in Hc. contradiction. }
  split.
  - intros [= <-]. repeat split; try assumption; try lia.
    + now apply containsTrailer_iff.
    + now apply containsTrailer_iff.
  - intros (_ & _ & _ & _ & _ & _ & -> & _). reflexivity.
Qed.

(** C7. [extractEmbeddedData] returns the section when
    [extractBunSection] returns one, and turns to
    [extractTrailerAppendedBlob] only when it throws.  The fallback reads
    [total], the little-endian value of the last 8 bytes of the file, and
    returns a blob exactly when the file has at least 56 bytes and holds
    the trailer, [total] is not 0, is at most the file length and at most
    [MAX_SAFE_INTEGER], [start = fileLength - 8 - total] is not negative,
    and [file[start : fileLength - 8]] holds the trailer; the blob
    returned is that slice, [total] bytes long. *)
Theorem trailing_blob_fallback (h : Host) (file : list byte) :
  let total := leValue (drop (length file - 8) file) in
  let start := blen file - 8 - total in
  (forall section,
      extractBunSection h file = Ok section ->
      extractEmbeddedData h file = Ok section)
  /\ (forall e,
         extractBunSection h file = Err e ->
         extractEmbeddedData h file
         = match extractTrailerAppendedBlob file with
           | Some blob => Ok blob
           | None => Err (NoEmbeddedData e)
           end)
  /\ (forall blob,
         extractTrailerAppendedBlob file = Some blob <->
         56 <= blen file
         /\ containsTrailer file
         /\ total <> 0 /\ total <= blen file /\ total <= MAX_SAFE_INTEGER
         /\ 0 <= start
         /\ blob = take (Z.to_nat total) (drop (Z.to_nat start) file)
         /\ containsTrailer blob).
Proof.
  cbv zeta. split; [|split].
  - intros section Hs. unfold extractEmbeddedData. now rewrite Hs.
  - intros e He. unfold extractEmbeddedData. now rewrite He.
  - intros blob. pose proof (extractTrailerAppendedBlob_spec file blob) as Hspec.
    cbv zeta in Hspec. rewrite Hspec. clear Hspec.
    rewrite TRAILER_BYTES_length. unfold OFFSETS_SIZE.
    set (total := leValue (drop (length file - 8) file)).
    pose proof (leValue_nonneg (drop (length file - 8) file)) as Htot. fold total in Htot.
    split; intros (Hlen & Hc & Hnz & Hle & Hsafe & Hstart & Hblob & Hcb);
      repeat split; try assumption; try lia.
    + rewrite Hblob, subarray_in_range by lia. do 2 f_equal. lia.
    + rewrite Hblob, subarray_in_range by lia. do 2 f_equal. lia.
Qed.

Lemma trailing_blob_fallback_witness :
  extractEmbeddedData (Posix.host "/work") Fixture.appended = Ok Fixture.plain.
Proof.
  destruct (trailing_blob_fallback (Posix.host "/work") Fixture.appended)
    as (_ & Hfallback & _).
  rewrite (Hfallback NotPE); reflexivity.
Defined.

(** ** Splitting and joining *)

Lemma splitOn_not_nil (sep : ascii -> bool) (s : string) : splitOn sep s <> [].
Proof.
  induction s as [|c r IH]; simpl; [discriminate|].
  destruct (sep c); [discriminate|]. destruct (splitOn sep r); [contradiction|discriminate].
Qed.

(** No piece of a split holds a separator. *)
Lemma splitOn_pieces_no_sep (sep : ascii -> bool) (s : string) :
  Forall (fun piece => existsS sep piece = false) (splitOn sep s).
Proof.
  induction s as [|c r IH]; simpl.
  - constructor; [reflexivity|constructor].
  - destruct (sep c) eqn:Hc.
    + constructor; [reflexivity|assumption].
    + destruct (splitOn sep r) as [|piece pieces] eqn:E.
      * constructor; [simpl; now rewrite Hc|constructor].
      * inversion IH as [|? ? Hpiece Hrest]; subst.
        constructor; [simpl; now rewrite Hc|assumption].
Qed.

(** The pieces hold only code units of the string. *)
Lemma splitOn_pieces_class (sep q : ascii -> bool) (s : string) :
  existsS q s = false ->
  Forall (fun piece => existsS q piece = false) (splitOn sep s).
Proof.
  induction s as [|c r IH]; simpl.
  - intros _. constructor; [reflexivity|constructor].
  - intros Hq. apply orb_false_iff in Hq as [Hc Hr]. specialize (IH Hr).
    destruct (sep c).
    + constructor; [reflexivity|assumption].
    + destruct (splitOn sep r) as [|piece pieces] eqn:E.
      * constructor; [simpl; now rewrite Hc|constructor].
      * inversion IH as [|? ? Hpiece Hrest]; subst.
        constructor; [simpl; now rewrite Hc|assumption].
Qed.

Lemma splitOn_no_sep (sep : ascii -> bool) (s : string) :
  existsS sep s = false -> splitOn sep s = [s].
Proof.
  induction s as [|c r IH]; simpl; [reflexivity|].
  intros H. apply orb_false_iff in H as [Hc Hr].
  rewrite Hc, (IH Hr). reflexivity.
Qed.

Lemma splitOn_app (sep : ascii -> bool) (x : string) (c : ascii) (rest : string) :
  existsS sep x = false -> sep c = true ->
  splitOn sep (x +:+ String c rest) = x :: splitOn sep rest.
Proof.
  intros Hx Hc. induction x as [|a x IH]; simpl.
  - now rewrite Hc.
  - simpl in Hx. apply orb_false_iff in Hx as [Ha Hx].
    rewrite Ha, (IH Hx). reflexivity.
Qed.

(** Splitting a join gives the parts back, when no part holds a
    separator and the slash is one. *)
Lemma splitOn_concat (sep : ascii -> bool) (parts : list string) :
  sep "/"%char = true ->
  parts <> [] ->
  Forall (fun part => existsS sep part = false) parts ->
  splitOn sep (String.concat "/" parts) = parts.
Proof.
  intros Hsep. induction parts as [|x rest IH]; [congruence|].
  intros _ Hall. inversion Hall as [|? ? Hx Hrest]; subst.
  destruct rest as [|y rest'].
  - simpl. now apply splitOn_no_sep.
  - change (String.concat "/" (x :: y :: rest'))
      with (x +:+ String "/" (String.concat "/" (y :: rest'))).
    rewrite splitOn_app by assumption.
    f_equal. apply IH; [discriminate|assumption].
Qed.

Lemma filter_keptPart (parts : list string) :
  Forall (fun part => part <> "" /\ part <> "..") (List.filter keptPart parts).
Proof.
  apply List.Forall_forall. intros part Hin. apply filter_In in Hin as [_ Hkept].
  unfold keptPart in Hkept. apply andb_true_iff in Hkept as [H1 H2].
  split; intros ->; discriminate.
Qed.

(** ** The cleaned path holds no backslash *)

Lemma existsS_dropWhileS (q p : ascii -> bool) (s : string) :
  existsS q s = false -> existsS q (dropWhileS p s) = false.
Proof.
  induction s as [|c r IH]; simpl; [reflexivity|].
  intros H. destruct (p c); [|exact H].
  apply orb_false_iff in H as [_ Hr]. auto.
Qed.

Lemma existsS_mapS_backslash (s : string) :
  existsS isBackslash
    (mapS (fun c => if Ascii.eqb c "\" then "/"%char else c) s) = false.
Proof.
  induction s as [|c r IH]; simpl; [reflexivity|].
  rewrite IH, orb_false_r. unfold isBackslash.
  destruct (Ascii.eqb c "\") eqn:E; [reflexivity|exact E].
Qed.

Lemma cleanedPath_no_backslash (original : string) :
  existsS isBackslash (cleanedPath original) = false.
Proof.
  unfold cleanedPath. apply existsS_dropWhileS. apply existsS_mapS_backslash.
Qed.

Lemma existsS_or (p q : ascii -> bool) (s : string) :
  existsS (fun c => p c || q c) s = existsS p s || existsS q s.
Proof.
  induction s as [|c r IH]; simpl; [reflexivity|].
  rewrite IH. destruct (p c), (q c), (existsS p r), (existsS q r); reflexivity.
Qed.

(** ** Path sanitization *)

Lemma Forall_filter_of (A : Type) (P : A -> Prop) (f : A -> bool) (l : list A) :
  Forall P l -> Forall P (List.filter f l).
Proof.
  rewrite !List.Forall_forall. intros H x Hin.
  apply filter_In in Hin as [Hin _]. auto.
Qed.

(** The segments of a sanitized path: not empty, not [..], and free of
    both separators. *)
Lemma sanitize_parts (original : string) :
  Forall (fun part => part <> "" /\ part <> ".."
                      /\ existsS isSlash part = false
                      /\ existsS isBackslash part = false)
         (List.filter keptPart (splitOn isSlash (cleanedPath original))).
Proof.
  pose proof (filter_keptPart (splitOn isSlash (cleanedPath original))) as Hkept.
  pose proof (Forall_filter_of _ _ keptPart _
                (splitOn_pieces_no_sep isSlash (cleanedPath original))) as Hslash.
  pose proof (Forall_filter_of _ _ keptPart _
                (splitOn_pieces_class isSlash isBackslash _
                   (cleanedPath_no_backslash original))) as Hback.
  rewrite List.Forall_forall in *. intros part Hin.
  destruct (Hkept part Hin). repeat split; auto.
Qed.

(** C3. The sanitized path is the join, with [/], of the pieces of the
    cleaned virtual path between slashes (backslashes count: they were
    turned into slashes) that are neither empty nor [..]; no such piece
    holds a separator, so splitting the sanitized path gives these pieces
    back and none of its segments is empty or [..].  The virtual path
    [../../etc/passwd] becomes [etc/passwd]. *)
Theorem sanitize_drops_empty_and_dotdot (original : string) :
  let kept := List.filter keptPart (splitOn isSlash (cleanedPath original)) in
  sanitizeModulePath original = String.concat "/" kept
  /\ Forall (fun part => part <> "" /\ part <> ".."
                         /\ existsS isSlash part = false
                         /\ existsS isBackslash part = false) kept
  /\ (kept = [] -> sanitizeModulePath original = "")
  /\ (kept <> [] -> splitOn isSlash (sanitizeModulePath original) = kept)
  /\ sanitizeModulePath "../../etc/passwd" = "etc/passwd".
Proof.
  cbv zeta. split; [reflexivity|]. split; [apply sanitize_parts|].
  split; [|split].
  - unfold sanitizeModulePath. intros ->. reflexivity.
  - intros Hne. unfold sanitizeModulePath.
    apply splitOn_concat; [reflexivity|assumption|].
    eapply List.Forall_impl; [|apply sanitize_parts]. simpl. tauto.
  - reflexivity.
Qed.

(** ** Collision resolution *)

Lemma chooseRelativePath_fresh (h : Host) (m : ModuleRecord) (index : nat)
    (used : gmap string nat) :
  used !! keyOf h m index = None ->
  chooseRelativePath h m index used
  = (finalPathOf h m index, <[keyOf h m index := 1%nat]> used).
Proof.
  unfold chooseRelativePath, keyOf. cbv zeta. intros ->. reflexivity.
Qed.

Lemma chooseRelativePath_repeat (h : Host) (m : ModuleRecord) (index : nat)
    (used : gmap string nat) (n : nat) :
  used !! keyOf h m index = Some n ->
  chooseRelativePath h m index used
  = (withSuffix h (finalPathOf h m index) (n + 1),
     <[keyOf h m index := (n + 1)%nat]> used).
Proof.
  unfold chooseRelativePath, keyOf, withSuffix. cbv zeta. intros ->. reflexivity.
Qed.






(** ** The module loop of the writer *)


Lemma choosePaths_length (h : Host) (ms : list ModuleRecord) :
  forall (index : nat) (used : gmap string nat),
    length (choosePaths h ms index used) = length ms.
Proof.
  induction ms as [|m rest IH]; intros index used; [reflexivity|].
  simpl. destruct (chooseRelativePath h m index used) as [p used'].
  simpl. now rewrite IH.
Qed.

#[local] Arguments moduleWrites : simpl never.
#[local] Arguments entryOf : simpl never.

(** What the loop has done when it stops: it has gone through the first
    [k] modules, whose paths all passed the check, and either [k] is the
    number of modules or the path of module [k] failed the check. *)
Lemma writeModules_run (h : Host) (ro : string) (ms : list ModuleRecord) :
  forall (st : WriterState) (index : nat) (st' : WriterState) (oe : option error),
    writeModules h ro st index ms = (st', oe) ->
    exists k : nat,
      metadata st' = metadata st ++ planEntries h (take k ms) index (usedPaths st)
      /\ fs st' = fs st ++ planWrites h ro (take k ms) index (usedPaths st)
      /\ Forall (fun rel => insideOutput h ro (path_resolve h [ro; rel]) = true)
                (take k (choosePaths h ms index (usedPaths st)))
      /\ match oe with
         | None => k = length ms
         | Some e =>
           exists rel,
             choosePaths h ms index (usedPaths st) !! k = Some rel
             /\ insideOutput h ro (path_resolve h [ro; rel]) = false
             /\ e = PathEscapes (path_resolve h [ro; rel])
         end.
Proof.
  induction ms as [|m rest IH]; intros st index st' oe Hrun.
  - injection Hrun as <- <-. exists 0%nat. simpl. rewrite !app_nil_r.
    repeat split; constructor.
  - simpl in Hrun.
    destruct (escapesOutput h ro
                (path_resolve h [ro; (chooseRelativePath h m index (usedPaths st)).1]))
      eqn:Hesc.
    + rewrite (writeModule_escapes h ro st index m Hesc) in Hrun.
      injection Hrun as <- <-. exists 0%nat. simpl. rewrite !app_nil_r.
      repeat split; [constructor|].
      destruct (chooseRelativePath h m index (usedPaths st)) as [p used'].
      exists p. simpl in *. rewrite escapesOutput_insideOutput in Hesc.
      apply negb_true_iff in Hesc. repeat split; assumption.
    + rewrite (writeModule_inside h ro st index m Hesc) in Hrun.
      apply IH in Hrun as (k & Hmeta & Hfs & Hin & Hoe). simpl in Hmeta, Hfs, Hin, Hoe.
      exists (S k). simpl.
      destruct (chooseRelativePath h m index (usedPaths st)) as [p used'].
      simpl in *. rewrite escapesOutput_insideOutput in Hesc.
      apply negb_false_iff in Hesc.
      rewrite Hmeta, Hfs.
      rewrite <- (app_assoc (metadata st)), <- (app_assoc (fs st)).
      split; [reflexivity|]. split; [reflexivity|]. split.
      * constructor; assumption.
      * destruct oe; [assumption|]. now rewrite Hoe.
Qed.


(** ** The output directory *)


(** When the run succeeds, the manifest lists the modules in record
    order: entry [i] has index [i], the original path of record [i] and
    the path chosen for it. *)
Lemma planEntries_lookup (h : Host) (ms : list ModuleRecord) :
  forall (index : nat) (used : gmap string nat) (i : nat),
    planEntries h ms index used !! i
    = match ms !! i, choosePaths h ms index used !! i with
      | Some m, Some rel => Some (entryOf (index + i) m rel)
      | _, _ => None
      end.
Proof.
  induction ms as [|m rest IH]; intros index used i; [reflexivity|].
  cbn [planEntries choosePaths].
  destruct (chooseRelativePath h m index used) as [p used'].
  destruct i as [|i]; simpl.
  - now rewrite Nat.add_0_r.
  - rewrite IH. replace (S index + i)%nat with (index + S i)%nat by lia.
    reflexivity.
Qed.

Lemma planEntries_length (h : Host) (ms : list ModuleRecord) :
  forall (index : nat) (used : gmap string nat),
    length (planEntries h ms index used) = length ms.
Proof.
  induction ms as [|m rest IH]; intros index used; [reflexivity|].
  cbn [planEntries]. destruct (chooseRelativePath h m index used) as [p used'].
  simpl. now rewrite IH.
Qed.

Lemma writeOutputs_manifest (h : Host) (parsed : ParsedStandalone)
    (outputDir : string) (ops : list FsOp) (manifest : Manifest) :
  writeOutputs h parsed outputDir = (ops, Ok manifest) ->
  mf_modules manifest = planEntries h (modules parsed) 0 ∅
  /\ length (mf_modules manifest) = length (modules parsed)
  /\ forall i m,
      modules parsed !! i = Some m ->
      exists rel,
        choosePaths h (modules parsed) 0 ∅ !! i = Some rel
        /\ mf_modules manifest !! i = Some (entryOf i m rel).
Proof.
  unfold writeOutputs.
  destruct (writeModules h (path_resolve h [outputDir])
              (mkState [] ∅ [Mkdir (path_resolve h [outputDir])]) 0 (modules parsed))
    as [st oe] eqn:Hrun.
  apply writeModules_run in Hrun as (k & Hmeta & _ & _ & Hoe).
  destruct oe as [e|]; [discriminate|]. intros [= <- <-]. simpl in *.
  subst k. rewrite firstn_all in Hmeta. rewrite Hmeta.
  split; [reflexivity|]. split; [apply planEntries_length|].
  intros i m Hm. rewrite planEntries_lookup, Hm.
  destruct (choosePaths h (modules parsed) 0 ∅ !! i) as [rel|] eqn:Hrel.
  - exists rel. split; reflexivity.
  - apply lookup_ge_None_1 in Hrel. rewrite choosePaths_length in Hrel.
    apply lookup_lt_Some in Hm. lia.
Qed.

(** ** One file per record *)

(** C4. Whenever the writer returns, the manifest lists one entry per
    record, in record order, entry [i] with index [i], the original path
    of record [i] and the path chosen for it.  The chosen paths need not
    be distinct, though.  On a bundle with the records [a.js], [a.js],
    [a.2.js] the second and the third record get the same relative path
    [a.2.js] (the suffixed path given to the second is not entered in the
    table), and both content files are written to [/work/out/a.2.js]:
    three records, two content files. *)
Theorem suffixed_path_collides_with_later_record :
  (forall (h : Host) (parsed : ParsedStandalone) (outputDir : string)
          (ops : list FsOp) (manifest : Manifest),
      writeOutputs h parsed outputDir = (ops, Ok manifest) ->
      length (mf_modules manifest) = length (modules parsed)
      /\ forall i m,
          modules parsed !! i = Some m ->
          exists rel,
            choosePaths h (modules parsed) 0 ∅ !! i = Some rel
            /\ mf_modules manifest !! i = Some (entryOf i m rel))
  /\ let h := Posix.host "/work" in
     exists ops manifest,
       parseStandalone h Fixture.threeRecords = Ok Fixture.threeModules
       /\ main h (Fixture.appendedTo Fixture.threeRecords) "out" = (ops, Ok manifest)
       /\ writeOutputs h Fixture.threeModules "out" = (ops, Ok manifest)
       /\ map md_index (mf_modules manifest) = [0; 1; 2]%nat
       /\ map md_relativePath (mf_modules manifest) = ["a.js"; "a.2.js"; "a.2.js"]
       /\ choosePaths h (modules Fixture.threeModules) 0 ∅
          = ["a.js"; "a.2.js"; "a.2.js"]
       /\ ~ List.NoDup (choosePaths h (modules Fixture.threeModules) 0 ∅)
       /\ ops = [ Mkdir "/work/out";
                  Mkdir "/work/out";
                  WriteFile "/work/out/a.js" (Bytes (list_byte_of_string "1"));
                  Mkdir "/work/out";
                  WriteFile "/work/out/a.2.js" (Bytes (list_byte_of_string "2"));
                  Mkdir "/work/out";
                  WriteFile "/work/out/a.2.js" (Bytes (list_byte_of_string "3"));
                  WriteFile "/work/out/metadata.json" (Json manifest) ].
Proof.
  split.
  { intros h parsed outputDir ops manifest Hrun.
    destruct (writeOutputs_manifest _ _ _ _ _ Hrun) as (_ & Hlen & Hentries).
    split; assumption. }
  cbv zeta. eexists _, _. split; [vm_compute; reflexivity|].
  split; [vm_compute; reflexivity|]. split; [vm_compute; reflexivity|].
  split; [reflexivity|]. split; [reflexivity|].
  assert (choosePaths (Posix.host "/work") (modules Fixture.threeModules) 0 ∅
          = ["a.js"; "a.2.js"; "a.2.js"]) as Hpaths by (vm_compute; reflexivity).
  split; [exact Hpaths|]. split; [|reflexivity].
  rewrite Hpaths. intros Hnd.
  inversion Hnd as [|? ? _ Hnd']; subst.
  inversion Hnd' as [|? ? Hnotin _]; subst.
  apply Hnotin. left. reflexivity.
Qed.

(** ** More on strings *)

Lemma append_cons (x : ascii) (a b : string) :
  String x a +:+ b = String x (a +:+ b).
Proof. reflexivity. Qed.

Lemma append_nil_l (b : string) : "" +:+ b = b.
Proof. reflexivity. Qed.

Lemma append_assoc (a b c : string) : (a +:+ b) +:+ c = a +:+ (b +:+ c).
Proof.
  induction a as [|x a IH]; [reflexivity|]. rewrite !append_cons. now rewrite IH.
Qed.

Lemma append_nil_r (a : string) : a +:+ "" = a.
Proof.
  induction a as [|x a IH]; [reflexivity|]. rewrite append_cons. now rewrite IH.
Qed.

Lemma existsS_append (p : ascii -> bool) (a b : string) :
  existsS p (a +:+ b) = existsS p a || existsS p b.
Proof.
  induction a as [|x a IH]; [reflexivity|].
  rewrite append_cons. simpl. now rewrite IH, orb_assoc.
Qed.

Lemma prefix_append (a b : string) : String.prefix a (a +:+ b) = true.
Proof.
  induction a as [|x a IH]; [now destruct b|].
  rewrite append_cons. simpl.
  destruct (ascii_dec x x); [assumption|contradiction].
Qed.

Lemma substring_0_append (a b : string) :
  substring 0 (String.length a) (a +:+ b) = a.
Proof.
  induction a as [|x a IH]; [now destruct b|].
  rewrite append_cons. simpl. now rewrite IH.
Qed.

Lemma substring_skip (a b : string) (n : nat) :
  substring (String.length a) n (a +:+ b) = substring 0 n b.
Proof.
  induction a as [|x a IH]; [reflexivity|]. rewrite append_cons. simpl. assumption.
Qed.

Lemma substring_0_all (b : string) : substring 0 (String.length b) b = b.
Proof.
  rewrite <- (append_nil_r b) at 2. apply substring_0_append.
Qed.

Lemma snoc_of_nonempty (s : string) :
  s <> "" -> exists q c, s = q +:+ String c "".
Proof.
  induction s as [|x s IH]; [congruence|]. intros _.
  destruct s as [|y s'].
  - exists "", x. reflexivity.
  - destruct IH as (q & c & Hq); [discriminate|].
    exists (String x q), c. rewrite append_cons. now rewrite Hq.
Qed.

Lemma endsWith_snoc (q : string) (c : ascii) :
  endsWith (q +:+ String c "") "/" = isSlash c.
Proof.
  unfold endsWith. rewrite length_append. simpl String.length.
  replace (String.length q + 1 - 1)%nat with (String.length q) by lia.
  rewrite substring_skip.
  destruct (Nat.leb_spec 1 (String.length q + 1)); [|lia].
  simpl. unfold isSlash.
  destruct (Ascii.eqb c "/"); reflexivity.
Qed.


(** Appending text without separators extends the last piece. *)
Lemma splitOn_snoc_nosep (sep : ascii -> bool) (b : string) :
  exists init last,
    splitOn sep b = init ++ [last]
    /\ forall t, existsS sep t = false ->
                 splitOn sep (b +:+ t) = init ++ [last +:+ t].
Proof.
  induction b as [|x b (init & last & Hb & Hext)].
  - exists [], "". split; [reflexivity|]. intros t Ht.
    rewrite !append_nil_l. now apply splitOn_no_sep.
  - simpl. destruct (sep x) eqn:Hx.
    + exists ("" :: init), last. split; [now rewrite Hb|].
      intros t Ht. rewrite ?append_cons. simpl. now rewrite ?Hx, (Hext t Ht).
    + rewrite Hb. destruct init as [|i0 init'].
      * exists [], (String x last). split; [reflexivity|].
        intros t Ht. rewrite ?append_cons. simpl. now rewrite ?Hx, (Hext t Ht).
      * exists (String x i0 :: init'), last. split; [reflexivity|].
        intros t Ht. rewrite ?append_cons. simpl. now rewrite ?Hx, (Hext t Ht).
Qed.

Lemma concat_cons_cons (x y : string) (l : list string) :
  String.concat "/" (x :: y :: l) = x +:+ String "/" (String.concat "/" (y :: l)).
Proof. reflexivity. Qed.

Lemma concat_cons_first (c : ascii) (x : string) (l : list string) :
  String.concat "/" (String c x :: l) = String c (String.concat "/" (x :: l)).
Proof. destruct l; reflexivity. Qed.

(** Joining the pieces of a split gives the string back. *)
Lemma concat_splitOn (s : string) : String.concat "/" (splitOn isSlash s) = s.
Proof.
  induction s as [|c r IH]; [reflexivity|]. simpl.
  destruct (isSlash c) eqn:Hc.
  - unfold isSlash in Hc. apply Ascii.eqb_eq in Hc. subst c.
    destruct (splitOn isSlash r) as [|piece pieces] eqn:E;
      [contradiction (splitOn_not_nil isSlash r)|].
    rewrite concat_cons_cons, append_nil_l. now rewrite IH.
  - destruct (splitOn isSlash r) as [|piece pieces] eqn:E;
      [contradiction (splitOn_not_nil isSlash r)|].
    rewrite concat_cons_first. now rewrite IH.
Qed.

Lemma concat_app (l1 l2 : list string) :
  l1 <> [] -> l2 <> [] ->
  String.concat "/" (l1 ++ l2)
  = String.concat "/" l1 +:+ String "/" (String.concat "/" l2).
Proof.
  intros H1 H2. induction l1 as [|x l1 IH]; [congruence|].
  destruct l1 as [|y l1'].
  - destruct l2 as [|z l2']; [congruence|]. reflexivity.
  - change ((x :: y :: l1') ++ l2) with (x :: y :: (l1' ++ l2)).
    rewrite !concat_cons_cons.
    change (y :: l1' ++ l2) with ((y :: l1') ++ l2).
    rewrite IH by discriminate. rewrite append_assoc. reflexivity.
Qed.

(** ** The shape of the chosen path *)

Lemma string_of_uint_class (q : ascii -> bool) (d : Decimal.uint) :
  (forall c, isDigit c = true -> q c = false) ->
  existsS q (NilEmpty.string_of_uint d) = false.
Proof.
  intros Hq. induction d; simpl; try reflexivity;
    rewrite IHd, orb_false_r; apply Hq; reflexivity.
Qed.

Lemma natToString_class (q : ascii -> bool) (n : nat) :
  (forall c, isDigit c = true -> q c = false) ->
  existsS q (natToString n) = false.
Proof.
  intros Hq. unfold natToString, NilZero.string_of_uint.
  destruct (Nat.to_uint n) eqn:E;
    try (rewrite <- E; now apply string_of_uint_class).
  simpl. rewrite orb_false_r. apply Hq. reflexivity.
Qed.

Lemma natToString_has_digit (n : nat) : existsS isDigit (natToString n) = true.
Proof.
  unfold natToString, NilZero.string_of_uint.
  destruct (Nat.to_uint n); reflexivity.
Qed.

Lemma zeros_class (q : ascii -> bool) (n : nat) :
  q "0"%char = false -> existsS q (zeros n) = false.
Proof.
  intros Hq. induction n as [|n IH]; simpl; [reflexivity|]. now rewrite Hq, IH.
Qed.

Lemma digit_not_separator (c : ascii) :
  isDigit c = true -> isSlashOrBackslash c = false.
Proof.
  unfold isDigit, isSlashOrBackslash.
  destruct (Ascii.eqb_spec c "/") as [->|_];
    [intros H; vm_compute in H; discriminate|].
  destruct (Ascii.eqb_spec c "\") as [->|_];
    [intros H; vm_compute in H; discriminate|].
  reflexivity.
Qed.

Lemma extension_no_separator (z : Z) (e : string) :
  loaderDefaultExtensions z = Some e -> existsS isSlashOrBackslash e = false.
Proof.
  unfold loaderDefaultExtensions. intros H.
  repeat match type of H with
         | context [match ?x with _ => _ end] => destruct x; try discriminate
         end;
    injection H as <-; reflexivity.
Qed.

Lemma moduleNumber_no_separator (index : nat) :
  existsS isSlashOrBackslash (moduleNumber index) = false.
Proof.
  unfold moduleNumber, padStart0. rewrite !existsS_append.
  rewrite zeros_class by reflexivity.
  rewrite natToString_class by apply digit_not_separator. reflexivity.
Qed.

Lemma fallbackName_no_separator (m : ModuleRecord) (index : nat) :
  existsS isSlashOrBackslash (fallbackName m index) = false.
Proof.
  unfold fallbackName. rewrite existsS_append, moduleNumber_no_separator.
  destruct (loaderDefaultExtensions (loader m)) as [e|] eqn:E; simpl.
  - now apply extension_no_separator in E.
  - reflexivity.
Qed.

Lemma no_separator_no_slash (s : string) :
  existsS isSlashOrBackslash s = false -> existsS isSlash s = false.
Proof.
  induction s as [|c r IH]; simpl; [reflexivity|].
  intros H. apply orb_false_iff in H as [Hc Hr].
  unfold isSlashOrBackslash in Hc. apply orb_false_iff in Hc as [Hc _].
  rewrite (IH Hr), orb_false_r. exact Hc.
Qed.

(** A name that begins with [m] and holds no separator is a path of one
    plain segment. *)
Lemma plainPath_single (s : string) :
  existsS isSlash s = false -> plainPath (String "m" s).
Proof.
  intros Hs. exists [String "m" s]. split; [discriminate|].
  split; [|reflexivity]. constructor; [|constructor].
  repeat split; [discriminate|discriminate|]. simpl. exact Hs.
Qed.

Lemma fallbackName_plain (m : ModuleRecord) (index : nat) :
  plainPath (fallbackName m index).
Proof.
  pose proof (no_separator_no_slash _ (fallbackName_no_separator m index)) as H.
  change (fallbackName m index)
    with (String "m" ("odule-" +:+ padStart0 4 (natToString index)
                        +:+ default ".bin" (loaderDefaultExtensions (loader m)))) in *.
  apply plainPath_single. simpl in H. exact H.
Qed.

Lemma sanitize_shape (original : string) :
  sanitizeModulePath original = ""
  \/ exists kept,
      kept <> []
      /\ Forall (fun part => part <> "" /\ part <> ".."
                             /\ existsS isSlashOrBackslash part = false) kept
      /\ sanitizeModulePath original = String.concat "/" kept.
Proof.
  pose proof (sanitize_parts original) as Hparts. unfold sanitizeModulePath.
  destruct (List.filter keptPart (splitOn isSlash (cleanedPath original)))
    as [|k0 kept]; [now left|].
  right. exists (k0 :: kept). split; [discriminate|]. split; [|reflexivity].
  eapply List.Forall_impl; [|exact Hparts]. simpl.
  intros part (H1 & H2 & H3 & H4). repeat split; try assumption.
  change isSlashOrBackslash with (fun c => isSlash c || isBackslash c).
  now rewrite existsS_or, H3, H4.
Qed.

Lemma filter_nonEmpty_all (parts : list string) :
  Forall (fun part => part <> "") parts -> List.filter nonEmpty parts = parts.
Proof.
  induction 1 as [|x l Hx _ IH]; [reflexivity|]. simpl.
  unfold nonEmpty at 1. destruct (String.eqb_spec x ""); [contradiction|].
  simpl. now rewrite IH.
Qed.

(** The last steps of [finalPathOf], from the candidate on. *)
Lemma finish_single (index : nat) (name : string) :
  existsS isSlashOrBackslash (String "m" name) = false ->
  (if String.eqb (String.concat "/"
        (List.filter nonEmpty (splitOn isSlashOrBackslash (String "m" name)))) ""
   then moduleNumber index
   else String.concat "/"
        (List.filter nonEmpty (splitOn isSlashOrBackslash (String "m" name))))
  = String "m" name.
Proof.
  intros Hsep. rewrite (splitOn_no_sep _ _ Hsep). reflexivity.
Qed.

Lemma finish_joined (index : nat) (kept : list string) :
  kept <> [] ->
  Forall (fun part => part <> "" /\ part <> ".."
                      /\ existsS isSlashOrBackslash part = false) kept ->
  (if String.eqb (String.concat "/"
        (List.filter nonEmpty (splitOn isSlashOrBackslash (String.concat "/" kept)))) ""
   then moduleNumber index
   else String.concat "/"
        (List.filter nonEmpty (splitOn isSlashOrBackslash (String.concat "/" kept))))
  = String.concat "/" kept.
Proof.
  intros Hne Hall.
  rewrite splitOn_concat; [|reflexivity|assumption|].
  2:{ eapply List.Forall_impl; [|exact Hall]. simpl. tauto. }
  rewrite filter_nonEmpty_all.
  2:{ eapply List.Forall_impl; [|exact Hall]. simpl. tauto. }
  destruct kept as [|k0 rest]; [congruence|].
  inversion Hall as [|? ? (Hk0 & _) _]; subst.
  destruct k0 as [|c k0']; [congruence|].
  rewrite concat_cons_first. reflexivity.
Qed.

Lemma joined_first_char (kept : list string) :
  kept <> [] ->
  Forall (fun part => part <> "" /\ part <> ".."
                      /\ existsS isSlashOrBackslash part = false) kept ->
  exists c r, String.concat "/" kept = String c r /\ isSlashOrBackslash c = false.
Proof.
  intros Hne Hall. destruct kept as [|k0 rest]; [congruence|].
  inversion Hall as [|? ? (Hk0 & _ & Hsep) _]; subst.
  destruct k0 as [|c k0']; [congruence|].
  exists c, (String.concat "/" (k0' :: rest)). split; [apply concat_cons_first|].
  simpl in Hsep. now apply orb_false_iff in Hsep as [Hc _].
Qed.

(** On a host whose separator is the slash, [finalPath] is a relative
    path of plain segments: the sanitized path, or a fallback name. *)
Lemma finalPathOf_plain (h : Host) (m : ModuleRecord) (index : nat) :
  path_sep h = "/" -> plainPath (finalPathOf h m index).
Proof.
  intros Hsep. unfold finalPathOf. cbv zeta. rewrite Hsep.
  pose proof (fallbackName_no_separator m index) as Hfb.
  pose proof (fallbackName_plain m index) as Hfbplain.
  change (fallbackName m index)
    with (String "m" ("odule-" +:+ padStart0 4 (natToString index)
                        +:+ default ".bin" (loaderDefaultExtensions (loader m)))) in *.
  set (fb := String "m" _) in *.
  assert (dropWhileS isSlashOrBackslash fb = fb) as Hdrop by reflexivity.
  destruct (sanitize_shape (originalPath m)) as [->|(kept & Hne & Hall & ->)].
  - change (String.eqb "" "") with true. cbv iota. rewrite Hdrop.
    change (String.eqb fb "") with false.
    replace (if false || path_isAbsolute h fb then fb else fb) with fb
      by (destruct (path_isAbsolute h fb); reflexivity).
    unfold fb in *. rewrite finish_single by assumption. exact Hfbplain.
  - destruct (joined_first_char kept Hne Hall) as (c & r & Hcr & Hc).
    assert (String.eqb (String.concat "/" kept) "" = false) as Hnonempty
        by (rewrite Hcr; reflexivity).
    rewrite Hnonempty.
    assert (dropWhileS isSlashOrBackslash (String.concat "/" kept)
            = String.concat "/" kept) as ->
        by (rewrite Hcr; simpl; now rewrite Hc).
    rewrite Hnonempty.
    destruct (path_isAbsolute h (String.concat "/" kept)); simpl orb; cbv iota.
    + unfold fb in *. rewrite finish_single by assumption. exact Hfbplain.
    + rewrite finish_joined by assumption.
      exists kept. split; [assumption|]. split; [|reflexivity].
      eapply List.Forall_impl; [|exact Hall]. simpl.
      intros part (H1 & H2 & H3). repeat split; try assumption.
      now apply no_separator_no_slash.
Qed.

(** ** The extension of a path on a POSIX host *)

Lemma get_some_lt (p : string) (i : nat) (c : ascii) :
  String.get i p = Some c -> (i < String.length p)%nat.
Proof.
  revert i. induction p as [|x p IH]; intros i; simpl; [discriminate|].
  destruct i as [|i]; [lia|]. intros H. apply IH in H. lia.
Qed.

Lemma get_snoc (q : string) (c : ascii) :
  String.get (String.length q) (q +:+ String c "") = Some c.
Proof. induction q as [|x q IH]; [reflexivity|exact IH]. Qed.

Lemma substring_split (p : string) (k : nat) :
  (k <= String.length p)%nat ->
  substring 0 k p +:+ substring k (String.length p - k) p = p.
Proof.
  revert k. induction p as [|x p IH]; intros k Hk; simpl in Hk.
  - assert (k = 0%nat) as -> by lia. reflexivity.
  - destruct k as [|k].
    + simpl. rewrite append_nil_l. f_equal. apply substring_0_all.
    + simpl. rewrite append_cons. f_equal. apply IH. lia.
Qed.

Lemma length_substring (p : string) (a k : nat) :
  (a + k <= String.length p)%nat -> String.length (substring a k p) = k.
Proof.
  revert a k. induction p as [|x p IH]; intros a k Hk; simpl in Hk.
  - assert (a = 0%nat) as -> by lia. assert (k = 0%nat) as -> by lia. reflexivity.
  - destruct a as [|a].
    + destruct k as [|k]; [reflexivity|]. simpl. f_equal. apply (IH 0%nat). lia.
    + simpl. apply IH. lia.
Qed.

Lemma substring_class (q : ascii -> bool) (p : string) (a k : nat) :
  (forall i : nat, (a <= i < a + k)%nat ->
                   exists c, String.get i p = Some c /\ q c = false) ->
  existsS q (substring a k p) = false.
Proof.
  revert a k. induction p as [|x p IH]; intros a k Hall.
  - destruct a, k; reflexivity.
  - destruct a as [|a].
    + destruct k as [|k]; [reflexivity|]. simpl.
      destruct (Hall 0%nat) as (c & Hc & Hq); [lia|]. injection Hc as ->.
      rewrite Hq. simpl. apply (IH 0%nat). intros i Hi.
      destruct (Hall (S i)) as (c' & Hc' & Hq'); [lia|]. eauto.
    + simpl. apply IH. intros i Hi.
      destruct (Hall (S i)) as (c' & Hc' & Hq'); [lia|]. eauto.
Qed.

Lemma extnameLoop_end_fixed (p : string) (n : nat) :
  forall st, Posix.end_ st <> -1 ->
             Posix.end_ (Posix.extnameLoop p n st) = Posix.end_ st.
Proof.
  induction n as [|i IH]; intros st Hend; [reflexivity|]. simpl.
  destruct (String.get i p) as [code|]; [|reflexivity].
  destruct (isSlash code).
  - destruct (negb (Posix.matchedSlash st)); [reflexivity|]. now apply IH.
  - destruct (Z.eqb_spec (Posix.end_ st) (-1)); [contradiction|].
    rewrite IH.
    + destruct (isDot code); destruct (Posix.startDot st =? -1);
        destruct (negb (Posix.preDotState st =? 1)); reflexivity.
    + destruct (isDot code); destruct (Posix.startDot st =? -1);
        destruct (negb (Posix.preDotState st =? 1)); assumption.
Qed.

Lemma extInv_res (p : string) (n : nat) (st : Posix.extState) :
  extInv p n st -> extRes p st.
Proof.
  intros (H1 & H2 & H3 & H4) Hsd. specialize (H3 Hsd).
  assert (Posix.end_ st <> -1) as He by lia. destruct (H2 He) as [_ Hb].
  repeat split; try lia. intros i Hi. apply H4. lia.
Qed.

(** One iteration on a code unit that is no slash keeps the invariant,
    whatever it does to the dot and its state. *)
Lemma extInv_step (p : string) (i : nat) (code : ascii)
    (sd0 sp0 e0 : Z) (ms0 : bool) (pd0 : Z) (sd sp e pd : Z) :
  String.get i p = Some code ->
  isSlash code = false ->
  extInv p (S i) (Posix.mkExt sd0 sp0 e0 ms0 pd0) ->
  e = (if e0 =? -1 then Z.of_nat i + 1 else e0) ->
  sd = sd0 \/ sd = Z.of_nat i ->
  extInv p i (Posix.mkExt sd sp e false pd).
Proof.
  intros Hget Hslash (H1 & H2 & H3 & H4) He Hsd. simpl in *.
  pose proof (get_some_lt _ _ _ Hget) as Hlt.
  assert (e <> -1 /\ Z.of_nat i < e <= Z.of_nat (String.length p)
          /\ (e0 <> -1 -> e = e0) /\ (e0 = -1 -> e = Z.of_nat i + 1))
    as (Hne & Hrange & Hsame & Hnew).
  { destruct (Z.eqb_spec e0 (-1)) as [E|E]; subst e.
    - repeat split; lia.
    - destruct (H2 E). repeat split; lia. }
  unfold extInv. simpl. split; [lia|]. split; [intros _; split; [reflexivity|lia]|].
  split.
  - intros Hn. destruct Hsd as [->| ->]; [|lia].
    specialize (H3 Hn). assert (e0 <> -1) as E by lia. rewrite (Hsame E). lia.
  - intros j Hj. destruct (decide (j = i)) as [->|Hji]; [eauto|].
    destruct (Z.eq_dec e0 (-1)) as [E|E].
    + rewrite (Hnew E) in Hj. lia.
    + rewrite (Hsame E) in Hj. apply H4. lia.
Qed.

Lemma extnameLoop_res (p : string) (n : nat) :
  forall st, extInv p n st -> extRes p (Posix.extnameLoop p n st).
Proof.
  induction n as [|i IH]; intros st Hinv; [exact (extInv_res _ _ _ Hinv)|].
  simpl. destruct (String.get i p) as [code|] eqn:Hget;
    [|exact (extInv_res _ _ _ Hinv)].
  destruct (isSlash code) eqn:Hslash.
  - destruct (Posix.matchedSlash st) eqn:Hms; simpl.
    + apply IH. destruct Hinv as (H1 & H2 & H3 & H4).
      assert (Posix.end_ st = -1) as He.
      { destruct (Z.eq_dec (Posix.end_ st) (-1)) as [|E]; [assumption|].
        destruct (H2 E). congruence. }
      pose proof (H1 He) as Hsd.
      unfold extInv. rewrite He, Hsd.
      repeat split; try congruence. intros j Hj. lia.
    + apply (extInv_res p (S i)).
      destruct Hinv as (H1 & H2 & H3 & H4). unfold extInv. simpl.
      repeat split; try assumption; try (now apply H2); now apply H3.
  - apply IH. destruct st as [sd0 sp0 e0 ms0 pd0].
    assert (e0 <> -1 -> ms0 = false) as Hms
        by (intros E; destruct Hinv as (_ & H2 & _); now destruct (H2 E)).
    simpl.
    destruct (Z.eqb_spec e0 (-1)) as [E|E]; simpl;
      [|rewrite (Hms E) in *];
      destruct (isDot code); simpl;
      repeat match goal with
             | |- context [?a =? ?b] => destruct (Z.eqb_spec a b); simpl
             end;
      (eapply extInv_step; [exact Hget|exact Hslash|exact Hinv| |]);
      try (destruct (Z.eqb_spec e0 (-1)); [reflexivity || lia|reflexivity || lia]);
      auto.
Qed.

Lemma sliceS_in_range (p : string) (a b : Z) :
  0 <= a <= b -> b <= Z.of_nat (String.length p) ->
  sliceS p a b = substring (Z.to_nat a) (Z.to_nat (b - a)) p.
Proof.
  intros Ha Hb. unfold sliceS. rewrite !relIndex_in_range by lia. reflexivity.
Qed.

Lemma extInv_initial (p : string) :
  extInv p (String.length p) (Posix.mkExt (-1) 0 (-1) true 0).
Proof.
  unfold extInv. simpl. repeat split; try congruence. intros j Hj. lia.
Qed.

(** The extension holds no slash. *)
Lemma posix_extname_no_slash (p : string) :
  existsS isSlash (Posix.extname p) = false.
Proof.
  unfold Posix.extname.
  pose proof (extnameLoop_res p _ _ (extInv_initial p)) as Hres.
  set (st := Posix.extnameLoop p _ _) in *.
  destruct (Z.eqb_spec (Posix.startDot st) (-1)) as [|Hsd]; cbn [orb];
    [reflexivity|].
  destruct (_ || _); [reflexivity|].
  destruct (Hres Hsd) as (Hrange & Hend & Hns).
  rewrite sliceS_in_range by lia.
  apply substring_class. intros i Hi. apply Hns. lia.
Qed.

(** On a path whose last code unit is no slash, the extension reaches to
    the end of the path. *)
Lemma extnameLoop_end (q : string) (c : ascii) :
  isSlash c = false ->
  Posix.end_ (Posix.extnameLoop (q +:+ String c "")
                (String.length (q +:+ String c "")) (Posix.mkExt (-1) 0 (-1) true 0))
  = Z.of_nat (String.length (q +:+ String c "")).
Proof.
  intros Hc. rewrite length_append. simpl String.length.
  replace (String.length q + 1)%nat with (S (String.length q)) by lia.
  simpl Posix.extnameLoop. rewrite get_snoc, Hc. simpl.
  rewrite extnameLoop_end_fixed.
  - destruct (isDot c); simpl; lia.
  - destruct (isDot c); simpl; lia.
Qed.

(** The extension is a suffix of such a path, and [base] is the rest. *)
Lemma posix_extname_suffix (p q : string) (c : ascii) :
  p = q +:+ String c "" ->
  isSlash c = false ->
  p = sliceS p 0 (Z.of_nat (String.length p)
                  - Z.of_nat (String.length (Posix.extname p)))
      +:+ Posix.extname p.
Proof.
  intros Hp Hc. pose proof (extnameLoop_end q c Hc) as Hend. rewrite <- Hp in Hend.
  unfold Posix.extname.
  pose proof (extnameLoop_res p _ _ (extInv_initial p)) as Hres.
  set (st := Posix.extnameLoop p _ _) in *.
  assert (sliceS p 0 (Z.of_nat (String.length p) - 0) +:+ "" = p) as Hall.
  { rewrite sliceS_in_range by lia. rewrite append_nil_r.
    replace (Z.to_nat (Z.of_nat (String.length p) - 0 - 0)) with (String.length p) by lia.
    apply substring_0_all. }
  destruct (Z.eqb_spec (Posix.startDot st) (-1)) as [|Hsd]; cbn [orb];
    [change (Z.of_nat (String.length "")) with 0; now rewrite Hall|].
  destruct (_ || _);
    [change (Z.of_nat (String.length "")) with 0; now rewrite Hall|].
  destruct (Hres Hsd) as (Hrange & Hle & _).
  rewrite Hend in *.
  rewrite (sliceS_in_range p (Posix.startDot st)) by lia.
  rewrite length_substring by lia.
  rewrite sliceS_in_range by lia.
  replace (Z.to_nat (Z.of_nat (String.length p)
             - Z.of_nat (Z.to_nat (Z.of_nat (String.length p) - Posix.startDot st)) - 0))
    with (Z.to_nat (Posix.startDot st)) by lia.
  replace (Z.to_nat (Z.of_nat (String.length p) - Posix.startDot st))
    with (String.length p - Z.to_nat (Posix.startDot st))%nat by lia.
  simpl Z.to_nat. symmetry. apply substring_split. lia.
Qed.

(** ** Chosen paths on a POSIX host *)

Lemma plainSegment_endsIn (s : string) :
  plainSegment s -> exists q c, s = q +:+ String c "" /\ isSlash c = false.
Proof.
  intros (Hne & _ & Hns).
  destruct (snoc_of_nonempty s Hne) as (q & c & ->).
  exists q, c. split; [reflexivity|].
  rewrite existsS_append in Hns. apply orb_false_iff in Hns as [_ Hc].
  simpl in Hc. now rewrite orb_false_r in Hc.
Qed.

Lemma list_snoc (A : Type) (l : list A) :
  l <> [] -> exists init last, l = init ++ [last].
Proof.
  intros Hne. destruct (exists_last Hne) as (init & last & ->). eauto.
Qed.

Lemma concat_snoc (init : list string) (last : string) :
  exists x, String.concat "/" (init ++ [last]) = x +:+ last.
Proof.
  destruct init as [|i0 init'].
  - exists "". reflexivity.
  - exists (String.concat "/" (i0 :: init') +:+ "/").
    rewrite concat_app by discriminate. rewrite append_assoc. reflexivity.
Qed.

Lemma plainPath_endsIn (p : string) :
  plainPath p -> exists q c, p = q +:+ String c "" /\ isSlash c = false.
Proof.
  intros (segs & Hne & Hall & ->).
  destruct (list_snoc _ segs Hne) as (init & last & ->).
  apply List.Forall_app in Hall as [_ Hlast].
  inversion Hlast as [|? ? Hp _]; subst.
  destruct (plainSegment_endsIn _ Hp) as (q & c & -> & Hc).
  destruct (concat_snoc init (q +:+ String c "")) as (x & ->).
  exists (x +:+ q), c. split; [now rewrite append_assoc|assumption].
Qed.

Lemma plainPath_split (p : string) (segs : list string) :
  segs <> [] -> Forall plainSegment segs -> p = String.concat "/" segs ->
  splitOn isSlash p = segs.
Proof.
  intros Hne Hall ->. apply splitOn_concat; [reflexivity|assumption|].
  eapply List.Forall_impl; [|exact Hall]. intros s (_ & _ & H). exact H.
Qed.

Lemma digit_not_slash (c : ascii) : isDigit c = true -> isSlash c = false.
Proof.
  intros H. apply digit_not_separator in H. unfold isSlashOrBackslash in H.
  now apply orb_false_iff in H as [H _].
Qed.

(** The suffixed path is again a relative path of plain segments. *)
Lemma plainPath_withSuffix (cwd : string) (fp : string) (n : nat) :
  plainPath fp -> plainPath (withSuffix (Posix.host cwd) fp n).
Proof.
  intros Hplain.
  destruct (plainPath_endsIn fp Hplain) as (q & c & Hq & Hc).
  pose proof (posix_extname_suffix fp q c Hq Hc) as Hsplit.
  pose proof (posix_extname_no_slash fp) as Hext.
  destruct Hplain as (segs & Hne & Hall & Hfp).
  pose proof (plainPath_split fp segs Hne Hall Hfp) as Hsegs.
  unfold withSuffix. simpl path_extname.
  set (ext := Posix.extname fp) in *.
  set (base := sliceS fp 0 _) in *.
  destruct (splitOn_snoc_nosep isSlash base) as (init & last & Hbase & Hgrow).
  assert (segs = init ++ [last +:+ ext]) as Hshape.
  { rewrite <- Hsegs. rewrite Hsplit at 1. now apply Hgrow. }
  set (tail := "." +:+ natToString n +:+ ext).
  assert (existsS isSlash tail = false) as Htail.
  { unfold tail. rewrite !existsS_append, Hext.
    rewrite natToString_class by apply digit_not_slash. reflexivity. }
  exists (init ++ [last +:+ tail]). split.
  { intros E. symmetry in E. exact (app_cons_not_nil _ _ _ E). }
  split.
  - rewrite Hshape in Hall. apply List.Forall_app in Hall as [Hinit Hlast].
    apply List.Forall_app. split; [assumption|].
    apply List.Forall_inv in Hlast. destruct Hlast as (_ & _ & Hns).
    rewrite existsS_append in Hns. apply orb_false_iff in Hns as [Hl _].
    constructor; [|constructor].
    assert (existsS isDigit (last +:+ tail) = true) as Hdigit.
    { unfold tail. rewrite !existsS_append, natToString_has_digit.
      now rewrite !orb_true_r. }
    repeat split.
    + intros E. rewrite E in Hdigit. discriminate.
    + intros E. rewrite E in Hdigit. discriminate.
    + now rewrite existsS_append, Hl, Htail.
  - rewrite <- (Hgrow tail Htail). now rewrite concat_splitOn.
Qed.

Lemma chooseRelativePath_plain (cwd : string) (m : ModuleRecord) (index : nat)
    (used : gmap string nat) :
  plainPath (chooseRelativePath (Posix.host cwd) m index used).1.
Proof.
  pose proof (finalPathOf_plain (Posix.host cwd) m index eq_refl) as Hfp.
  destruct (used !! keyOf (Posix.host cwd) m index) as [n|] eqn:Hk.
  - rewrite (chooseRelativePath_repeat _ _ _ _ _ Hk). simpl.
    now apply plainPath_withSuffix.
  - rewrite (chooseRelativePath_fresh _ _ _ _ Hk). exact Hfp.
Qed.

(** ** Resolving on a POSIX host *)







Lemma plainPath_relative (rel : string) :
  plainPath rel ->
  (String.length rel =? 0)%nat = false /\ Posix.isAbsolute rel = false.
Proof.
  intros (segs & Hne & Hall & ->).
  destruct segs as [|s0 rest]; [congruence|].
  inversion Hall as [|? ? (H1 & _ & H3) _]; subst.
  destruct s0 as [|c s0']; [congruence|].
  rewrite concat_cons_first. simpl in H3.
  apply orb_false_iff in H3 as [Hc _]. split; [reflexivity|exact Hc].
Qed.





(** ** Numbering of colliding paths *)



(** ** No path leaves the output directory *)





(** * Slices of a string *)

Lemma dropS_0 (s : string) : dropS 0 s = s.
Proof. unfold dropS. rewrite Nat.sub_0_r. apply substring_0_all. Qed.

Lemma dropS_cons (n : nat) (c : ascii) (r : string) :
  dropS (S n) (String c r) = dropS n r.
Proof. reflexivity. Qed.

Lemma substring_nil (n : nat) (s : string) : substring n 0 s = "".
Proof.
  revert n. induction s as [|c r IH]; intros [|n]; simpl; auto.
Qed.

Lemma dropS_ge (n : nat) (s : string) :
  (String.length s <= n)%nat -> dropS n s = "".
Proof.
  intros H. unfold dropS.
  replace (String.length s - n)%nat with 0%nat by lia. apply substring_nil.
Qed.

Lemma length_dropS (n : nat) (s : string) :
  String.length (dropS n s) = (String.length s - n)%nat.
Proof.
  revert n. induction s as [|c r IH]; intros [|n]; try reflexivity.
  - rewrite dropS_0. simpl. lia.
  - rewrite dropS_cons, IH. reflexivity.
Qed.

(** The string from [a] on is the slice from [a] to [b] and the string
    from [b] on. *)
Lemma dropS_split (s : string) :
  forall a b : nat,
    (a <= b)%nat -> (b <= String.length s)%nat ->
    dropS a s = substring a (b - a) s +:+ dropS b s.
Proof.
  induction s as [|c r IH]; intros a b Hab Hb; simpl in Hb.
  - assert (b = 0%nat) as -> by lia. assert (a = 0%nat) as -> by lia. reflexivity.
  - destruct a as [|a].
    + rewrite dropS_0, Nat.sub_0_r. symmetry.
      apply (substring_split (String c r) b). simpl. lia.
    + destruct b as [|b]; [lia|]. rewrite !dropS_cons. simpl.
      apply IH; lia.
Qed.

Lemma get_dropS (s : string) :
  forall (n : nat) (c : ascii) (r : string),
    dropS n s = String c r ->
    String.get n s = Some c /\ dropS (S n) s = r.
Proof.
  induction s as [|x s IH]; intros n c r H.
  - destruct n; discriminate.
  - destruct n as [|n].
    + rewrite dropS_0 in H. injection H as <- <-. split; [reflexivity|].
      rewrite dropS_cons. apply dropS_0.
    + rewrite dropS_cons in H. apply IH in H as [Hg Hd]. split; assumption.
Qed.

Lemma get_lt_some (s : string) (i : nat) :
  (i < String.length s)%nat -> exists c, String.get i s = Some c.
Proof.
  revert i. induction s as [|x s IH]; intros i Hi; simpl in Hi; [lia|].
  destruct i as [|i]; [now exists x|]. apply IH. lia.
Qed.

(** Three consecutive slices make the string, also when the last index
    lies beyond its end. *)
Lemma slices_reassemble (s : string) (a b : nat) :
  (a <= b)%nat ->
  s = sliceS s 0 (Z.of_nat a) +:+ sliceS s (Z.of_nat a) (Z.of_nat b)
      +:+ dropS b s.
Proof.
  intros Hab. unfold sliceS, relIndex.
  destruct (Z.ltb_spec 0 0); [lia|].
  destruct (Z.ltb_spec (Z.of_nat a) 0); [lia|].
  destruct (Z.ltb_spec (Z.of_nat b) 0); [lia|].
  set (len := String.length s).
  rewrite Z.min_l by lia.
  replace (Z.to_nat (Z.min (Z.of_nat a) (Z.of_nat len) - 0))
    with (Nat.min a len) by lia.
  replace (Z.to_nat (Z.min (Z.of_nat a) (Z.of_nat len)))
    with (Nat.min a len) by lia.
  replace (Z.to_nat (Z.min (Z.of_nat b) (Z.of_nat len)
                     - Z.min (Z.of_nat a) (Z.of_nat len)))
    with (Nat.min b len - Nat.min a len)%nat by lia.
  simpl Z.to_nat.
  assert (dropS b s = dropS (Nat.min b len) s) as ->.
  { destruct (Nat.le_gt_cases b len); [now rewrite Nat.min_l by lia|].
    rewrite Nat.min_r by lia. rewrite !dropS_ge by (fold len; lia). reflexivity. }
  rewrite <- dropS_split by (fold len; lia).
  symmetry. apply substring_split. fold len. lia.
Qed.

(** * Further properties of the extractor *)

(** ** The search for the trailer *)

(** [lastIndexOfSubarray] answers -1 exactly when the needle is empty or
    stands nowhere in the buffer, and [j] exactly when the needle is not
    empty, stands at [j] and stands nowhere after [j]. *)
Theorem lastIndexOfSubarray_last_occurrence (haystack needle : list byte) :
  (lastIndexOfSubarray haystack needle = -1
   <-> needle = [] \/ forall j : nat, ~ occursAt needle haystack j)
  /\ (forall j : nat,
         lastIndexOfSubarray haystack needle = Z.of_nat j
         <-> needle <> [] /\ occursAt needle haystack j
             /\ forall k : nat, (j < k)%nat -> ~ occursAt needle haystack k).
Proof.
  split.
  - destruct needle as [|x needle'].
    + split; [now left|]. intros _. unfold lastIndexOfSubarray. reflexivity.
    + rewrite lastIndexOfSubarray_none by discriminate.
      split; [now right|]. intros [H|H]; [discriminate|exact H].
  - intros j. split.
    + intros Hj.
      assert (lastIndexOfSubarray haystack needle <> -1) as Hne by lia.
      assert (needle <> []) as Hn.
      { intros ->. apply Hne. reflexivity. }
      destruct (lastIndexOfSubarray_found _ _ Hne) as (j' & Hj' & Hocc & Hlast).
      assert (j' = j) as -> by lia. auto.
    + intros (Hn & Hocc & Hlast).
      assert (lastIndexOfSubarray haystack needle <> -1) as Hne.
      { intros Hnone. apply (proj1 (lastIndexOfSubarray_none _ _ Hn) Hnone j Hocc). }
      destruct (lastIndexOfSubarray_found _ _ Hne) as (j' & Hj' & Hocc' & Hlast').
      rewrite Hj'. f_equal.
      destruct (Nat.lt_trichotomy j j') as [Hlt|[Heq|Hgt]]; [|exact (eq_sym Heq)|].
      * exfalso. exact (Hlast j' Hlt Hocc').
      * exfalso. exact (Hlast' j Hgt Hocc).
Qed.

(** ** The section of a PE file *)

Lemma getUint_in_range (w : nat) (b : list byte) (off : Z) :
  0 <= off -> off + Z.of_nat w <= blen b ->
  getUint w b off = Ok (leValue (take w (drop (Z.to_nat off) b))).
Proof.
  intros H0 Hw. unfold getUint.
  destruct (Z.ltb_spec off 0); [lia|].
  destruct (Z.ltb_spec (blen b) (off + Z.of_nat w)); [lia|]. reflexivity.
Qed.

(** What the loop over the section table ends with: the data of a
    section, which the file holds behind its 4-byte length, or one of the
    errors the loop throws by name. *)
Lemma scanSections_result (h : Host) (file : list byte) (table : Z) (n : nat) :
  forall i : Z,
    0 <= table -> 0 <= i ->
    match scanSections h file table n i with
    | Ok section =>
      exists p : Z,
        0 <= p /\ p + 4 + blen section <= blen file
        /\ getUint32 file p = Ok (blen section)
        /\ section = take (length section) (drop (Z.to_nat (p + 4)) file)
    | Err e => In e sectionErrors
    end.
Proof.
  induction n as [|n IH]; intros i Htable Hi; simpl.
  - auto 10.
  - destruct (Z.ltb_spec (blen file) (table + i * 40 + 40)); [simpl; auto 10|].
    destruct (negb _); [apply IH; lia|].
    unfold getUint32. rewrite !getUint_in_range by (simpl; lia).
    unfold_bind.
    set (size := leValue (take 4 (drop (Z.to_nat (table + i * 40 + 16)) file))).
    set (p := leValue (take 4 (drop (Z.to_nat (table + i * 40 + 20)) file))).
    assert (0 <= p) as Hp by apply leValue_nonneg.
    destruct (Z.ltb_spec (blen file) (p + size)); [simpl; auto 10|].
    destruct (Z.ltb_spec (blen file) (p + 4)); [simpl; auto 10|]. simpl orb. cbv iota.
    rewrite getUint_in_range by (simpl; lia).
    set (len := leValue (take 4 (drop (Z.to_nat p) file))).
    assert (0 <= len) as Hlen by apply leValue_nonneg.
    destruct (Z.ltb_spec (p + size) (p + 4 + len)); [simpl; auto 10|].
    destruct (Z.ltb_spec (blen file) (p + 4 + len)); [simpl; auto 10|]. simpl orb. cbv iota.
    assert (blen (subarray file (p + 4) (p + 4 + len)) = len) as Hblen
        by (rewrite subarray_blen by lia; lia).
    exists p. rewrite Hblen. split; [exact Hp|]. split; [lia|].
    split; [rewrite getUint_in_range by (simpl; lia); reflexivity|].
    rewrite subarray_in_range by lia. f_equal.
    unfold blen in Hblen. rewrite subarray_in_range in Hblen by lia.
    replace (p + 4 + len - (p + 4)) with len by lia.
    rewrite length_take, length_drop in *. lia.
Qed.

Lemma extractBunSection_result (h : Host) (file : list byte) :
  match extractBunSection h file with
  | Ok section =>
    exists p : Z,
      0 <= p /\ p + 4 + blen section <= blen file
      /\ getUint32 file p = Ok (blen section)
      /\ section = take (length section) (drop (Z.to_nat (p + 4)) file)
  | Err e => In e sectionErrors
  end.
Proof.
  unfold extractBunSection.
  destruct (Z.ltb_spec (blen file) 64); [simpl; auto 10|].
  unfold getUint16, getUint32. rewrite !getUint_in_range by (simpl; lia).
  unfold_bind.
  destruct (negb _); [simpl; auto 10|].
  set (pe := leValue (take 4 (drop (Z.to_nat 60) file))).
  assert (0 <= pe) as Hpe by apply leValue_nonneg.
  destruct (Z.ltb_spec (blen file) (pe + 24)); [simpl; auto 10|].
  rewrite !getUint_in_range by (simpl; lia).
  destruct (negb _); [simpl; auto 10|].
  set (opt := leValue (take 2 (drop (Z.to_nat (pe + 20)) file))).
  assert (0 <= opt) as Hopt by apply leValue_nonneg.
  destruct (Z.ltb_spec (blen file) (pe + 24 + opt)); [simpl; auto 10|].
  apply scanSections_result; lia.
Qed.

(** The section [extractBunSection] returns is a part of the file: it
    stands right behind a 4-byte little-endian field that holds its
    length, and ends within the file. *)
Theorem bun_section_is_length_prefixed_slice (h : Host) (file section : list byte) :
  extractBunSection h file = Ok section ->
  exists p : Z,
    0 <= p /\ p + 4 + blen section <= blen file
    /\ getUint32 file p = Ok (blen section)
    /\ section = take (length section) (drop (Z.to_nat (p + 4)) file).
Proof.
  intros Hs. pose proof (extractBunSection_result h file) as H.
  rewrite Hs in H. exact H.
Qed.

Lemma bun_section_is_length_prefixed_slice_witness :
  let file := PE.file (list_byte_of_string "hello") in
  let section := list_byte_of_string "hello" in
  exists p : Z,
    0 <= p /\ p + 4 + blen section <= blen file
    /\ getUint32 file p = Ok (blen section)
    /\ section = take (length section) (drop (Z.to_nat (p + 4)) file).
Proof.
  exact (bun_section_is_length_prefixed_slice (Posix.host "/work")
           (PE.file (list_byte_of_string "hello")) (list_byte_of_string "hello")
           eq_refl).
Defined.

(** No read of the locator leaves the file: [extractBunSection] fails
    only with the errors it throws by name, never with the [RangeError]
    of a [DataView], and [extractEmbeddedData] fails only with the error
    that carries one of them.  A file of less than 56 bytes (the empty
    file, say) is always refused, as no PE file. *)
Theorem locator_fails_by_name_only (h : Host) (file : list byte) :
  (forall e, extractBunSection h file = Err e -> In e sectionErrors)
  /\ extractBunSection h file <> Err RangeError
  /\ (forall e, extractEmbeddedData h file = Err e ->
        exists pe, e = NoEmbeddedData pe /\ In pe sectionErrors
                   /\ extractBunSection h file = Err pe
                   /\ extractTrailerAppendedBlob file = None)
  /\ (blen file < 56 -> extractEmbeddedData h file = Err (NoEmbeddedData NotPE)).
Proof.
  pose proof (extractBunSection_result h file) as H.
  assert (forall e, extractBunSection h file = Err e -> In e sectionErrors) as Herr.
  { intros e He. now rewrite He in H. }
  split; [exact Herr|]. split; [|split].
  - intros Hr. apply Herr in Hr. simpl in Hr.
    repeat (destruct Hr as [Hr|Hr]; [discriminate|]). exact Hr.
  - intros e. unfold extractEmbeddedData.
    destruct (extractBunSection h file) as [s|pe]; [discriminate|].
    destruct (extractTrailerAppendedBlob file); [discriminate|].
    intros [= <-]. exists pe. auto.
  - intros Hshort. unfold extractEmbeddedData, extractBunSection, extractTrailerAppendedBlob.
    rewrite TRAILER_BYTES_length. unfold OFFSETS_SIZE.
    destruct (Z.ltb_spec (blen file) 64); [|lia].
    destruct (Z.ltb_spec (blen file) (16 + 32 + 8)); [|lia]. reflexivity.
Qed.

(** ** The reads of the parser *)

Lemma slicePointer_error (bytes : list byte) (ptr : StringPointer) (e : error) :
  slicePointer bytes ptr = Err e -> e = StringPointerOutOfRange.
Proof.
  unfold slicePointer. destruct (_ =? 0); [discriminate|].
  destruct (_ <? _); [|discriminate]. now intros [= <-].
Qed.

Lemma decodeUtf8_error (h : Host) (bytes : list byte) (ptr : StringPointer) (e : error) :
  decodeUtf8 h bytes ptr = Err e -> e = StringPointerOutOfRange.
Proof.
  unfold decodeUtf8. destruct (_ =? 0); [discriminate|]. unfold_bind.
  destruct (slicePointer bytes ptr) eqn:Hs; [discriminate|].
  intros [= <-]. eapply slicePointer_error. exact Hs.
Qed.

Lemma sliceOptional_error (bytes : list byte) (ptr : StringPointer) (e : error) :
  sliceOptional bytes ptr = Err e -> e = StringPointerOutOfRange.
Proof.
  unfold sliceOptional. destruct (0 <? _); [|discriminate]. unfold_bind.
  destruct (slicePointer bytes ptr) eqn:Hs; [discriminate|].
  intros [= <-]. eapply slicePointer_error. exact Hs.
Qed.

Lemma byteAt_in_range (b : list byte) (i : Z) :
  0 <= i < blen b -> exists v, byteAt b i = Some v.
Proof.
  intros Hi. unfold byteAt. destruct (Z.ltb_spec i 0); [lia|].
  destruct (lookup_lt_is_Some_2 b (Z.to_nat i)) as [x Hx]; [unfold blen in Hi; lia|].
  rewrite Hx. eexists. reflexivity.
Qed.

(** A record that lies in the payload with its 36 bytes: its pointers
    and its four tags are read from the payload, and the one error left
    is that of [slicePointer]. *)
Lemma parseRecord_in_table (h : Host) (payload : list byte) (base : Z) :
  0 <= base -> base + 36 <= blen payload ->
  match parseRecord h payload base with
  | Ok m =>
    byteAt payload (base + 32) = Some (encoding m)
    /\ byteAt payload (base + 33) = Some (loader m)
    /\ byteAt payload (base + 34) = Some (moduleFormat m)
    /\ byteAt payload (base + 35) = Some (side m)
  | Err e => e = StringPointerOutOfRange
  end.
Proof.
  intros H0 H36.
  destruct (fieldPointer_in_payload payload base NameField H0) as [pn En]; [lia|].
  destruct (fieldPointer_in_payload payload base ContentsField H0) as [pc Ec]; [lia|].
  destruct (fieldPointer_in_payload payload base SourcemapField H0) as [ps Es]; [lia|].
  destruct (fieldPointer_in_payload payload base BytecodeField H0) as [pb Eb]; [lia|].
  rewrite (parseRecord_fields h _ _ _ _ _ _ En Ec Es Eb). unfold_bind.
  destruct (decodeUtf8 h payload pn) eqn:Hn;
    [|eapply decodeUtf8_error; exact Hn].
  destruct (slicePointer payload pc) eqn:Hc;
    [|eapply slicePointer_error; exact Hc].
  destruct (sliceOptional payload ps) eqn:Hs;
    [|eapply sliceOptional_error; exact Hs].
  destruct (sliceOptional payload pb) eqn:Hb;
    [|eapply sliceOptional_error; exact Hb].
  simpl.
  destruct (byteAt_in_range payload (base + 32)) as [v0 ->]; [lia|].
  destruct (byteAt_in_range payload (base + 33)) as [v1 ->]; [lia|].
  destruct (byteAt_in_range payload (base + 34)) as [v2 ->]; [lia|].
  destruct (byteAt_in_range payload (base + 35)) as [v3 ->]; [lia|].
  simpl. auto.
Qed.

(** Module [k] of the loop is the record at [modulesOffset + (i + k) *
    recordSize]. *)
Lemma parseRecords_lookup (h : Host) (payload : list byte) (off size : Z) (n : nat) :
  forall (i : Z) (ms : list ModuleRecord) (k : nat) (m : ModuleRecord),
    parseRecords h payload off size n i = Ok ms ->
    ms !! k = Some m ->
    parseRecord h payload (off + (i + Z.of_nat k) * size) = Ok m.
Proof.
  induction n as [|n IH]; intros i ms k m; simpl.
  - intros [= <-]. discriminate.
  - unfold_bind. destruct (parseRecord h payload (off + i * size)) as [m0|] eqn:H0;
      [|discriminate].
    destruct (parseRecords h payload off size n (i + 1)) as [rest|] eqn:Hrest;
      [|discriminate].
    intros [= <-]. destruct k as [|k]; simpl.
    + intros [= <-]. now rewrite Z.add_0_r.
    + intros Hk. rewrite <- (IH _ _ _ _ Hrest Hk). do 2 f_equal. lia.
Qed.

Lemma parseRecords_error (h : Host) (payload : list byte) (off size : Z) (n : nat) :
  forall (i : Z) (e : error),
    0 <= off -> 36 <= size -> 0 <= i ->
    off + (i + Z.of_nat n) * size <= blen payload ->
    parseRecords h payload off size n i = Err e ->
    e = StringPointerOutOfRange.
Proof.
  induction n as [|n IH]; intros i e Hoff Hsize Hi Hend; simpl; [discriminate|].
  unfold_bind.
  pose proof (parseRecord_in_table h payload (off + i * size)) as Hrec.
  destruct (parseRecord h payload (off + i * size)) as [m0|e0].
  - destruct (parseRecords h payload off size n (i + 1)) as [rest|e1] eqn:Hrest;
      [discriminate|].
    intros [= <-]. eapply (IH (i + 1)); [lia|lia|lia| |exact Hrest]. nia.
  - intros [= <-]. apply Hrec; nia.
Qed.

(** What a decoded offset table says of the blob. *)
Lemma readOffsetTable_shape (blob : list byte) :
  match readOffsetTable blob with
  | Ok t =>
    0 <= byteCount t
    /\ 0 <= ptr_offset (modulesPointer t) /\ 0 <= ptr_length (modulesPointer t)
  | Err e => In e [BlobTooShort; NoTrailer; BadOffsetsPos; ByteCountUnsafe]
  end.
Proof.
  unfold readOffsetTable.
  destruct (blen blob <? _); [simpl; auto|].
  destruct (Z.eqb_spec (lastIndexOfSubarray blob TRAILER_BYTES) (-1)) as [|Hne];
    [simpl; auto|].
  destruct (lastIndexOfSubarray_found _ _ Hne) as (j & -> & Hocc & _).
  apply occursAt_bound in Hocc; [|discriminate].
  change (length TRAILER_BYTES) with 16%nat in Hocc. unfold OFFSETS_SIZE.
  destruct (Z.ltb_spec (Z.of_nat j - 32) 0); [simpl; auto|].
  assert (Z.of_nat j <= blen blob) by (unfold blen; lia).
  unfold readPointer, getBigUint64, getUint32.
  rewrite !getUint_in_range by (simpl; lia). unfold_bind.
  destruct (MAX_SAFE_INTEGER <? _); [simpl; auto 10|].
  simpl. repeat split; apply leValue_nonneg.
Qed.

Lemma chooseRecordSize_result (len : Z) :
  match chooseRecordSize len with
  | Ok size => (size = 40 \/ size = 36) /\ len mod size = 0
               /\ size = (if len mod 40 =? 0 then 40 else 36)
  | Err e => e = UnknownRecordSize
  end.
Proof.
  unfold chooseRecordSize, MODULE_RECORD_SIZE.
  destruct (Z.eqb_spec (len mod 40) 0); simpl; [auto|].
  destruct (Z.eqb_spec (len mod 36) 0); simpl; auto.
Qed.

(** The module table of a parse that passed the two range checks. *)
Lemma table_in_payload (len size off : Z) (payloadLength : Z) :
  0 <= off -> 0 <= len -> (size = 40 \/ size = 36) -> len mod size = 0 ->
  off + len <= payloadLength ->
  off + (0 + Z.of_nat (Z.to_nat (len / size))) * size <= payloadLength.
Proof.
  intros Hoff Hlen Hsize Hmod Hend.
  assert (0 < size) by lia.
  pose proof (Z.div_mod len size ltac:(lia)) as Hdm.
  assert (0 <= len / size) by (apply Z.div_pos; lia).
  rewrite Z2Nat.id by assumption. nia.
Qed.

Lemma parseTable_result (h : Host) (blob : list byte) (t : OffsetTable) :
  0 <= byteCount t ->
  0 <= ptr_offset (modulesPointer t) -> 0 <= ptr_length (modulesPointer t) ->
  match parseTable h blob t with
  | Ok parsed =>
    forall (k : nat) (m : ModuleRecord),
      modules parsed !! k = Some m ->
      let payload := subarray blob 0 (byteCount t) in
      let base := ptr_offset (modulesPointer t) + Z.of_nat k * strideOf t in
      parseRecord h payload base = Ok m /\ 0 <= base /\ base + 36 <= blen payload
      /\ blen payload = byteCount t /\ byteCount t <= blen blob
  | Err e =>
    In e [ByteCountOutOfRange; ModuleTableOutOfRange; UnknownRecordSize;
          StringPointerOutOfRange]
  end.
Proof.
  intros Hcount Hoff Hlen. unfold parseTable.
  destruct (Z.ltb_spec (blen blob) (byteCount t)); [simpl; auto|].
  assert (blen (subarray blob 0 (byteCount t)) = byteCount t) as Hpayload
      by (rewrite subarray_blen by lia; lia).
  rewrite Hpayload. unfold modulesEnd.
  set (payload := subarray blob 0 (byteCount t)) in *.
  set (off := ptr_offset (modulesPointer t)) in *.
  set (len := ptr_length (modulesPointer t)) in *.
  destruct (Z.ltb_spec (byteCount t) (off + len)); [simpl; auto|].
  pose proof (chooseRecordSize_result len) as Hsize. unfold_bind.
  destruct (chooseRecordSize len) as [size|e]; [|subst e; simpl; auto].
  destruct Hsize as (Hsize & Hmod & Hstride).
  assert (off + (0 + Z.of_nat (Z.to_nat (len / size))) * size <= blen payload) as Hend
      by (rewrite Hpayload; apply table_in_payload; assumption || lia).
  unfold parseWith. unfold_bind. fold off. fold len.
  destruct (parseRecords h payload off size (Z.to_nat (len / size)) 0)
    as [ms|e] eqn:Hms.
  - destruct (decodeUtf8 h payload (argvPointer t)) as [argv|e] eqn:Hargv.
    + intros k m Hk. simpl in Hk. cbv zeta.
      unfold strideOf. fold len. rewrite <- Hstride.
      pose proof (parseRecords_lookup _ _ _ _ _ _ _ _ _ Hms Hk) as Hrec.
      rewrite Z.add_0_l in Hrec. split; [exact Hrec|].
      apply lookup_lt_Some in Hk.
      rewrite (parseRecords_length _ _ _ _ _ _ _ Hms) in Hk.
      split; [nia|]. split; [nia|]. split; [reflexivity|assumption].
    + apply decodeUtf8_error in Hargv. subst e. simpl. auto.
  - apply parseRecords_error in Hms; [subst e; simpl; auto|lia..|exact Hend].
Qed.

(** The reads of the parser stay in the blob and, for the records, in the
    payload: parsing fails only with an error of [parserErrors].  The
    check of [readPointerFromPayload] never fails in [parseStandalone],
    since the module table was found to lie in the payload, and no
    [DataView] read raises a [RangeError]. *)
Theorem parser_fails_by_name_only (h : Host) (blob : list byte) :
  (forall e, parseStandalone h blob = Err e -> In e parserErrors)
  /\ parseStandalone h blob <> Err ModulePointerOutOfRange
  /\ parseStandalone h blob <> Err RangeError.
Proof.
  assert (forall e, parseStandalone h blob = Err e -> In e parserErrors) as Herr.
  { intros e. rewrite parseStandalone_phases.
    pose proof (readOffsetTable_shape blob) as Ht.
    destruct (readOffsetTable blob) as [t|e0]; simpl.
    - destruct Ht as (Hcount & Hoff & Hlen).
      pose proof (parseTable_result h blob t Hcount Hoff Hlen) as Hp.
      intros He. rewrite He in Hp. unfold parserErrors. simpl in *. tauto.
    - intros [= <-]. unfold parserErrors. simpl in *. tauto. }
  split; [exact Herr|].
  split; intros H; apply Herr in H; simpl in H;
    repeat (destruct H as [H|H]; [discriminate|]); exact H.
Qed.

(** The four tags of every parsed module are the bytes 32 to 35 of its
    record in the payload: the values the parser would fall back on for a
    byte that is not there (0, 5, 0, 0) are never used. *)
Theorem record_tags_are_payload_bytes (h : Host) (blob : list byte)
    (t : OffsetTable) (parsed : ParsedStandalone) (k : nat) (m : ModuleRecord) :
  readOffsetTable blob = Ok t ->
  parseStandalone h blob = Ok parsed ->
  modules parsed !! k = Some m ->
  let payload := subarray blob 0 (byteCount t) in
  let base := ptr_offset (modulesPointer t) + Z.of_nat k * strideOf t in
  parseRecord h payload base = Ok m
  /\ byteAt payload (base + 32) = Some (encoding m)
  /\ byteAt payload (base + 33) = Some (loader m)
  /\ byteAt payload (base + 34) = Some (moduleFormat m)
  /\ byteAt payload (base + 35) = Some (side m).
Proof.
  intros Ht Hparsed Hk. cbv zeta.
  pose proof (readOffsetTable_shape blob) as Hshape. rewrite Ht in Hshape.
  destruct Hshape as (Hcount & Hoff & Hlen).
  pose proof (parseTable_result h blob t Hcount Hoff Hlen) as Hp.
  rewrite parseStandalone_phases, Ht in Hparsed. simpl in Hparsed.
  rewrite Hparsed in Hp. destruct (Hp k m Hk) as (Hrec & H0 & H36 & _).
  split; [exact Hrec|].
  pose proof (parseRecord_in_table h _ _ H0 H36) as Htags.
  rewrite Hrec in Htags. exact Htags.
Qed.

Lemma record_tags_are_payload_bytes_witness :
  let payload := subarray Fixture.plain 0 48 in
  let m := mkModule "a.js" (list_byte_of_string "hi") None None 0 1 0 0 in
  parseRecord (Posix.host "/work") payload 8 = Ok m
  /\ byteAt payload 40 = Some 0
  /\ byteAt payload 41 = Some 1
  /\ byteAt payload 42 = Some 0
  /\ byteAt payload 43 = Some 0.
Proof.
  exact (record_tags_are_payload_bytes (Posix.host "/work") Fixture.plain
           (mkOffsets 48 (mkPtr 8 40) 0 (mkPtr 0 0))
           (mkParsed [mkModule "a.js" (list_byte_of_string "hi") None None 0 1 0 0] 0 "")
           0 (mkModule "a.js" (list_byte_of_string "hi") None None 0 1 0 0)
           eq_refl eq_refl eq_refl).
Defined.

(** ** Where the offset table stands *)

Lemma occursAt_end (x needle : list byte) : occursAt needle (x ++ needle) (length x).
Proof.
  unfold occursAt. rewrite drop_app_length. apply take_ge. lia.
Qed.

(** A needle at the very end of the buffer is its last occurrence,
    whatever stands before. *)
Lemma lastIndexOfSubarray_at_end (x needle : list byte) :
  needle <> [] ->
  lastIndexOfSubarray (x ++ needle) needle = Z.of_nat (length x).
Proof.
  intros Hn.
  assert (lastIndexOfSubarray (x ++ needle) needle <> -1) as Hne.
  { intros Hnone.
    exact (proj1 (lastIndexOfSubarray_none _ _ Hn) Hnone _ (occursAt_end x needle)). }
  destruct (lastIndexOfSubarray_found _ _ Hne) as (j & -> & Hocc & Hlast).
  f_equal. pose proof (occursAt_bound _ _ _ Hn Hocc) as Hb.
  rewrite length_app in Hb.
  destruct (decide (j = length x)) as [|Hneq]; [assumption|].
  exfalso. apply (Hlast (length x)); [lia|apply occursAt_end].
Qed.

Lemma getUint_middle (w : nat) (pre offs post : list byte) (k : nat) :
  (k + w <= length offs)%nat ->
  getUint w (pre ++ offs ++ post) (Z.of_nat (length pre) + Z.of_nat k)
  = Ok (fieldAt w k offs).
Proof.
  intros Hk. rewrite getUint_in_range.
  - unfold fieldAt. do 2 f_equal.
    replace (Z.to_nat (Z.of_nat (length pre) + Z.of_nat k))
      with (length pre + k)%nat by lia.
    rewrite drop_app_add', drop_app_le by lia.
    rewrite take_app_le by (rewrite length_drop; lia). reflexivity.
  - lia.
  - unfold blen. rewrite !length_app. lia.
Qed.

(** In a blob that ends with the trailer, the offset table is the 32
    bytes right before that trailer, whatever stands before them (a copy
    of the trailer in the contents of a module, say): [byte_count] in the
    first 8 bytes, the pointer to the module table at 8, the entry point
    at 16 and the pointer to the arguments at 20; the last 4 bytes are
    not read. *)
Theorem offset_table_precedes_last_trailer (pre offs : list byte) :
  length offs = 32%nat ->
  readOffsetTable (pre ++ offs ++ TRAILER_BYTES)
  = if MAX_SAFE_INTEGER <? fieldAt 8 0 offs then Err ByteCountUnsafe
    else Ok (decodeOffsets offs).
Proof.
  intros Hoffs. unfold readOffsetTable.
  assert (blen (pre ++ offs ++ TRAILER_BYTES) = blen pre + 48) as Hlen.
  { unfold blen. rewrite !length_app, Hoffs.
    change (length TRAILER_BYTES) with 16%nat. lia. }
  rewrite Hlen, TRAILER_BYTES_length. unfold OFFSETS_SIZE.
  destruct (Z.ltb_spec (blen pre + 48) (16 + 32)); [unfold blen in *; lia|].
  replace (lastIndexOfSubarray (pre ++ offs ++ TRAILER_BYTES) TRAILER_BYTES)
    with (Z.of_nat (length pre) + 32).
  2:{ rewrite app_assoc, lastIndexOfSubarray_at_end by discriminate.
      rewrite length_app, Hoffs. lia. }
  destruct (Z.eqb_spec (Z.of_nat (length pre) + 32) (-1)); [lia|].
  replace (Z.of_nat (length pre) + 32 - 32) with (Z.of_nat (length pre)) by lia.
  destruct (Z.ltb_spec (Z.of_nat (length pre)) 0); [lia|].
  unfold readPointer, getBigUint64, getUint32.
  rewrite <- (Z.add_0_r (Z.of_nat (length pre))) at 1.
  replace (Z.of_nat (length pre) + 8 + 4) with (Z.of_nat (length pre) + 12) by lia.
  replace (Z.of_nat (length pre) + 20 + 4) with (Z.of_nat (length pre) + 24) by lia.
  change 0 with (Z.of_nat 0). change 8 with (Z.of_nat 8).
  change 12 with (Z.of_nat 12). change 16 with (Z.of_nat 16).
  change 20 with (Z.of_nat 20). change 24 with (Z.of_nat 24).
  rewrite !getUint_middle by lia. unfold_bind.
  destruct (MAX_SAFE_INTEGER <? fieldAt 8 0 offs); reflexivity.
Qed.

Lemma offset_table_precedes_last_trailer_witness :
  readOffsetTable Fixture.plain = Ok (mkOffsets 48 (mkPtr 8 40) 0 (mkPtr 0 0)).
Proof.
  exact (offset_table_precedes_last_trailer (take 48 Fixture.plain)
           (take 32 (drop 48 Fixture.plain)) eq_refl).
Defined.

(** ** The characters of a sanitized path *)

Lemma existsS_filterS_removed (q keep : ascii -> bool) (s : string) :
  (forall c, q c = true -> keep c = false) ->
  existsS q (filterS keep s) = false.
Proof.
  intros Hq. induction s as [|c r IH]; simpl; [reflexivity|].
  destruct (keep c) eqn:Hk; [|exact IH]. simpl. rewrite IH, orb_false_r.
  destruct (q c) eqn:Hc; [|reflexivity]. apply Hq in Hc. congruence.
Qed.

Lemma existsS_filterS_kept (q keep : ascii -> bool) (s : string) :
  existsS q s = false -> existsS q (filterS keep s) = false.
Proof.
  induction s as [|c r IH]; simpl; [reflexivity|].
  intros H. apply orb_false_iff in H as [Hc Hr].
  destruct (keep c); [simpl; rewrite Hc|]; auto.
Qed.

Lemma existsS_mapS_removed (q p : ascii -> bool) (x : ascii) (s : string) :
  (forall c, q c = true -> p c = true) -> q x = false ->
  existsS q (mapS (fun c => if p c then x else c) s) = false.
Proof.
  intros Hq Hx. induction s as [|c r IH]; simpl; [reflexivity|].
  rewrite IH, orb_false_r. destruct (p c) eqn:Hp; [exact Hx|].
  destruct (q c) eqn:Hc; [|reflexivity]. apply Hq in Hc. congruence.
Qed.

Lemma existsS_mapS_kept (q p : ascii -> bool) (x : ascii) (s : string) :
  q x = false -> existsS q s = false ->
  existsS q (mapS (fun c => if p c then x else c) s) = false.
Proof.
  intros Hx. induction s as [|c r IH]; simpl; [reflexivity|].
  intros H. apply orb_false_iff in H as [Hc Hr]. rewrite (IH Hr), orb_false_r.
  destruct (p c); assumption.
Qed.

(** What is left after a prefix is a part of the string. *)
Lemma existsS_matchAtoms (q : ascii -> bool) (p : list atom) :
  forall s r : string,
    matchAtoms p s = Some r -> existsS q s = false -> existsS q r = false.
Proof.
  induction p as [|a p IH]; intros s r; simpl.
  - now intros [= <-].
  - destruct s as [|c s']; [discriminate|].
    destruct (atomMatches a c); [|discriminate].
    intros Hm H. simpl in H. apply orb_false_iff in H as [_ Hr]. eauto.
Qed.

Lemma existsS_stripPrefix (q : ascii -> bool) (s : string) (p : prefixPattern) :
  existsS q s = false -> existsS q (stripPrefix s p) = false.
Proof.
  intros Hs. unfold stripPrefix.
  destruct (matchPrefix p s) as [r|] eqn:Hm; [|exact Hs].
  destruct p as [atoms|]; simpl in Hm.
  - eapply existsS_matchAtoms; eassumption.
  - destruct s as [|c1 [|c2 s']]; try discriminate.
    destruct (isDot c1 && isSlash c2); [|discriminate].
    injection Hm as <-. apply existsS_dropWhileS.
    simpl in Hs. apply orb_false_iff in Hs as [_ Hs].
    now apply orb_false_iff in Hs as [_ Hs].
Qed.

Lemma existsS_stripPrefixes (q : ascii -> bool) (ps : list prefixPattern) :
  forall s : string,
    existsS q s = false -> existsS q (fold_left stripPrefix ps s) = false.
Proof.
  induction ps as [|p ps IH]; intros s Hs; simpl; [exact Hs|].
  apply IH. now apply existsS_stripPrefix.
Qed.

Lemma existsS_concat (q : ascii -> bool) (sep : string) (parts : list string) :
  existsS q sep = false ->
  Forall (fun part => existsS q part = false) parts ->
  existsS q (String.concat sep parts) = false.
Proof.
  intros Hsep. induction 1 as [|x l Hx Hl IH]; [reflexivity|].
  destruct l as [|y l']; [exact Hx|].
  change (String.concat sep (x :: y :: l'))
    with (x +:+ sep +:+ String.concat sep (y :: l')).
  now rewrite !existsS_append, Hx, Hsep, IH.
Qed.

(** A class of code units that the cleaning removes is absent from the
    sanitized path. *)
Lemma sanitize_class (q : ascii -> bool) (original : string) :
  q "/"%char = false ->
  existsS q (cleanedPath original) = false ->
  existsS q (sanitizeModulePath original) = false.
Proof.
  intros Hslash Hclean. unfold sanitizeModulePath. cbv zeta.
  apply existsS_concat; [simpl; now rewrite Hslash|].
  apply Forall_filter_of. now apply splitOn_pieces_class.
Qed.

Lemma existsS_forbidden (s : string) :
  existsS isIllegal s = false ->
  existsS (fun c => Ascii.eqb c NUL) s = false ->
  existsS (fun c => Ascii.eqb c CR) s = false ->
  existsS isBackslash s = false ->
  existsS isForbidden s = false.
Proof.
  induction s as [|c r IH]; simpl; [reflexivity|].
  intros H1 H2 H3 H4.
  apply orb_false_iff in H1 as [C1 R1]. apply orb_false_iff in H2 as [C2 R2].
  apply orb_false_iff in H3 as [C3 R3]. apply orb_false_iff in H4 as [C4 R4].
  rewrite (IH R1 R2 R3 R4), orb_false_r.
  unfold isForbidden. now rewrite C1, C2, C3, C4.
Qed.

Lemma sanitize_not_forbidden (original : string) :
  existsS isForbidden (sanitizeModulePath original) = false.
Proof.
  apply existsS_forbidden.
  - apply sanitize_class; [reflexivity|]. unfold cleanedPath. cbv zeta.
    apply existsS_dropWhileS.
    apply existsS_mapS_kept; [reflexivity|].
    apply existsS_filterS_kept.
    apply existsS_mapS_removed; [auto|reflexivity].
  - apply sanitize_class; [reflexivity|]. unfold cleanedPath. cbv zeta.
    apply existsS_dropWhileS.
    apply existsS_mapS_kept; [reflexivity|].
    apply existsS_filterS_kept.
    apply existsS_mapS_kept; [reflexivity|].
    apply existsS_stripPrefixes.
    apply existsS_filterS_removed. intros c ->. reflexivity.
  - apply sanitize_class; [reflexivity|]. unfold cleanedPath. cbv zeta.
    apply existsS_dropWhileS.
    apply existsS_mapS_kept; [reflexivity|].
    apply existsS_filterS_removed. intros c ->. reflexivity.
  - apply sanitize_class; [reflexivity|]. apply cleanedPath_no_backslash.
Qed.

(** Whatever the virtual path, the sanitized path holds none of the code
    units that are removed or replaced: no NUL, no carriage return, no
    backslash, and none of the seven code units of [isIllegal] (colon,
    star, question mark, double quote, angle brackets, bar).  So each of
    its segments is free of them too. *)
Theorem sanitized_path_has_no_forbidden_character (original : string) :
  existsS isForbidden (sanitizeModulePath original) = false
  /\ Forall (fun part => existsS isForbidden part = false)
            (splitOn isSlash (sanitizeModulePath original)).
Proof.
  split; [apply sanitize_not_forbidden|].
  apply splitOn_pieces_class, sanitize_not_forbidden.
Qed.

(** ** The last fallback of the path chooser *)

Lemma dropWhileS_head (p : ascii -> bool) (s : string) (c : ascii) (r : string) :
  dropWhileS p s = String c r -> p c = false.
Proof.
  induction s as [|x s IH]; simpl; [discriminate|].
  destruct (p x) eqn:Hx; [exact IH|]. now intros [= <- _].
Qed.

Lemma splitOn_head (sep : ascii -> bool) (c : ascii) (r : string) :
  sep c = false ->
  exists piece pieces, splitOn sep (String c r) = String c piece :: pieces.
Proof.
  intros Hc. simpl. rewrite Hc.
  destruct (splitOn sep r) as [|piece pieces]; eauto.
Qed.

Lemma concat_head (sep : string) (c : ascii) (x : string) (l : list string) :
  exists rest, String.concat sep (String c x :: l) = String c rest.
Proof.
  destruct l as [|y l']; [now exists x|].
  exists (x +:+ sep +:+ String.concat sep (y :: l')). reflexivity.
Qed.

(** The join of the pieces of a candidate that does not begin with a
    separator begins like the candidate. *)
Lemma joined_head (sep : string) (c : ascii) (r : string) :
  isSlashOrBackslash c = false ->
  exists rest,
    String.concat sep (List.filter nonEmpty (splitOn isSlashOrBackslash (String c r)))
    = String c rest.
Proof.
  intros Hc. destruct (splitOn_head _ c r Hc) as (piece & pieces & ->).
  simpl. apply concat_head.
Qed.

(** For every host, the path joined in [chooseRelativePath] is not empty:
    the candidate split is a fallback name or begins with a code unit
    that is no separator.  So the test [!finalPath] never holds, and the
    fallback name without extension that follows it is never used. *)
Theorem extensionless_fallback_is_never_used (h : Host) (m : ModuleRecord) (index : nat) :
  joinedPathOf h m index <> ""
  /\ finalPathOf h m index = joinedPathOf h m index.
Proof.
  assert (exists c rest, joinedPathOf h m index = String c rest) as (c0 & rest & Hj).
  { unfold joinedPathOf. cbv zeta.
    set (c1 := dropWhileS isSlashOrBackslash _).
    assert (exists rest0, fallbackName m index = String "m" rest0) as (rest0 & Hfb)
        by (eexists; reflexivity).
    destruct (String.eqb c1 "" || path_isAbsolute h c1) eqn:Htest.
    - rewrite Hfb. destruct (joined_head (path_sep h) "m" rest0 eq_refl) as (rest & ->).
      now exists "m"%char, rest.
    - apply orb_false_iff in Htest as [Hne _].
      destruct c1 as [|c r] eqn:Hc1; [discriminate|].
      pose proof (dropWhileS_head _ _ _ _ Hc1) as Hc.
      destruct (joined_head (path_sep h) c r Hc) as (rest & ->).
      now exists c, rest. }
  assert (joinedPathOf h m index <> "") as Hne by (rewrite Hj; discriminate).
  split; [exact Hne|].
  unfold finalPathOf. cbv zeta. fold (joinedPathOf h m index).
  destruct (String.eqb_spec (joinedPathOf h m index) ""); [contradiction|reflexivity].
Qed.

(** ** The order of the writes *)

Lemma moduleWrites_ops (h : Host) (target : string) (m : ModuleRecord) :
  forallb isModuleOp (moduleWrites h target m) = true.
Proof.
  unfold moduleWrites, optionalWrite.
  destruct (sourcemap m), (bytecode m); reflexivity.
Qed.

Lemma planWrites_ops (h : Host) (ro : string) (ms : list ModuleRecord) :
  forall (index : nat) (used : gmap string nat),
    forallb isModuleOp (planWrites h ro ms index used) = true.
Proof.
  induction ms as [|m rest IH]; intros index used; [reflexivity|].
  cbn [planWrites]. destruct (chooseRelativePath h m index used) as [p used'].
  rewrite forallb_app, moduleWrites_ops, IH. reflexivity.
Qed.

Lemma no_manifest_among_module_ops (ops : list FsOp) (p : string) (mf : Manifest) :
  forallb isModuleOp ops = true -> ~ In (WriteFile p (Json mf)) ops.
Proof.
  intros Hall Hin. rewrite forallb_forall in Hall.
  specialize (Hall _ Hin). discriminate.
Qed.

(** A run of [writeOutputs] that returns has issued, in this order: the
    [mkdir] of the output directory; the calls of the modules, in record
    order; the write of the argument file, if the arguments are not
    empty; and the write of [metadata.json], which carries the entry
    point and the arguments of the bundle.  A run that throws has written
    no manifest. *)
Theorem manifest_is_the_last_write (h : Host) (parsed : ParsedStandalone)
    (outputDir : string) :
  let ro := path_resolve h [outputDir] in
  let run := writeOutputs h parsed outputDir in
  (forall manifest,
      run.2 = Ok manifest ->
      run.1 = Mkdir ro :: planWrites h ro (modules parsed) 0 ∅
              ++ argvWrites h ro (compileExecArgv parsed)
              ++ [WriteFile (path_resolve h [ro; "metadata.json"]) (Json manifest)]
      /\ forallb isModuleOp (Mkdir ro :: planWrites h ro (modules parsed) 0 ∅) = true
      /\ mf_entryPointId manifest = entryPointId parsed
      /\ mf_compileExecArgv manifest = compileExecArgv parsed)
  /\ (forall e, run.2 = Err e -> forallb isModuleOp run.1 = true)
  /\ (forall p mf, In (WriteFile p (Json mf)) run.1 -> run.2 = Ok mf).
Proof.
  cbv zeta. unfold writeOutputs.
  destruct (writeModules h (path_resolve h [outputDir])
              (mkState [] ∅ [Mkdir (path_resolve h [outputDir])]) 0 (modules parsed))
    as [st oe] eqn:Hrun.
  apply writeModules_run in Hrun as (k & Hmeta & Hfs & _ & Hoe).
  simpl in Hmeta, Hfs, Hoe.
  destruct oe as [e|]; simpl.
  - split; [discriminate|]. split.
    + intros _ _. rewrite Hfs. simpl. apply planWrites_ops.
    + intros p mf Hin. exfalso. revert Hin. rewrite Hfs.
      apply no_manifest_among_module_ops. simpl. apply planWrites_ops.
  - subst k. rewrite firstn_all in Hfs, Hmeta. split; [|split; [discriminate|]].
    + intros manifest [= <-]. simpl. rewrite Hfs. simpl.
      split; [reflexivity|]. split; [apply planWrites_ops|]. split; reflexivity.
    + intros p mf Hin. rewrite Hfs in Hin. simpl in Hin.
      destruct Hin as [Hin|Hin]; [discriminate|].
      apply in_app_or in Hin as [Hin|Hin].
      { exfalso. revert Hin. apply no_manifest_among_module_ops, planWrites_ops. }
      apply in_app_or in Hin as [Hin|Hin].
      { exfalso. destruct (0 <? String.length (compileExecArgv parsed))%nat;
          simpl in Hin; [destruct Hin as [Hin|[]]; discriminate|contradiction]. }
      destruct Hin as [Hin|[]]. injection Hin as _ <-. reflexivity.
Qed.

(** ** Fallback names *)








(** ** The paths handed to the writer on a POSIX host *)

Lemma finalPathOf_class (q : ascii -> bool) (h : Host) (m : ModuleRecord) (index : nat) :
  existsS q (path_sep h) = false ->
  existsS q (sanitizeModulePath (originalPath m)) = false ->
  existsS q (fallbackName m index) = false ->
  existsS q (moduleNumber index) = false ->
  existsS q (finalPathOf h m index) = false.
Proof.
  intros Hsep Hsan Hfb Hnum. unfold finalPathOf. cbv zeta.
  set (c0 := if String.eqb (sanitizeModulePath (originalPath m)) ""
             then fallbackName m index else sanitizeModulePath (originalPath m)).
  assert (existsS q c0 = false) as H0 by (unfold c0; destruct (String.eqb _ _); assumption).
  set (c1 := dropWhileS isSlashOrBackslash c0).
  assert (existsS q c1 = false) as H1 by now apply existsS_dropWhileS.
  set (c2 := if String.eqb c1 "" || path_isAbsolute h c1 then fallbackName m index else c1).
  assert (existsS q c2 = false) as H2 by (unfold c2; destruct (_ || _); assumption).
  set (joined := String.concat (path_sep h) _).
  assert (existsS q joined = false) as Hj.
  { unfold joined. apply existsS_concat; [assumption|].
    apply Forall_filter_of. now apply splitOn_pieces_class. }
  destruct (String.eqb joined ""); assumption.
Qed.

Lemma digit_not_forbidden (c : ascii) : isDigit c = true -> isForbidden c = false.
Proof.
  destruct c as [[] [] [] [] [] [] [] []]; vm_compute; intros H;
    first [reflexivity | discriminate].
Qed.

Lemma moduleNumber_not_forbidden (index : nat) :
  existsS isForbidden (moduleNumber index) = false.
Proof.
  unfold moduleNumber, padStart0. rewrite !existsS_append.
  rewrite zeros_class by reflexivity.
  rewrite natToString_class by apply digit_not_forbidden. reflexivity.
Qed.

Lemma fallbackName_not_forbidden (m : ModuleRecord) (index : nat) :
  existsS isForbidden (fallbackName m index) = false.
Proof.
  unfold fallbackName. rewrite existsS_append, moduleNumber_not_forbidden.
  destruct (loaderDefaultExtensions (loader m)) as [e|] eqn:E; [|reflexivity].
  unfold loaderDefaultExtensions in E.
  repeat match type of E with
         | context [match ?x with _ => _ end] => destruct x; try discriminate
         end;
    injection E as <-; reflexivity.
Qed.

(** On a POSIX host, whatever the record, the index and the table, the
    path [chooseRelativePath] returns is a relative path: segments
    joined by [/], none of them empty, [..] or with a slash inside.  It
    does not begin with a slash, and it holds no backslash, NUL, carriage
    return or code unit of [isIllegal]. *)
Theorem chosen_path_is_clean_on_posix (cwd : string) (m : ModuleRecord)
    (index : nat) (used : gmap string nat) :
  let rel := (chooseRelativePath (Posix.host cwd) m index used).1 in
  plainPath rel
  /\ Posix.isAbsolute rel = false
  /\ existsS isForbidden rel = false.
Proof.
  cbv zeta. pose proof (chooseRelativePath_plain cwd m index used) as Hplain.
  split; [exact Hplain|]. split; [now apply plainPath_relative|].
  set (h := Posix.host cwd) in *.
  assert (existsS isForbidden (finalPathOf h m index) = false) as Hfp.
  { apply finalPathOf_class; [reflexivity| | |].
    - apply sanitize_not_forbidden.
    - apply fallbackName_not_forbidden.
    - apply moduleNumber_not_forbidden. }
  destruct (used !! keyOf h m index) as [n|] eqn:Hk.
  - rewrite (chooseRelativePath_repeat _ _ _ _ _ Hk). simpl.
    pose proof (finalPathOf_plain h m index eq_refl) as Hfplain.
    destruct (plainPath_endsIn _ Hfplain) as (q & c & Hq & Hc).
    pose proof (posix_extname_suffix _ q c Hq Hc) as Hsplit.
    unfold withSuffix. simpl path_extname.
    rewrite Hsplit, existsS_append in Hfp. apply orb_false_iff in Hfp as [Hbase Hext].
    rewrite !existsS_append, Hbase, Hext.
    rewrite natToString_class by apply digit_not_forbidden. reflexivity.
  - rewrite (chooseRelativePath_fresh _ _ _ _ Hk). exact Hfp.
Qed.

(** ** Where the bytes of a module come from *)

Lemma slicePointer_slice (payload : list byte) (ptr : StringPointer) (d : list byte) :
  0 <= ptr_offset ptr -> 0 <= ptr_length ptr ->
  slicePointer payload ptr = Ok d ->
  (ptr_length ptr = 0 /\ d = [])
  \/ (0 < ptr_length ptr /\ blen d = ptr_length ptr
      /\ ptr_offset ptr + ptr_length ptr <= blen payload
      /\ d = take (length d) (drop (Z.to_nat (ptr_offset ptr)) payload)).
Proof.
  intros Hoff Hlen. unfold slicePointer.
  destruct (Z.eqb_spec (ptr_length ptr) 0) as [Hz|Hnz].
  - intros [= <-]. now left.
  - destruct (Z.ltb_spec (blen payload) (ptr_offset ptr + ptr_length ptr));
      [discriminate|].
    intros [= <-]. right.
    assert (blen (subarray payload (ptr_offset ptr) (ptr_offset ptr + ptr_length ptr))
            = ptr_length ptr) as Hb by (rewrite subarray_blen by lia; lia).
    split; [lia|]. split; [exact Hb|]. split; [assumption|].
    rewrite subarray_in_range by lia.
    rewrite subarray_in_range in Hb by lia. unfold blen in Hb.
    rewrite length_take in *. f_equal. rewrite length_drop in *. lia.
Qed.

(** A slice of the truncated payload is a slice of the blob that ends at
    [byte_count] or before. *)
Lemma slice_of_payload (blob : list byte) (count : Z) (off : nat) (d : list byte) :
  0 <= count <= blen blob ->
  Z.of_nat off + blen d <= count ->
  d = take (length d) (drop off (subarray blob 0 count)) ->
  sliceWithin blob count d.
Proof.
  intros Hcount Hend Hd. exists off. split; [exact Hend|].
  rewrite Hd at 1. rewrite subarray_in_range by lia.
  rewrite Z.sub_0_r. simpl Z.to_nat. rewrite drop_0.
  rewrite skipn_firstn_comm, take_take. f_equal. unfold blen in *. lia.
Qed.

Lemma slicePointer_within (blob : list byte) (count : Z) (ptr : StringPointer)
    (d : list byte) :
  0 <= count <= blen blob ->
  0 <= ptr_offset ptr -> 0 <= ptr_length ptr ->
  slicePointer (subarray blob 0 count) ptr = Ok d ->
  sliceWithin blob count d.
Proof.
  intros Hcount Hoff Hlen Hs.
  assert (blen (subarray blob 0 count) = count) as Hp
      by (rewrite subarray_blen by lia; lia).
  destruct (slicePointer_slice _ _ _ Hoff Hlen Hs) as [(_ & ->)|(_ & Hb & Hend & Hd)].
  - exists 0%nat. split; [simpl; unfold blen; simpl; lia|reflexivity].
  - apply (slice_of_payload blob count (Z.to_nat (ptr_offset ptr))); [lia|lia|exact Hd].
Qed.

Lemma sliceOptional_within (blob : list byte) (count : Z) (ptr : StringPointer)
    (o : option (list byte)) :
  0 <= count <= blen blob ->
  0 <= ptr_offset ptr -> 0 <= ptr_length ptr ->
  sliceOptional (subarray blob 0 count) ptr = Ok o ->
  forall d, o = Some d -> d <> [] /\ sliceWithin blob count d.
Proof.
  intros Hcount Hoff Hlen. unfold sliceOptional.
  destruct (Z.ltb_spec 0 (ptr_length ptr)) as [Hpos|]; [|intros [= <-]; discriminate].
  unfold_bind.
  destruct (slicePointer (subarray blob 0 count) ptr) as [d0|] eqn:Hs; [|discriminate].
  intros [= <-] d [= <-]. split.
  - destruct (slicePointer_slice _ _ _ Hoff Hlen Hs) as [(Hz & _)|(_ & Hb & _)]; [lia|].
    intros ->. unfold blen in Hb. simpl in Hb. lia.
  - eapply slicePointer_within; eassumption.
Qed.

(** The contents of every parsed module, and its source map and its
    bytecode when it has them, are runs of consecutive bytes of the blob
    that end at [byte_count] or before: nothing is read from behind the
    payload.  A source map or bytecode that is there is not empty. *)
Theorem module_bytes_are_slices_of_the_payload (h : Host) (blob : list byte)
    (t : OffsetTable) (parsed : ParsedStandalone) (k : nat) (m : ModuleRecord) :
  readOffsetTable blob = Ok t ->
  parseStandalone h blob = Ok parsed ->
  modules parsed !! k = Some m ->
  byteCount t <= blen blob
  /\ sliceWithin blob (byteCount t) (contents m)
  /\ (forall sm, sourcemap m = Some sm -> sm <> [] /\ sliceWithin blob (byteCount t) sm)
  /\ (forall bc, bytecode m = Some bc -> bc <> [] /\ sliceWithin blob (byteCount t) bc).
Proof.
  intros Ht Hparsed Hk.
  pose proof (readOffsetTable_shape blob) as Hshape. rewrite Ht in Hshape.
  destruct Hshape as (Hcount & Hoff & Hlen).
  pose proof (parseTable_result h blob t Hcount Hoff Hlen) as Hp.
  rewrite parseStandalone_phases, Ht in Hparsed. simpl in Hparsed.
  rewrite Hparsed in Hp. destruct (Hp k m Hk) as (Hrec & _ & _ & _ & Hle).
  split; [exact Hle|].
  destruct (parseRecord_pointers _ _ _ _ Hrec) as (pn & pc & ps & pb & _ & Hc & Hs & Hb).
  destruct (parseRecord_contents _ _ _ _ _ _ _ Hrec Hc Hs Hb) as (Hbody & Hsm & Hbc).
  destruct (fieldPointer_nonneg _ _ _ _ Hc) as [Hc1 Hc2].
  destruct (fieldPointer_nonneg _ _ _ _ Hs) as [Hs1 Hs2].
  destruct (fieldPointer_nonneg _ _ _ _ Hb) as [Hb1 Hb2].
  split; [eapply slicePointer_within; [lia|exact Hc1|exact Hc2|exact Hbody]|].
  split.
  - eapply sliceOptional_within; [lia|exact Hs1|exact Hs2|exact Hsm].
  - eapply sliceOptional_within; [lia|exact Hb1|exact Hb2|exact Hbc].
Qed.

Lemma module_bytes_are_slices_of_the_payload_witness :
  let m := mkModule "a.js" (list_byte_of_string "hi") None None 0 1 0 0 in
  48 <= blen Fixture.plain
  /\ sliceWithin Fixture.plain 48 (contents m)
  /\ (forall sm, sourcemap m = Some sm -> sm <> [] /\ sliceWithin Fixture.plain 48 sm)
  /\ (forall bc, bytecode m = Some bc -> bc <> [] /\ sliceWithin Fixture.plain 48 bc).
Proof.
  exact (module_bytes_are_slices_of_the_payload (Posix.host "/work") Fixture.plain
           (mkOffsets 48 (mkPtr 8 40) 0 (mkPtr 0 0))
           (mkParsed [mkModule "a.js" (list_byte_of_string "hi") None None 0 1 0 0] 0 "")
           0 (mkModule "a.js" (list_byte_of_string "hi") None None 0 1 0 0)
           eq_refl eq_refl eq_refl).
Defined.

(** ** The name of a section *)

Lemma untilNull_prefix (name rest : list byte) :
  Forall (fun b => byteZ b <> 0) name ->
  untilNull (name ++ "000"%byte :: rest) = name /\ untilNull name = name.
Proof.
  induction 1 as [|x name Hx _ [IH1 IH2]]; [split; reflexivity|]. simpl.
  destruct (Z.eqb_spec (byteZ x) 0); [contradiction|]. now rewrite IH1, IH2.
Qed.

(** The name of a section is read up to its first NUL byte, or whole when
    it has none: what stands in the 8 bytes behind the first NUL does not
    count, so a section is taken for [.bun] whenever its name begins with
    [.bun] and a NUL. *)
Theorem section_name_ends_at_first_null (h : Host) (name rest : list byte) :
  Forall (fun b => byteZ b <> 0) name ->
  decodeAsciiNullTerminated h (name ++ "000"%byte :: rest) = textDecoder_decode h name
  /\ decodeAsciiNullTerminated h name = textDecoder_decode h name.
Proof.
  intros Hname. unfold decodeAsciiNullTerminated.
  destruct (untilNull_prefix name rest Hname) as [-> ->]. split; reflexivity.
Qed.

Lemma section_name_ends_at_first_null_witness :
  decodeAsciiNullTerminated (Posix.host "/work")
    (list_byte_of_string ".bun" ++ "000"%byte :: list_byte_of_string "xyz")
  = ".bun"
  /\ decodeAsciiNullTerminated (Posix.host "/work") (list_byte_of_string ".bun") = ".bun".
Proof.
  refine (section_name_ends_at_first_null (Posix.host "/work")
            (list_byte_of_string ".bun") (list_byte_of_string "xyz") _).
  repeat constructor; discriminate.
Defined.

(** ** A path of dots *)




(** ** Paths below the root of the bundle *)

Lemma filterS_all (keep : ascii -> bool) (s : string) :
  existsS (fun c => negb (keep c)) s = false -> filterS keep s = s.
Proof.
  induction s as [|c r IH]; [reflexivity|]. simpl.
  intros H. apply orb_false_iff in H as [Hc Hr].
  apply negb_false_iff in Hc. now rewrite Hc, (IH Hr).
Qed.

Lemma mapS_none (p : ascii -> bool) (x : ascii) (s : string) :
  existsS p s = false -> mapS (fun c => if p c then x else c) s = s.
Proof.
  induction s as [|c r IH]; [reflexivity|]. simpl.
  intros H. apply orb_false_iff in H as [Hc Hr]. now rewrite Hc, (IH Hr).
Qed.

Lemma existsS_weaken (p q : ascii -> bool) (s : string) :
  (forall c, p c = true -> q c = true) -> existsS q s = false -> existsS p s = false.
Proof.
  intros Hpq. induction s as [|c r IH]; [reflexivity|]. simpl.
  intros H. apply orb_false_iff in H as [Hc Hr]. rewrite (IH Hr), orb_false_r.
  destruct (p c) eqn:E; [|reflexivity]. apply Hpq in E. congruence.
Qed.

(** A pattern of literal code units matches exactly the strings that
    begin with them. *)
Lemma matchAtoms_lits (p s : string) :
  matchAtoms (lits p) s
  = if String.prefix p s then Some (dropS (String.length p) s) else None.
Proof.
  revert s. induction p as [|x p IH]; intros s.
  - simpl. rewrite dropS_0. now destruct s.
  - destruct s as [|y s]; [reflexivity|].
    cbn [lits list_ascii_of_string map matchAtoms atomMatches String.prefix].
    fold (lits p). simpl String.length. rewrite dropS_cons.
    destruct (ascii_dec x y) as [->|Hne].
    + rewrite Ascii.eqb_refl. apply IH.
    + destruct (Ascii.eqb_spec x y); [contradiction|reflexivity].
Qed.

(** A pattern whose second code unit is a colon matches no string
    without a colon. *)
Lemma matchAtoms_colon (a : atom) (p : list atom) (s : string) :
  existsS (fun c => Ascii.eqb c ":") s = false ->
  matchAtoms (a :: LitI ":" :: p) s = None.
Proof.
  intros Hs. destruct s as [|c1 [|c2 s']]; cbn [matchAtoms atomMatches].
  - reflexivity.
  - now destruct (atomMatches a c1).
  - destruct (atomMatches a c1); [|reflexivity].
    simpl in Hs. apply orb_false_iff in Hs as [_ Hs].
    apply orb_false_iff in Hs as [Hc2 _].
    assert (Ascii.eqb (upperAscii ":") (upperAscii c2) = false) as ->; [|reflexivity].
    apply Ascii.eqb_neq. intros E. apply Ascii.eqb_neq in Hc2. apply Hc2.
    revert E. clear. destruct c2 as [[] [] [] [] [] [] [] []]; vm_compute;
      intros E; first [reflexivity | discriminate].
Qed.

(** No prefix of the list is taken off a clean relative path. *)
Lemma stripPrefix_clean (rel : string) :
  cleanRelative rel -> Forall (fun p => stripPrefix rel p = rel) prefixes.
Proof.
  intros (Hplain & Hforb & Hdot & Hroot).
  assert (existsS (fun c => Ascii.eqb c ":") rel = false) as Hcolon.
  { eapply existsS_weaken; [|exact Hforb]. intros c Hc.
    unfold isForbidden, isIllegal. now rewrite Hc. }
  destruct (plainPath_relative rel Hplain) as [_ Habs].
  assert (forall p, matchAtoms (Lit "/" :: p) rel = None) as Hslash.
  { intros p. destruct rel as [|c r]; [reflexivity|].
    cbn [matchAtoms atomMatches]. cbn [Posix.isAbsolute] in Habs.
    unfold isSlash in Habs. rewrite Ascii.eqb_sym in Habs. now rewrite Habs. }
  assert (forall a p, stripPrefix rel (Atoms (a :: LitI ":" :: p)) = rel) as Hc
      by (intros a p; unfold stripPrefix; cbn [matchPrefix]; now rewrite matchAtoms_colon).
  assert (forall p, stripPrefix rel (Atoms (Lit "/" :: p)) = rel) as Hs
      by (intros p; unfold stripPrefix; cbn [matchPrefix]; now rewrite Hslash).
  unfold prefixes.
  repeat (apply List.Forall_cons; [first [apply Hc | apply Hs | idtac]|]);
    [| |apply List.Forall_nil].
  - unfold stripPrefix. cbn [matchPrefix]. destruct rel as [|c1 [|c2 r]]; try reflexivity.
    cbn [String.prefix] in Hdot. unfold isDot.
    destruct (ascii_dec "." c1) as [<-|Hne]; [now destruct c2; discriminate|].
    destruct (Ascii.eqb_spec c1 "."); [congruence|reflexivity].
  - unfold stripPrefix. cbn [matchPrefix]. now rewrite matchAtoms_lits, Hroot.
Qed.

Lemma stripPrefixes_fixed (rel : string) (ps : list prefixPattern) :
  Forall (fun p => stripPrefix rel p = rel) ps -> fold_left stripPrefix ps rel = rel.
Proof.
  induction 1 as [|p ps Hp _ IH]; [reflexivity|]. simpl. now rewrite Hp.
Qed.

Lemma filter_keptPart_plain (segs : list string) :
  Forall plainSegment segs -> List.filter keptPart segs = segs.
Proof.
  induction 1 as [|x l (H1 & H2 & _) _ IH]; [reflexivity|]. simpl.
  unfold keptPart at 1.
  destruct (String.eqb_spec x ""); [contradiction|].
  destruct (String.eqb_spec x ".."); [contradiction|]. simpl. now rewrite IH.
Qed.

(** The steps of the cleaning after the prefixes leave a clean relative
    path as it is, and so do the split and the join. *)
Lemma sanitize_after_prefixes (original rel : string) :
  cleanRelative rel ->
  fold_left stripPrefix prefixes (filterS (fun c => negb (Ascii.eqb c NUL)) original) = rel ->
  sanitizeModulePath original = rel.
Proof.
  intros (Hplain & Hforb & Hdot & Hroot) Hstrip.
  unfold sanitizeModulePath, cleanedPath. cbv zeta. rewrite Hstrip.
  assert (mapS (fun c => if isIllegal c then "_"%char else c) rel = rel) as ->.
  { apply mapS_none. eapply existsS_weaken; [|exact Hforb]. intros c Hc.
    unfold isForbidden. now rewrite Hc. }
  assert (filterS (fun c => negb (Ascii.eqb c CR)) rel = rel) as ->.
  { apply filterS_all. eapply existsS_weaken; [|exact Hforb]. intros c Hc.
    apply negb_true_iff, negb_false_iff in Hc.
    unfold isForbidden. rewrite Hc. now rewrite !orb_true_r. }
  assert (mapS (fun c => if Ascii.eqb c "\" then "/"%char else c) rel = rel) as ->.
  { apply (mapS_none (fun c => Ascii.eqb c "\")).
    eapply existsS_weaken; [|exact Hforb]. intros c Hc.
    unfold isForbidden, isBackslash. rewrite Hc. now rewrite !orb_true_r. }
  assert (dropWhileS isDot rel = rel) as ->.
  { destruct rel as [|c r]; [reflexivity|]. simpl.
    cbn [String.prefix] in Hdot. unfold isDot.
    destruct (ascii_dec "." c) as [<-|Hne]; [now destruct r; discriminate|].
    destruct (Ascii.eqb_spec c "."); [congruence|reflexivity]. }
  destruct Hplain as (segs & Hne & Hall & Hrel).
  rewrite (plainPath_split rel segs Hne Hall Hrel).
  rewrite filter_keptPart_plain by assumption. now symmetry.
Qed.

(** A clean relative path comes out of [sanitizeModulePath] as it went
    in, and so when it stands behind the root of the bundle, written for
    Windows ([B:/~BUN/root/], in either case of the letters) or for a
    POSIX host ([/$bunfs/root/]): the root is taken off and the rest is
    kept. *)
Theorem bundle_root_is_taken_off (rel : string) :
  cleanRelative rel ->
  sanitizeModulePath rel = rel
  /\ sanitizeModulePath ("B:/~BUN/root/" +:+ rel) = rel
  /\ sanitizeModulePath ("b:/~bun/root/" +:+ rel) = rel
  /\ sanitizeModulePath ("/$bunfs/root/" +:+ rel) = rel.
Proof.
  intros Hclean.
  pose proof (stripPrefix_clean rel Hclean) as Hfixed.
  assert (filterS (fun c => negb (Ascii.eqb c NUL)) rel = rel) as Hnul.
  { apply filterS_all. destruct Hclean as (_ & Hforb & _).
    eapply existsS_weaken; [|exact Hforb]. intros c Hc.
    apply negb_true_iff, negb_false_iff in Hc.
    unfold isForbidden. rewrite Hc. now rewrite !orb_true_r. }
  assert (forall p, In p prefixes -> stripPrefix rel p = rel) as Hin
      by (now apply List.Forall_forall).
  split; [|split; [|split]]; apply sanitize_after_prefixes; try assumption.
  - rewrite Hnul. now apply stripPrefixes_fixed.
  - change (filterS _ ("B:/~BUN/root/" +:+ rel))
      with ("B:/~BUN/root/" +:+ filterS (fun c => negb (Ascii.eqb c NUL)) rel).
    rewrite Hnul. unfold prefixes. cbn [fold_left].
    change (stripPrefix ("B:/~BUN/root/" +:+ rel) (Atoms (litsI "B:/~BUN/root/")))
      with rel.
    repeat (rewrite Hin by (unfold prefixes; cbn [In]; tauto)). reflexivity.
  - change (filterS _ ("b:/~bun/root/" +:+ rel))
      with ("b:/~bun/root/" +:+ filterS (fun c => negb (Ascii.eqb c NUL)) rel).
    rewrite Hnul. unfold prefixes. cbn [fold_left].
    change (stripPrefix ("b:/~bun/root/" +:+ rel) (Atoms (litsI "B:/~BUN/root/")))
      with rel.
    repeat (rewrite Hin by (unfold prefixes; cbn [In]; tauto)). reflexivity.
  - change (filterS _ ("/$bunfs/root/" +:+ rel))
      with ("/$bunfs/root/" +:+ filterS (fun c => negb (Ascii.eqb c NUL)) rel).
    rewrite Hnul. unfold prefixes. cbn [fold_left].
    change (stripPrefix
              (stripPrefix
                 (stripPrefix ("/$bunfs/root/" +:+ rel) (Atoms (litsI "B:/~BUN/root/")))
                 (Atoms (LetterI :: litsI ":/~BUN/root/")))
              (Atoms (lits "/$bunfs/root/")))
      with rel.
    repeat (rewrite Hin by (unfold prefixes; cbn [In]; tauto)). reflexivity.
Qed.

Lemma bundle_root_is_taken_off_witness :
  cleanRelative "src/index.js"
  /\ sanitizeModulePath "src/index.js" = "src/index.js"
  /\ sanitizeModulePath "B:/~BUN/root/src/index.js" = "src/index.js"
  /\ sanitizeModulePath "b:/~bun/root/src/index.js" = "src/index.js"
  /\ sanitizeModulePath "/$bunfs/root/src/index.js" = "src/index.js".
Proof.
  assert (cleanRelative "src/index.js") as H.
  { split; [|repeat split].
    exists ["src"; "index.js"]%string. split; [discriminate|]. split; [|reflexivity].
    repeat apply List.Forall_cons; try apply List.Forall_nil;
      (split; [discriminate|split; [discriminate|reflexivity]]). }
  split; [exact H|]. exact (bundle_root_is_taken_off "src/index.js" H).
Defined.

(** * The rule script *)

(** ** Searching a string *)

Lemma indexOf_some (needle s : string) :
  forall i : nat,
    ApplyRules.indexOf needle s = Some i ->
    (i <= String.length s)%nat
    /\ String.prefix needle (dropS i s) = true
    /\ forall j : nat, (j < i)%nat -> String.prefix needle (dropS j s) = false.
Proof.
  induction s as [|c r IH]; intros i; cbn [ApplyRules.indexOf].
  - destruct (String.prefix needle "") eqn:Hp; [|discriminate].
    intros [= <-]. split; [simpl; lia|]. split; [exact Hp|]. intros j Hj. lia.
  - destruct (String.prefix needle (String c r)) eqn:Hp.
    + intros [= <-]. split; [lia|]. split; [now rewrite dropS_0|]. intros j Hj. lia.
    + destruct (ApplyRules.indexOf needle r) as [i'|]; [|discriminate].
      intros [= <-]. destruct (IH i' eq_refl) as (Hlen & Hat & Hbefore).
      split; [simpl; lia|]. split; [now rewrite dropS_cons|].
      intros [|j] Hj; [now rewrite dropS_0|]. rewrite dropS_cons. apply Hbefore. lia.
Qed.


Lemma dropS_dropS (s : string) :
  forall from n : nat,
    (from <= String.length s)%nat ->
    dropS n (dropS from s) = dropS (from + n) s.
Proof.
  induction s as [|c r IH]; intros from n Hfrom.
  - simpl in Hfrom. assert (from = 0%nat) as -> by lia. now rewrite dropS_0.
  - destruct from as [|from]; [now rewrite dropS_0|].
    rewrite dropS_cons. simpl. rewrite dropS_cons. apply IH. simpl in Hfrom. lia.
Qed.

Lemma indexOfFrom_some (needle s : string) (from i : nat) :
  (from <= String.length s)%nat ->
  ApplyRules.indexOfFrom needle s from = Some i ->
  (from <= i <= String.length s)%nat
  /\ String.prefix needle (dropS i s) = true
  /\ forall j : nat, (from <= j < i)%nat ->
                     String.prefix needle (dropS j s) = false.
Proof.
  intros Hfrom. unfold ApplyRules.indexOfFrom.
  destruct (ApplyRules.indexOf needle (dropS from s)) as [k|] eqn:Hk;
    [|discriminate].
  intros [= <-]. destruct (indexOf_some _ _ _ Hk) as (Hlen & Hat & Hbefore).
  rewrite length_dropS in Hlen.
  split; [lia|]. split; [now rewrite <- dropS_dropS|].
  intros j Hj. replace j with (from + (j - from))%nat by lia.
  rewrite <- dropS_dropS by assumption. apply Hbefore. lia.
Qed.


(** The line of the marker: [lineStartOf] stops at the start of the text
    or right after a line feed, and passes none on its way. *)
Lemma lineStartOf_spec (source : string) (m : nat) :
  let r := ApplyRules.lineStartOf source m in
  (r <= m)%nat
  /\ (r = 0%nat \/ String.get (r - 1) source = Some LF)
  /\ forall i : nat, (r <= i < m)%nat -> String.get i source <> Some LF.
Proof.
  induction m as [|i IH]; simpl.
  - split; [lia|]. split; [now left|]. intros i Hi. lia.
  - destruct (String.get i source) as [c|] eqn:Hc.
    + destruct (Ascii.eqb_spec c LF) as [->|Hne].
      * split; [lia|]. split; [right; simpl; now rewrite Nat.sub_0_r|].
        intros j Hj. lia.
      * destruct IH as (Hle & Hstart & Hnone).
        split; [lia|]. split; [exact Hstart|].
        intros j Hj. destruct (decide (j = i)) as [->|Hji].
        -- rewrite Hc. congruence.
        -- apply Hnone. lia.
    + destruct IH as (Hle & Hstart & Hnone).
      split; [lia|]. split; [exact Hstart|].
      intros j Hj. destruct (decide (j = i)) as [->|Hji].
      * rewrite Hc. discriminate.
      * apply Hnone. lia.
Qed.

(** ** The loop over the braces *)

Lemma depthOf_prefix_cons (ch : ascii) (rest : string) (j : nat) :
  ApplyRules.depthOf (substring 0 (S j) (String ch rest))
  = (if Ascii.eqb ch "{" then 1 else 0) - (if Ascii.eqb ch "}" then 1 else 0)
    + ApplyRules.depthOf (substring 0 j rest).
Proof. reflexivity. Qed.

Lemma depthOf_prefix_0 (s : string) : ApplyRules.depthOf (substring 0 0 s) = 0.
Proof. now rewrite substring_nil. Qed.

(** The loop entered at a depth above 0: it stops with depth 0 right
    after the first code unit at which the count of the braces comes
    back to 0, and otherwise runs to the end with the depth above 0
    all the way. *)
Lemma scanBraces_spec (rest : string) :
  forall (index : nat) (depth : Z),
    0 < depth ->
    let '(index', depth') := ApplyRules.scanBraces rest index depth in
    (depth' = 0
     /\ exists k : nat,
         index' = (index + k)%nat /\ (1 <= k <= String.length rest)%nat
         /\ depth + ApplyRules.depthOf (substring 0 k rest) = 0
         /\ String.get (k - 1) rest = Some "}"%char
         /\ forall j : nat, (j < k)%nat ->
                            0 < depth + ApplyRules.depthOf (substring 0 j rest))
    \/ (0 < depth'
        /\ index' = (index + String.length rest)%nat
        /\ forall j : nat, (j <= String.length rest)%nat ->
                           0 < depth + ApplyRules.depthOf (substring 0 j rest)).
Proof.
  induction rest as [|ch rest IH]; intros index depth Hd.
  - simpl. right. split; [exact Hd|]. split; [lia|].
    intros j Hj. assert (j = 0%nat) as -> by (simpl in Hj; lia). simpl. lia.
  - cbn [ApplyRules.scanBraces]. cbv zeta.
    set (open := if Ascii.eqb ch "{" then 1 else 0).
    set (close := if Ascii.eqb ch "}" then 1 else 0).
    assert (forall j, ApplyRules.depthOf (substring 0 (S j) (String ch rest))
                      = open - close + ApplyRules.depthOf (substring 0 j rest)) as Hcons
        by (intros j; apply depthOf_prefix_cons).
    set (d1 := if Ascii.eqb ch "{" then depth + 1 else depth).
    assert (d1 = depth + open) as Hd1
        by (unfold d1, open; destruct (Ascii.eqb ch "{"); lia).
    assert (0 <= open <= 1) as Hopen by (unfold open; destruct (Ascii.eqb ch "{"); lia).
    assert (open = 1 -> close = 0) as Hexcl.
    { unfold open, close. destruct (Ascii.eqb_spec ch "{") as [->|]; [reflexivity|lia]. }
    destruct (Ascii.eqb ch "}") eqn:E.
    + assert (close = 1) as Hc by reflexivity.
      assert (open = 0) as Ho by lia.
      destruct (Z.eqb_spec (d1 - 1) 0) as [H0|Hn0].
      * left. split; [exact H0|]. exists 1%nat.
        split; [lia|]. split; [simpl; lia|].
        split; [rewrite Hcons, depthOf_prefix_0; lia|].
        split; [simpl; f_equal; now apply Ascii.eqb_eq|].
        intros j Hj. assert (j = 0%nat) as -> by lia. rewrite depthOf_prefix_0. lia.
      * specialize (IH (S index) (d1 - 1) ltac:(lia)).
        destruct (ApplyRules.scanBraces rest (S index) (d1 - 1)) as [i' d'].
        destruct IH as [(Hd' & k & Hi & Hk & Hsum & Hget & Hpos)|(Hd' & Hi & Hpos)].
        -- left. split; [exact Hd'|]. exists (S k).
           split; [lia|]. split; [simpl; lia|]. split; [rewrite Hcons; lia|].
           split.
           { destruct k as [|k]; [lia|]. simpl in *. now rewrite Nat.sub_0_r in Hget. }
           intros [|j] Hj; [rewrite depthOf_prefix_0; lia|].
           rewrite Hcons. specialize (Hpos j ltac:(lia)). lia.
        -- right. split; [exact Hd'|]. split; [simpl; lia|].
           intros [|j] Hj; [rewrite depthOf_prefix_0; lia|].
           rewrite Hcons. simpl in Hj. specialize (Hpos j ltac:(lia)). lia.
    + assert (close = 0) as Hc by reflexivity.
      specialize (IH (S index) d1 ltac:(lia)).
      destruct (ApplyRules.scanBraces rest (S index) d1) as [i' d'].
      destruct IH as [(Hd' & k & Hi & Hk & Hsum & Hget & Hpos)|(Hd' & Hi & Hpos)].
      * left. split; [exact Hd'|]. exists (S k).
        split; [lia|]. split; [simpl; lia|]. split; [rewrite Hcons; lia|].
        split.
        { destruct k as [|k]; [lia|]. simpl in *. now rewrite Nat.sub_0_r in Hget. }
        intros [|j] Hj; [rewrite depthOf_prefix_0; lia|].
        rewrite Hcons. specialize (Hpos j ltac:(lia)). lia.
      * right. split; [exact Hd'|]. split; [simpl; lia|].
        intros [|j] Hj; [rewrite depthOf_prefix_0; lia|].
        rewrite Hcons. simpl in Hj. specialize (Hpos j ltac:(lia)). lia.
Qed.

(** ** The block of a target *)

Lemma substring_dropS (s : string) :
  forall n j : nat, substring n j s = substring 0 j (dropS n s).
Proof.
  induction s as [|c r IH]; intros n j.
  - destruct n, j; reflexivity.
  - destruct n as [|n]; [now rewrite dropS_0|]. rewrite dropS_cons. simpl. apply IH.
Qed.

Lemma dropS_get (s : string) :
  forall (n : nat) (c : ascii),
    String.get n s = Some c ->
    dropS n s = String c (dropS (S n) s).
Proof.
  induction s as [|x s IH]; intros n c; [destruct n; discriminate|].
  destruct n as [|n]; simpl.
  - intros [= <-]. now rewrite !dropS_0, dropS_cons, dropS_0.
  - intros Hn. rewrite !dropS_cons. now apply IH.
Qed.

Lemma get_dropS_add (s : string) :
  forall n i : nat, String.get i (dropS n s) = String.get (n + i) s.
Proof.
  induction s as [|x s IH]; intros n i.
  - destruct n, i; reflexivity.
  - destruct n as [|n]; [now rewrite dropS_0|]. rewrite dropS_cons. simpl. apply IH.
Qed.

Lemma prefix_brace (x : string) :
  String.prefix "{" x = true <-> exists r, x = String "{" r.
Proof.
  destruct x as [|c r]; cbn [String.prefix].
  - split; [discriminate|]. intros [r H]. discriminate.
  - destruct (ascii_dec "{" c) as [E|Hne].
    + subst c. split; [eauto|]. intros _. now destruct r.
    + split; [discriminate|]. intros [r' [= E _]]. congruence.
Qed.

Lemma not_brace_at (s : string) (i : nat) :
  String.prefix "{" (dropS i s) = false ->
  String.get i s <> Some "{"%char.
Proof.
  intros Hp Hg. apply dropS_get in Hg.
  assert (String.prefix "{" (dropS i s) = true) as Ht
      by (apply prefix_brace; eauto).
  congruence.
Qed.

(** What [extractBlock] has found when it returns a block. *)
Lemma extractBlock_done (source : string) (target : ApplyRules.ReplacementTarget)
    (b : ApplyRules.Block) :
  ApplyRules.extractBlock source target = ApplyRules.Done b ->
  exists m braceStart close : nat,
    ApplyRules.indexOf (ApplyRules.startMarker target) source = Some m
    /\ ApplyRules.indexOfFrom "{" source m = Some braceStart
    /\ ApplyRules.scanBraces (dropS braceStart source) braceStart 0
       = (close, 0)
    /\ ApplyRules.start b = ApplyRules.lineStartOf source m
    /\ ApplyRules.leadingIndent b
       = sliceS source (Z.of_nat (ApplyRules.start b)) (Z.of_nat m)
    /\ ApplyRules.snippet b
       = sliceS source (Z.of_nat (ApplyRules.start b)) (Z.of_nat (ApplyRules.end_ b))
    /\ match ApplyRules.suffixMatcher target with
       | None => ApplyRules.end_ b = close
       | Some exec =>
         exists matched,
           exec (dropS close source) = Some (0%nat, matched)
           /\ ApplyRules.end_ b = (close + String.length matched)%nat
       end.
Proof.
  unfold ApplyRules.extractBlock.
  destruct (ApplyRules.indexOf (ApplyRules.startMarker target) source) as [m|];
    [|discriminate].
  cbv zeta.
  destruct (ApplyRules.indexOfFrom "{" source m) as [braceStart|] eqn:Hbrace;
    [|discriminate].
  destruct (ApplyRules.scanBraces (dropS braceStart source) braceStart 0)
    as [close depth] eqn:Hscan.
  destruct (Z.eqb_spec depth 0) as [->|]; [|discriminate]. simpl negb. cbv iota.
  destruct (ApplyRules.suffixMatcher target) as [exec|].
  - destruct (exec (dropS close source)) as [[[|i] matched]|] eqn:Hexec;
      try discriminate.
    intros [= <-]. exists m, braceStart, close. simpl.
    split; [reflexivity|]. split; [exact Hbrace|]. split; [exact Hscan|].
    repeat (split; [reflexivity|]). exists matched. split; [exact Hexec|reflexivity].
  - intros [= <-]. exists m, braceStart, close. simpl.
    split; [reflexivity|]. split; [exact Hbrace|]. split; [exact Hscan|].
    repeat (split; [reflexivity|]). reflexivity.
Qed.

(** The brace found and the loop over the braces, in terms of the
    source. *)
Lemma braces_of_block (source : string) (m braceStart close : nat) (depth : Z) :
  (m <= String.length source)%nat ->
  ApplyRules.indexOfFrom "{" source m = Some braceStart ->
  ApplyRules.scanBraces (dropS braceStart source) braceStart 0
  = (close, depth) ->
  (m <= braceStart < String.length source)%nat
  /\ String.get braceStart source = Some "{"%char
  /\ (forall i : nat, (m <= i < braceStart)%nat -> String.get i source <> Some "{"%char)
  /\ ((depth = 0
       /\ (braceStart < close <= String.length source)%nat
       /\ String.get (close - 1) source = Some "}"%char
       /\ ApplyRules.depthOf (sliceS source (Z.of_nat braceStart) (Z.of_nat close)) = 0
       /\ forall k : nat, (braceStart < k < close)%nat ->
            0 < ApplyRules.depthOf (sliceS source (Z.of_nat braceStart) (Z.of_nat k)))
      \/ (0 < depth
          /\ forall k : nat, (braceStart < k <= String.length source)%nat ->
               0 < ApplyRules.depthOf
                     (sliceS source (Z.of_nat braceStart) (Z.of_nat k)))).
Proof.
  intros Hm Hbrace Hscan.
  destruct (indexOfFrom_some _ _ _ _ Hm Hbrace) as (Hrange & Hat & Hbefore).
  apply prefix_brace in Hat as [rest Hrest].
  destruct (get_dropS _ _ _ _ Hrest) as [Hget Hdrop].
  pose proof (get_some_lt _ _ _ Hget) as Hlt.
  split; [lia|]. split; [exact Hget|].
  split; [intros i Hi; apply not_brace_at, Hbefore; lia|].
  rewrite Hrest in Hscan. cbn [ApplyRules.scanBraces] in Hscan.
  change (Ascii.eqb "{" "{") with true in Hscan.
  change (Ascii.eqb "{" "}") with false in Hscan. cbv zeta iota in Hscan.
  pose proof (scanBraces_spec rest (S braceStart) (0 + 1) ltac:(lia)) as Hspec.
  rewrite Hscan in Hspec.
  assert (String.length rest = (String.length source - S braceStart)%nat) as Hlen
      by (rewrite <- Hdrop; apply length_dropS).
  assert (forall j : nat,
             (braceStart + S j <= String.length source)%nat ->
             ApplyRules.depthOf
               (sliceS source (Z.of_nat braceStart) (Z.of_nat (braceStart + S j)))
             = 0 + 1 + ApplyRules.depthOf (substring 0 j rest)) as Hslice.
  { intros j Hj. rewrite sliceS_in_range by lia.
    replace (Z.to_nat (Z.of_nat (braceStart + S j) - Z.of_nat braceStart))
      with (S j) by lia.
    rewrite Nat2Z.id, substring_dropS, Hrest. reflexivity. }
  destruct Hspec as [(Hd & k & Hclose & Hk & Hsum & Hgetk & Hpos)|(Hd & _ & Hpos)].
  - left. split; [exact Hd|]. split; [lia|]. split.
    { rewrite <- Hdrop, get_dropS_add in Hgetk. rewrite <- Hgetk. f_equal. lia. }
    split.
    + replace close with (braceStart + S k)%nat by lia. rewrite Hslice by lia. exact Hsum.
    + intros k' Hk'. replace k' with (braceStart + S (k' - S braceStart))%nat by lia.
      rewrite Hslice by lia. apply Hpos. lia.
  - right. split; [exact Hd|].
    intros k' Hk'. replace k' with (braceStart + S (k' - S braceStart))%nat by lia.
    rewrite Hslice by lia. apply Hpos. lia.
Qed.

(** The block [extractBlock] returns begins at the start of the line of
    the marker (the start of the text, or right after a line feed);
    [leadingIndent] is what stands on that line before the marker, and
    holds no line feed; [snippet] is the text from [start] to [end]; and
    the text before [start], the snippet and the text from [end] on make
    up the source again. *)
Theorem extracted_block_starts_its_line (source : string)
    (target : ApplyRules.ReplacementTarget) (b : ApplyRules.Block) :
  ApplyRules.extractBlock source target = ApplyRules.Done b ->
  exists m : nat,
    ApplyRules.indexOf (ApplyRules.startMarker target) source = Some m
    /\ (ApplyRules.start b <= m)%nat /\ (m < ApplyRules.end_ b)%nat
    /\ (ApplyRules.start b = 0%nat
        \/ String.get (ApplyRules.start b - 1) source = Some LF)
    /\ ApplyRules.leadingIndent b
       = sliceS source (Z.of_nat (ApplyRules.start b)) (Z.of_nat m)
    /\ existsS ApplyRules.isLF (ApplyRules.leadingIndent b) = false
    /\ ApplyRules.snippet b
       = sliceS source (Z.of_nat (ApplyRules.start b)) (Z.of_nat (ApplyRules.end_ b))
    /\ source
       = sliceS source 0 (Z.of_nat (ApplyRules.start b)) +:+ ApplyRules.snippet b
         +:+ dropS (ApplyRules.end_ b) source.
Proof.
  intros Hb.
  destruct (extractBlock_done _ _ _ Hb)
    as (m & braceStart & close & Hm & Hbrace & Hscan & Hstart & Hindent & Hsnip & Hend).
  destruct (indexOf_some _ _ _ Hm) as (Hmlen & _ & _).
  destruct (braces_of_block _ _ _ _ _ Hmlen Hbrace Hscan)
    as (Hrange & _ & _ & [(_ & Hclose & _)|(Hpos & _)]); [|lia].
  pose proof (lineStartOf_spec source m) as Hline. cbv zeta in Hline.
  rewrite <- Hstart in Hline. destruct Hline as (Hle & Hat & Hnone).
  assert (close <= ApplyRules.end_ b)%nat as Hce.
  { destruct (ApplyRules.suffixMatcher target); [|lia].
    destruct Hend as (matched & _ & ->). lia. }
  exists m. split; [exact Hm|]. split; [exact Hle|]. split; [lia|].
  split; [exact Hat|]. split; [exact Hindent|]. split.
  - rewrite Hindent, sliceS_in_range by lia.
    apply substring_class. intros i Hi.
    destruct (get_lt_some source i) as [c Hc]; [lia|].
    exists c. split; [exact Hc|]. unfold ApplyRules.isLF.
    destruct (Ascii.eqb_spec c LF) as [->|]; [|reflexivity].
    exfalso. apply (Hnone i); [lia|exact Hc].
  - split; [exact Hsnip|]. rewrite Hsnip. apply slices_reassemble. lia.
Qed.

Lemma extracted_block_starts_its_line_witness :
  let source := ApplyRules.sample in
  let b := ApplyRules.mkBlock 7 47
             ("  function f() {" +:+ ApplyRules.NL +:+ "    if (x) { y(); }"
              +:+ ApplyRules.NL +:+ "  }") "  " in
  exists m : nat,
    ApplyRules.indexOf "function f() {" source = Some m
    /\ (ApplyRules.start b <= m)%nat /\ (m < ApplyRules.end_ b)%nat
    /\ (ApplyRules.start b = 0%nat
        \/ String.get (ApplyRules.start b - 1) source = Some LF)
    /\ ApplyRules.leadingIndent b
       = sliceS source (Z.of_nat (ApplyRules.start b)) (Z.of_nat m)
    /\ existsS ApplyRules.isLF (ApplyRules.leadingIndent b) = false
    /\ ApplyRules.snippet b
       = sliceS source (Z.of_nat (ApplyRules.start b)) (Z.of_nat (ApplyRules.end_ b))
    /\ source
       = sliceS source 0 (Z.of_nat (ApplyRules.start b)) +:+ ApplyRules.snippet b
         +:+ dropS (ApplyRules.end_ b) source.
Proof.
  exact (extracted_block_starts_its_line ApplyRules.sample ApplyRules.sampleTarget
           (ApplyRules.mkBlock 7 47
              ("  function f() {" +:+ ApplyRules.NL +:+ "    if (x) { y(); }"
               +:+ ApplyRules.NL +:+ "  }") "  ") eq_refl).
Defined.

(** The block runs from the first opening brace at or after the marker
    to the brace that closes it: counting [{] up and [}] down from that
    first brace, the count is above 0 until it reaches 0 at the last code
    unit before [close], which is a closing brace.  Braces in strings and
    comments count like the others.  The block ends at [close], or after
    what the target's suffix matches there. *)
Theorem extracted_block_closes_its_brace (source : string)
    (target : ApplyRules.ReplacementTarget) (b : ApplyRules.Block) :
  ApplyRules.extractBlock source target = ApplyRules.Done b ->
  exists m braceStart close : nat,
    ApplyRules.indexOf (ApplyRules.startMarker target) source = Some m
    /\ (m <= braceStart < close)%nat /\ (close <= String.length source)%nat
    /\ String.get braceStart source = Some "{"%char
    /\ (forall i : nat, (m <= i < braceStart)%nat ->
                        String.get i source <> Some "{"%char)
    /\ String.get (close - 1) source = Some "}"%char
    /\ ApplyRules.depthOf (sliceS source (Z.of_nat braceStart) (Z.of_nat close)) = 0
    /\ (forall k : nat, (braceStart < k < close)%nat ->
          0 < ApplyRules.depthOf (sliceS source (Z.of_nat braceStart) (Z.of_nat k)))
    /\ match ApplyRules.suffixMatcher target with
       | None => ApplyRules.end_ b = close
       | Some exec =>
         exists matched,
           exec (dropS close source) = Some (0%nat, matched)
           /\ ApplyRules.end_ b = (close + String.length matched)%nat
       end.
Proof.
  intros Hb.
  destruct (extractBlock_done _ _ _ Hb)
    as (m & braceStart & close & Hm & Hbrace & Hscan & _ & _ & _ & Hend).
  destruct (indexOf_some _ _ _ Hm) as (Hmlen & _ & _).
  destruct (braces_of_block _ _ _ _ _ Hmlen Hbrace Hscan)
    as (Hrange & Hopen & Hfirst & [(_ & Hclose & Hlast & Hzero & Hpos)|(Hpos & _)]);
    [|lia].
  exists m, braceStart, close. split; [exact Hm|]. split; [lia|]. split; [lia|].
  split; [exact Hopen|]. split; [exact Hfirst|]. split; [exact Hlast|].
  split; [exact Hzero|]. split; [exact Hpos|]. exact Hend.
Qed.

Lemma extracted_block_closes_its_brace_witness :
  let source := ApplyRules.sample in
  exists m braceStart close : nat,
    ApplyRules.indexOf "function f() {" source = Some m
    /\ (m <= braceStart < close)%nat /\ (close <= String.length source)%nat
    /\ String.get braceStart source = Some "{"%char
    /\ (forall i : nat, (m <= i < braceStart)%nat ->
                        String.get i source <> Some "{"%char)
    /\ String.get (close - 1) source = Some "}"%char
    /\ ApplyRules.depthOf (sliceS source (Z.of_nat braceStart) (Z.of_nat close)) = 0
    /\ (forall k : nat, (braceStart < k < close)%nat ->
          0 < ApplyRules.depthOf (sliceS source (Z.of_nat braceStart) (Z.of_nat k)))
    /\ 47%nat = close.
Proof.
  exact (extracted_block_closes_its_brace ApplyRules.sample ApplyRules.sampleTarget
           (ApplyRules.mkBlock 7 47
              ("  function f() {" +:+ ApplyRules.NL +:+ "    if (x) { y(); }"
               +:+ ApplyRules.NL +:+ "  }") "  ") eq_refl).
Defined.



(** ** One round of the rule script *)

(** A round of the loop of [main] leaves the text outside the block as it
    is: the text before the line of the marker and the text after the end
    of the block are those of the text it started from, and what stands
    between them is the re-indented answer of [ast-grep]. *)
Theorem target_rewrites_only_its_block (runAstGrep : string -> ApplyRules.outcome string)
    (updated : string) (target : ApplyRules.ReplacementTarget) (updated' : string) :
  ApplyRules.applyTarget runAstGrep updated target = ApplyRules.Done updated' ->
  exists (b : ApplyRules.Block) (transformed : string),
    ApplyRules.extractBlock updated target = ApplyRules.Done b
    /\ runAstGrep (ApplyRules.normalize (ApplyRules.leadingIndent b) (ApplyRules.snippet b))
       = ApplyRules.Done transformed
    /\ let before := sliceS updated 0 (Z.of_nat (ApplyRules.start b)) in
       let after := dropS (ApplyRules.end_ b) updated in
       updated = before +:+ ApplyRules.snippet b +:+ after
       /\ updated'
          = before
            +:+ ApplyRules.reindent (ApplyRules.leadingIndent b) (ApplyRules.snippet b)
                  transformed
            +:+ after.
Proof.
  unfold ApplyRules.applyTarget.
  destruct (ApplyRules.extractBlock updated target) as [b|] eqn:Hb; [|discriminate].
  destruct (runAstGrep _) as [transformed|] eqn:Hrun; [|discriminate].
  cbv zeta. intros Hres. exists b, transformed.
  split; [reflexivity|]. split; [exact Hrun|].
  destruct (extractBlock_done _ _ _ Hb)
    as (m & braceStart & close & Hm & Hbrace & Hscan & Hstart & _ & Hsnip & Hend).
  destruct (indexOf_some _ _ _ Hm) as (Hmlen & _ & _).
  destruct (braces_of_block _ _ _ _ _ Hmlen Hbrace Hscan)
    as (Hrange & _ & _ & [(_ & Hclose & _)|(Hpos & _)]); [|lia].
  pose proof (lineStartOf_spec updated m) as Hline. cbv zeta in Hline.
  rewrite <- Hstart in Hline. destruct Hline as (Hle & _ & _).
  assert (ApplyRules.start b <= ApplyRules.end_ b)%nat as Hse.
  { destruct (ApplyRules.suffixMatcher target); [|lia].
    destruct Hend as (matched & _ & ->). lia. }
  assert (updated
          = sliceS updated 0 (Z.of_nat (ApplyRules.start b)) +:+ ApplyRules.snippet b
            +:+ dropS (ApplyRules.end_ b) updated) as Hframe
      by (rewrite Hsnip; now apply slices_reassemble).
  split; [exact Hframe|].
  destruct (String.eqb_spec (ApplyRules.snippet b)
              (ApplyRules.reindent (ApplyRules.leadingIndent b) (ApplyRules.snippet b)
                 transformed)) as [Heq|Hne].
  - injection Hres as <-. rewrite <- Heq. exact Hframe.
  - now injection Hres as <-.
Qed.

Lemma target_rewrites_only_its_block_witness :
  exists (b : ApplyRules.Block) (transformed : string),
    ApplyRules.extractBlock ApplyRules.sample ApplyRules.sampleTarget = ApplyRules.Done b
    /\ ApplyRules.Done "g();" = ApplyRules.Done transformed
    /\ ApplyRules.sample
       = sliceS ApplyRules.sample 0 (Z.of_nat (ApplyRules.start b))
         +:+ ApplyRules.snippet b
         +:+ dropS (ApplyRules.end_ b) ApplyRules.sample
       /\ "let a;" +:+ ApplyRules.NL +:+ "  g();" +:+ ApplyRules.NL +:+ "let b;"
          = sliceS ApplyRules.sample 0 (Z.of_nat (ApplyRules.start b))
            +:+ ApplyRules.reindent (ApplyRules.leadingIndent b) (ApplyRules.snippet b)
                  transformed
            +:+ dropS (ApplyRules.end_ b) ApplyRules.sample.
Proof.
  exact (target_rewrites_only_its_block (fun _ => ApplyRules.Done "g();")
           ApplyRules.sample ApplyRules.sampleTarget
           ("let a;" +:+ ApplyRules.NL +:+ "  g();" +:+ ApplyRules.NL +:+ "let b;")
           eq_refl).
Defined.

(** ** Indentation *)

Lemma splitOn_concat_char (sep : ascii -> bool) (c : ascii) (parts : list string) :
  sep c = true ->
  parts <> [] ->
  Forall (fun part => existsS sep part = false) parts ->
  splitOn sep (String.concat (String c "") parts) = parts.
Proof.
  intros Hsep. induction parts as [|x rest IH]; [congruence|].
  intros _ Hall. apply List.Forall_cons_iff in Hall as [Hx Hrest].
  destruct rest as [|y rest'].
  - simpl. now apply splitOn_no_sep.
  - change (String.concat (String c "") (x :: y :: rest'))
      with (x +:+ String c (String.concat (String c "") (y :: rest'))).
    rewrite splitOn_app by assumption.
    f_equal. apply IH; [discriminate|assumption].
Qed.

Lemma concat_first_char (sep : string) (x : ascii) (piece : string) (pieces : list string) :
  String.concat sep (String x piece :: pieces)
  = String x (String.concat sep (piece :: pieces)).
Proof. destruct pieces; reflexivity. Qed.

Lemma concat_splitOn_char (c : ascii) (s : string) :
  String.concat (String c "") (splitOn (fun x => Ascii.eqb x c) s) = s.
Proof.
  induction s as [|x r IH]; [reflexivity|]. simpl.
  destruct (splitOn (fun x => Ascii.eqb x c) r) as [|piece pieces] eqn:E;
    [contradiction (splitOn_not_nil _ _ E)|].
  destruct (Ascii.eqb_spec x c) as [->|Hne].
  - change (String.concat (String c "") ("" :: piece :: pieces))
      with (String c (String.concat (String c "") (piece :: pieces))).
    now rewrite IH.
  - now rewrite concat_first_char, IH.
Qed.

Lemma existsS_dropS (q : ascii -> bool) (s : string) :
  forall n : nat, existsS q s = false -> existsS q (dropS n s) = false.
Proof.
  induction s as [|c r IH]; intros n Hs.
  - destruct n; reflexivity.
  - destruct n as [|n]; [now rewrite dropS_0|]. rewrite dropS_cons.
    simpl in Hs. apply orb_false_iff in Hs as [_ Hr]. now apply IH.
Qed.

Lemma dropS_append (a b : string) : dropS (String.length a) (a +:+ b) = b.
Proof.
  induction a as [|x a IH]; [apply dropS_0|].
  rewrite append_cons. simpl String.length. now rewrite dropS_cons.
Qed.

(** A line that is empty, or the indent with something behind it, comes
    back when the indent is taken off and put on again. *)
Lemma addIndent_stripIndent (indent line : string) :
  line = "" \/ (exists rest, rest <> "" /\ line = indent +:+ rest) ->
  ApplyRules.addIndent indent (ApplyRules.stripIndent indent line) = line.
Proof.
  unfold ApplyRules.stripIndent, startsWith. intros [->|(rest & Hrest & ->)].
  - destruct (String.prefix indent ""); [now rewrite dropS_ge by (simpl; lia)|reflexivity].
  - rewrite prefix_append, dropS_append. unfold ApplyRules.addIndent.
    destruct rest as [|c r]; [congruence|]. reflexivity.
Qed.

Lemma popEmpty_last (init : list string) (last : string) :
  last <> "" -> ApplyRules.popEmpty (init ++ [last]) = init ++ [last].
Proof.
  intros Hne. unfold ApplyRules.popEmpty. rewrite rev_app_distr. simpl.
  destruct (String.eqb_spec last ""); [contradiction|].
  change (last :: rev init) with (rev [last] ++ rev init).
  now rewrite <- rev_app_distr, rev_involutive.
Qed.

Lemma endsWith_NL_snoc (q : string) (c : ascii) :
  endsWith (q +:+ String c "") ApplyRules.NL = ApplyRules.isLF c.
Proof.
  unfold endsWith, ApplyRules.NL. rewrite length_append. simpl String.length.
  replace (String.length q + 1 - 1)%nat with (String.length q) by lia.
  rewrite substring_skip.
  destruct (Nat.leb_spec 1 (String.length q + 1)); [|lia].
  simpl. unfold ApplyRules.isLF. destruct (Ascii.eqb c LF); reflexivity.
Qed.

Lemma reindent_normalize (indent snippet : string) :
  Forall (fun line => line = "" \/ exists rest, rest <> "" /\ line = indent +:+ rest)
         (splitOn ApplyRules.isLF snippet) ->
  (exists q c, snippet = q +:+ String c "" /\ ApplyRules.isLF c = false) ->
  ApplyRules.reindent indent snippet (ApplyRules.normalize indent snippet) = snippet.
Proof.
  intros Hlines (q & c & Hq & Hc).
  unfold ApplyRules.reindent, ApplyRules.normalize. cbv zeta.
  rewrite Hq at 1. rewrite endsWith_NL_snoc, Hc.
  set (lines := splitOn ApplyRules.isLF snippet) in *.
  assert (Forall (fun part => existsS ApplyRules.isLF part = false)
                 (map (ApplyRules.stripIndent indent) lines)) as Hclass.
  { apply List.Forall_map.
    eapply List.Forall_impl; [|apply (splitOn_pieces_no_sep ApplyRules.isLF snippet)].
    intros line Hline. unfold ApplyRules.stripIndent.
    destruct (startsWith line indent); [now apply existsS_dropS|exact Hline]. }
  assert (lines <> []) as Hne by apply splitOn_not_nil.
  rewrite (splitOn_concat_char ApplyRules.isLF LF);
    [|reflexivity|destruct lines; [congruence|discriminate]|exact Hclass].
  destruct (splitOn_snoc_nosep ApplyRules.isLF q) as (init & last & _ & Hext).
  assert (lines = init ++ [last +:+ String c ""]) as Hshape.
  { unfold lines. rewrite Hq. apply Hext. simpl. now rewrite Hc. }
  assert (ApplyRules.stripIndent indent (last +:+ String c "") <> "") as Hlast.
  { rewrite Hshape in Hlines. apply List.Forall_app in Hlines as [_ Hl].
    apply List.Forall_inv in Hl. destruct Hl as [Hl|(rest & Hrest & Hl)].
    - destruct last; discriminate.
    - rewrite Hl. unfold ApplyRules.stripIndent, startsWith.
      now rewrite prefix_append, dropS_append. }
  assert (ApplyRules.popEmpty (map (ApplyRules.stripIndent indent) lines)
          = map (ApplyRules.stripIndent indent) lines) as ->.
  { rewrite Hshape, map_app. simpl map. now apply popEmpty_last. }
  rewrite map_map.
  rewrite (map_ext_Forall _ id).
  - rewrite map_id. apply (concat_splitOn_char LF).
  - eapply List.Forall_impl; [|exact Hlines].
    intros line Hline. now apply addIndent_stripIndent.
Qed.

(** A snippet whose lines are each empty or the indent with something
    behind it, and which does not end with a line feed, comes back from
    taking the indent off and putting it on again.  So a round in which
    [ast-grep] gives back what it was given leaves the text as it is. *)
Theorem unchanged_block_leaves_the_text (runAstGrep : string -> ApplyRules.outcome string)
    (updated : string) (target : ApplyRules.ReplacementTarget) (b : ApplyRules.Block) :
  ApplyRules.extractBlock updated target = ApplyRules.Done b ->
  Forall (fun line =>
            line = "" \/ exists rest, rest <> "" /\ line = ApplyRules.leadingIndent b +:+ rest)
         (splitOn ApplyRules.isLF (ApplyRules.snippet b)) ->
  (exists q c, ApplyRules.snippet b = q +:+ String c "" /\ ApplyRules.isLF c = false) ->
  runAstGrep (ApplyRules.normalize (ApplyRules.leadingIndent b) (ApplyRules.snippet b))
  = ApplyRules.Done (ApplyRules.normalize (ApplyRules.leadingIndent b) (ApplyRules.snippet b)) ->
  ApplyRules.reindent (ApplyRules.leadingIndent b) (ApplyRules.snippet b)
    (ApplyRules.normalize (ApplyRules.leadingIndent b) (ApplyRules.snippet b))
  = ApplyRules.snippet b
  /\ ApplyRules.applyTarget runAstGrep updated target = ApplyRules.Done updated.
Proof.
  intros Hb Hlines Hend Hrun.
  pose proof (reindent_normalize _ _ Hlines Hend) as Hround.
  split; [exact Hround|].
  unfold ApplyRules.applyTarget. rewrite Hb, Hrun. cbv zeta.
  rewrite Hround, String.eqb_refl. reflexivity.
Qed.

Lemma unchanged_block_leaves_the_text_witness :
  let snippet := "  function f() {" +:+ ApplyRules.NL +:+ "    if (x) { y(); }"
                 +:+ ApplyRules.NL +:+ "  }" in
  ApplyRules.reindent "  " snippet (ApplyRules.normalize "  " snippet) = snippet
  /\ ApplyRules.applyTarget ApplyRules.Done ApplyRules.sample ApplyRules.sampleTarget
     = ApplyRules.Done ApplyRules.sample.
Proof.
  refine (unchanged_block_leaves_the_text ApplyRules.Done
            ApplyRules.sample ApplyRules.sampleTarget
            (ApplyRules.mkBlock 7 47
               ("  function f() {" +:+ ApplyRules.NL +:+ "    if (x) { y(); }"
                +:+ ApplyRules.NL +:+ "  }") "  ") eq_refl _ _ eq_refl).
  - vm_compute splitOn. repeat apply List.Forall_cons; [| | |apply List.Forall_nil]; right.
    + exists "function f() {". split; [discriminate|reflexivity].
    + exists "  if (x) { y(); }". split; [discriminate|reflexivity].
    + exists "}". split; [discriminate|reflexivity].
  - exists ("  function f() {" +:+ ApplyRules.NL +:+ "    if (x) { y(); }"
            +:+ ApplyRules.NL +:+ "  "), "}"%char.
    split; reflexivity.
Defined.

(** * The update script *)

(** ** Prefixes in a class *)

Lemma takeWhileS_dropWhileS (p : ascii -> bool) (s : string) :
  takeWhileS p s +:+ dropWhileS p s = s.
Proof.
  induction s as [|c r IH]; [reflexivity|]. simpl.
  destruct (p c); [|reflexivity]. now rewrite append_cons, IH.
Qed.

Lemma allS_takeWhileS (p : ascii -> bool) (s : string) : allS p (takeWhileS p s) = true.
Proof.
  induction s as [|c r IH]; [reflexivity|]. simpl.
  destruct (p c) eqn:Hc; [|reflexivity]. simpl. now rewrite Hc.
Qed.

Lemma dropS_takeWhileS (p : ascii -> bool) (s : string) :
  dropS (String.length (takeWhileS p s)) s = dropWhileS p s.
Proof.
  induction s as [|c r IH]; [reflexivity|]. simpl.
  destruct (p c); [|apply dropS_0]. simpl String.length. now rewrite dropS_cons.
Qed.

Lemma existsS_takeWhileS_negb (p : ascii -> bool) (s : string) :
  existsS p (takeWhileS (fun c => negb (p c)) s) = false.
Proof.
  induction s as [|c r IH]; [reflexivity|]. simpl.
  destruct (p c) eqn:Hc; [reflexivity|]. simpl. now rewrite Hc.
Qed.

Lemma prefix_dropS (p s : string) :
  String.prefix p s = true -> s = p +:+ dropS (String.length p) s.
Proof.
  revert s. induction p as [|x p IH]; intros s.
  - intros _. now rewrite append_nil_l, dropS_0.
  - destruct s as [|y s]; cbn [String.prefix]; [discriminate|].
    destruct (ascii_dec x y) as [<-|]; [|discriminate].
    intros Hp. rewrite append_cons. simpl String.length. rewrite dropS_cons.
    f_equal. now apply IH.
Qed.

(** ** The installer script *)

(** What a match of the pattern at the start of [s] says of [s]. *)
Lemma assignmentAt_some (name s group : string) :
  Update.assignmentAt name s = Some group ->
  exists ws1 ws2 post : string,
    s = "$" +:+ name +:+ ws1 +:+ "=" +:+ ws2
        +:+ String DQUOTE (group +:+ String DQUOTE post)
    /\ allS isSpace ws1 = true /\ allS isSpace ws2 = true
    /\ group <> ""
    /\ existsS (fun c => Ascii.eqb c DQUOTE) group = false.
Proof.
  unfold Update.assignmentAt.
  destruct (String.prefix ("$" +:+ name) s) eqn:Hp; [|discriminate].
  apply prefix_dropS in Hp.
  set (s0 := dropS (String.length ("$" +:+ name)) s) in *.
  pose proof (takeWhileS_dropWhileS isSpace s0) as H0.
  destruct (dropWhileS isSpace s0) as [|c1 s1]; [discriminate|].
  destruct (Ascii.eqb_spec c1 "=") as [->|]; [|discriminate].
  pose proof (takeWhileS_dropWhileS isSpace s1) as H1.
  destruct (dropWhileS isSpace s1) as [|c2 s2]; [discriminate|].
  destruct (Ascii.eqb_spec c2 DQUOTE) as [->|]; [|discriminate].
  cbv zeta. set (q := fun c => negb (Ascii.eqb c DQUOTE)).
  pose proof (takeWhileS_dropWhileS q s2) as H2.
  rewrite (dropS_takeWhileS q s2).
  destruct (dropWhileS q s2) as [|c3 post] eqn:Hrest; [discriminate|].
  destruct (String.eqb_spec (takeWhileS q s2) "") as [|Hne]; [discriminate|].
  intros [= <-].
  apply dropWhileS_head in Hrest. unfold q in Hrest.
  apply negb_false_iff, Ascii.eqb_eq in Hrest. subst c3.
  exists (takeWhileS isSpace s0), (takeWhileS isSpace s1), post.
  split.
  - rewrite Hp at 1. rewrite <- H0 at 1. rewrite <- H1 at 1. rewrite <- H2 at 1.
    rewrite !append_assoc, !append_cons, !append_nil_l. reflexivity.
  - split; [apply allS_takeWhileS|]. split; [apply allS_takeWhileS|].
    split; [exact Hne|].
    apply (existsS_takeWhileS_negb (fun c => Ascii.eqb c DQUOTE)).
Qed.

(** The first match: the pattern matches where [pre] ends, and at no index
    before. *)
Lemma matchAssignment_some (name content group : string) :
  Update.matchAssignment name content = Some group ->
  exists pre rest : string,
    content = pre +:+ rest
    /\ Update.assignmentAt name rest = Some group
    /\ forall k : nat, (k < String.length pre)%nat ->
                       Update.assignmentAt name (dropS k content) = None.
Proof.
  induction content as [|c r IH]; cbn [Update.matchAssignment].
  - destruct (Update.assignmentAt name "") as [g|] eqn:Hat; [|discriminate].
    intros [= <-]. exists "", "". split; [reflexivity|]. split; [exact Hat|].
    intros k Hk. simpl in Hk. lia.
  - destruct (Update.assignmentAt name (String c r)) as [g|] eqn:Hat.
    + intros [= <-]. exists "", (String c r). split; [reflexivity|].
      split; [exact Hat|]. intros k Hk. simpl in Hk. lia.
    + intros Hm. destruct (IH Hm) as (pre & rest & -> & Hrest & Hfirst).
      exists (String c pre), rest. split; [reflexivity|]. split; [exact Hrest|].
      intros [|k] Hk; [now rewrite dropS_0|].
      rewrite dropS_cons. apply Hfirst. simpl in Hk. lia.
Qed.

Lemma matchAssignment_group (name content group : string) :
  Update.matchAssignment name content = Some group -> group <> "".
Proof.
  intros Hm. destruct (matchAssignment_some _ _ _ Hm) as (pre & rest & _ & Hat & _).
  now destruct (assignmentAt_some _ _ _ Hat) as (_ & _ & _ & _ & _ & _ & Hne & _).
Qed.

(** The version [parseInstallerScript] returns is what stands between
    the quotes of the first [$version = ...] of the script, with any white
    space around the [=]: it is not empty and holds no quote, and no such
    assignment begins before.  The base URL and the name of the binary are
    not empty either, be they read from the script or the defaults. *)
Theorem installer_version_is_first_assignment (content : string)
    (meta : Update.InstallerMeta) :
  Update.parseInstallerScript content = Update.Done meta ->
  (exists pre ws1 ws2 post : string,
      content = pre +:+ "$version" +:+ ws1 +:+ "=" +:+ ws2
                +:+ String DQUOTE (Update.version meta +:+ String DQUOTE post)
      /\ allS isSpace ws1 = true /\ allS isSpace ws2 = true
      /\ forall k : nat, (k < String.length pre)%nat ->
                         Update.assignmentAt "version" (dropS k content) = None)
  /\ Update.version meta <> ""
  /\ existsS (fun c => Ascii.eqb c DQUOTE) (Update.version meta) = false
  /\ Update.baseUrl meta <> ""
  /\ Update.binaryName meta <> "".
Proof.
  unfold Update.parseInstallerScript.
  destruct (Update.matchAssignment "version" content) as [v|] eqn:Hv; [|discriminate].
  cbv zeta. intros [= <-]. simpl.
  destruct (matchAssignment_some _ _ _ Hv) as (pre & rest & Hcontent & Hat & Hfirst).
  destruct (assignmentAt_some _ _ _ Hat) as (ws1 & ws2 & post & Hrest & H1 & H2 & Hne & Hq).
  split; [|split; [exact Hne|split; [exact Hq|split]]].
  - exists pre, ws1, ws2, post. rewrite Hcontent, Hrest.
    split; [reflexivity|]. split; [exact H1|]. split; [exact H2|].
    rewrite <- Hrest, <- Hcontent. exact Hfirst.
  - destruct (Update.matchAssignment "baseUrl" content) eqn:Hb; simpl; [|discriminate].
    eapply matchAssignment_group. exact Hb.
  - destruct (Update.matchAssignment "binaryName" content) eqn:Hb; simpl; [|discriminate].
    eapply matchAssignment_group. exact Hb.
Qed.

Lemma installer_version_is_first_assignment_witness :
  (exists pre ws1 ws2 post : string,
      Update.sampleScript
      = pre +:+ "$version" +:+ ws1 +:+ "=" +:+ ws2
        +:+ String DQUOTE ("0.19.3" +:+ String DQUOTE post)
      /\ allS isSpace ws1 = true /\ allS isSpace ws2 = true
      /\ forall k : nat, (k < String.length pre)%nat ->
                         Update.assignmentAt "version" (dropS k Update.sampleScript) = None)
  /\ "0.19.3" <> ""
  /\ existsS (fun c => Ascii.eqb c DQUOTE) "0.19.3" = false
  /\ "https://downloads.factory.ai" <> ""
  /\ "droid.exe" <> "".
Proof.
  exact (installer_version_is_first_assignment Update.sampleScript
           (Update.mkMeta "0.19.3" "https://downloads.factory.ai" "droid.exe") eq_refl).
Defined.

(** ** The download address *)

Lemma allS_append (p : ascii -> bool) (a b : string) :
  allS p (a +:+ b) = allS p a && allS p b.
Proof.
  induction a as [|x a IH]; [reflexivity|].
  rewrite append_cons. simpl. now rewrite IH, andb_assoc.
Qed.

Lemma allS_repeatS (p : ascii -> bool) (c : ascii) (n : nat) :
  p c = true -> allS p (Update.repeatS c n) = true.
Proof.
  intros Hc. induction n as [|n IH]; [reflexivity|]. simpl. now rewrite Hc, IH.
Qed.

Lemma stripTrailingSlashes_nil (s : string) :
  Update.stripTrailingSlashes s = "" -> allS isSlash s = true.
Proof.
  destruct s as [|c r]; [reflexivity|]. simpl.
  destruct (isSlash c && allS isSlash r) eqn:E; [auto|discriminate].
Qed.

(** The string cut does not end with a slash. *)
Lemma stripTrailingSlashes_end (s : string) :
  Update.stripTrailingSlashes s = ""
  \/ exists q c, Update.stripTrailingSlashes s = q +:+ String c "" /\ isSlash c = false.
Proof.
  induction s as [|c r IH]; [now left|]. simpl.
  destruct (isSlash c && allS isSlash r) eqn:E; [now left|]. right.
  destruct IH as [Hnil|(q & c' & -> & Hc')].
  - rewrite Hnil. exists "", c. split; [reflexivity|].
    apply stripTrailingSlashes_nil in Hnil. rewrite Hnil, andb_true_r in E. exact E.
  - exists (String c q), c'. split; [now rewrite append_cons|exact Hc'].
Qed.

(** What was cut off is slashes only. *)
Lemma stripTrailingSlashes_cut (s : string) :
  exists n : nat, s = Update.stripTrailingSlashes s +:+ Update.repeatS "/" n.
Proof.
  induction s as [|c r (n & IH)]; [now exists 0%nat|]. simpl.
  destruct (isSlash c && allS isSlash r) eqn:E.
  - apply andb_true_iff in E as [Hc Hr]. exists (S (String.length r)).
    rewrite append_nil_l. simpl. unfold isSlash in Hc. apply Ascii.eqb_eq in Hc. subst c.
    f_equal. clear IH. induction r as [|x r IHr]; [reflexivity|].
    simpl in Hr. apply andb_true_iff in Hr as [Hx Hr].
    unfold isSlash in Hx. apply Ascii.eqb_eq in Hx. subst x. simpl. f_equal. auto.
  - exists n. rewrite append_cons. now rewrite <- IH.
Qed.

Lemma stripTrailingSlashes_more (s : string) (k : nat) :
  Update.stripTrailingSlashes (s +:+ Update.repeatS "/" k) = Update.stripTrailingSlashes s.
Proof.
  induction s as [|c r IH].
  - rewrite append_nil_l. destruct k as [|k]; [reflexivity|]. simpl.
    now rewrite allS_repeatS by reflexivity.
  - rewrite append_cons. simpl.
    rewrite allS_append, allS_repeatS by reflexivity. rewrite andb_true_r.
    destruct (isSlash c && allS isSlash r); [reflexivity|]. now rewrite IH.
Qed.

(** The address of the download is made from the base URL without the
    slashes at its end: the part before [/factory-cli] does not end with
    a slash and differs from the base URL by slashes only, and a base URL
    with more slashes at its end gives the same address. *)
Theorem download_url_ignores_trailing_slashes (meta : Update.InstallerMeta)
    (architecture : string) (k : nat) :
  let base := Update.stripTrailingSlashes (Update.baseUrl meta) in
  Update.buildDownloadUrl meta architecture
  = base +:+ "/factory-cli/releases/" +:+ Update.version meta +:+ "/windows/"
    +:+ architecture +:+ "/" +:+ Update.binaryName meta
  /\ endsWith base "/" = false
  /\ (exists n : nat, Update.baseUrl meta = base +:+ Update.repeatS "/" n)
  /\ Update.buildDownloadUrl
       (Update.mkMeta (Update.version meta)
                      (Update.baseUrl meta +:+ Update.repeatS "/" k)
                      (Update.binaryName meta))
       architecture
     = Update.buildDownloadUrl meta architecture.
Proof.
  cbv zeta. split; [reflexivity|]. split; [|split].
  - destruct (stripTrailingSlashes_end (Update.baseUrl meta)) as [->|(q & c & -> & Hc)];
      [reflexivity|].
    now rewrite endsWith_snoc.
  - apply stripTrailingSlashes_cut.
  - unfold Update.buildDownloadUrl. simpl. now rewrite stripTrailingSlashes_more.
Qed.

(** ** The checksum file *)

Lemma hd_splitRuns (sep : ascii -> bool) (s : string) :
  hd "" (splitRuns sep s) = takeWhileS (fun c => negb (sep c)) s.
Proof.
  unfold splitRuns. induction s as [|c r IH]; [reflexivity|]. simpl.
  destruct (sep c); [reflexivity|]. simpl.
  destruct (splitRunsFrom sep false r) as [|piece pieces]; simpl in *; now rewrite <- IH.
Qed.

Lemma takeWhileS_trimEnd (s : string) :
  takeWhileS (fun c => negb (isSpace c)) (trimEnd s)
  = takeWhileS (fun c => negb (isSpace c)) s.
Proof.
  induction s as [|c r IH]; [reflexivity|]. simpl.
  destruct (isSpace c) eqn:Hc; simpl.
  - destruct (String.eqb (trimEnd r) ""); [reflexivity|]. simpl. now rewrite Hc.
  - now rewrite Hc, IH.
Qed.

Lemma trimEnd_no_space (w : string) : existsS isSpace w = false -> trimEnd w = w.
Proof.
  induction w as [|c r IH]; [reflexivity|]. simpl.
  intros H. apply orb_false_iff in H as [Hc Hr]. now rewrite Hc, (IH Hr).
Qed.

Lemma trim_no_space (w : string) : existsS isSpace w = false -> trim w = w.
Proof.
  intros Hw. unfold trim.
  assert (dropWhileS isSpace w = w) as ->.
  { destruct w as [|c r]; [reflexivity|]. simpl in *.
    apply orb_false_iff in Hw as [Hc _]. now rewrite Hc. }
  now apply trimEnd_no_space.
Qed.

(** From a response that is [ok], [downloadSha256] returns the first
    word of the text, the code units from the first one that is no white
    space up to the next white space, in lower case; what follows the
    word (the name of the file, in the output of [sha256sum]) is dropped.
    It throws when the text is empty or white space only. *)
Theorem checksum_is_first_word (toLowerCase : string -> string)
    (fetch : string -> Update.outcome Update.Response) (url : string)
    (res : Update.Response) :
  fetch url = Update.Done res ->
  Update.ok res = true ->
  let word := takeWhileS (fun c => negb (isSpace c))
                (dropWhileS isSpace (Update.text res)) in
  existsS isSpace word = false
  /\ Update.downloadSha256 toLowerCase fetch url
     = (if String.eqb word "" then Update.Thrown Update.EmptySha
        else Update.Done (toLowerCase word))
  /\ (word = "" <-> allS isSpace (Update.text res) = true).
Proof.
  intros Hfetch Hok. cbv zeta.
  set (word := takeWhileS _ _).
  assert (existsS isSpace word = false) as Hword
      by apply (existsS_takeWhileS_negb isSpace).
  split; [exact Hword|]. split.
  - unfold Update.downloadSha256. rewrite Hfetch, Hok. simpl negb. cbv iota zeta.
    rewrite hd_splitRuns.
    assert (takeWhileS (fun c => negb (isSpace c)) (trim (Update.text res)) = word) as ->
        by (unfold trim; apply takeWhileS_trimEnd).
    now rewrite (trim_no_space word Hword).
  - unfold word. clear. induction (Update.text res) as [|c r IH]; simpl.
    + tauto.
    + destruct (isSpace c) eqn:Hc; simpl.
      * exact IH.
      * rewrite Hc. simpl. split; discriminate.
Qed.

Lemma checksum_is_first_word_witness :
  let res := Update.mkResponse true 200 "OK" ("9F86D081  droid.exe" +:+ String LF "") [] in
  existsS isSpace "9F86D081" = false
  /\ Update.downloadSha256 (mapS Posix.lowerAscii) (fun _ => Update.Done res) "u"
     = Update.Done "9f86d081"
  /\ ("9F86D081" = "" <-> allS isSpace (Update.text res) = true).
Proof.
  exact (checksum_is_first_word (mapS Posix.lowerAscii)
           (fun _ => Update.Done
                       (Update.mkResponse true 200 "OK"
                          ("9F86D081  droid.exe" +:+ String LF "") []))
           "u"
           (Update.mkResponse true 200 "OK" ("9F86D081  droid.exe" +:+ String LF "") [])
           eq_refl eq_refl).
Defined.

(** ** The rotation of the artifacts *)

Lemma rotated_distinct (p : Update.Paths) :
  NoDup (Update.rotated p) ->
  Update.DROID_EXE p <> Update.DROID_JS p
  /\ Update.DROID_EXE p <> Update.DROID_RAW p
  /\ Update.DROID_EXE p <> Update.DROID_OLD p
  /\ Update.DROID_JS p <> Update.DROID_RAW p
  /\ Update.DROID_JS p <> Update.DROID_OLD p
  /\ Update.DROID_RAW p <> Update.DROID_OLD p.
Proof.
  unfold Update.rotated. rewrite !NoDup_cons, !not_elem_of_cons. tauto.
Qed.

(** The state after the backup, the first step of [rotateArtifacts]. *)
Lemma backup_step (p : Update.Paths) (fs : gmap string (list byte)) :
  NoDup (Update.rotated p) ->
  exists fs1 : gmap string (list byte),
    Update.bind (Update.fileExists (Update.DROID_JS p))
      (fun jsExists =>
         if jsExists
         then Update.bind (Update.rmForce (Update.DROID_OLD p))
                (fun _ => Update.rename (Update.DROID_JS p) (Update.DROID_OLD p))
         else Update.ret tt) fs
    = (fs1, Update.Done tt)
    /\ fs1 !! Update.DROID_OLD p = Update.backup p fs
    /\ fs1 !! Update.DROID_JS p = None
    /\ forall path : string,
        path <> Update.DROID_JS p -> path <> Update.DROID_OLD p ->
        fs1 !! path = fs !! path.
Proof.
  intros Hnd. destruct (rotated_distinct p Hnd) as (_ & _ & _ & _ & Hjo & _).
  unfold Update.bind, Update.fileExists, Update.access, Update.backup.
  destruct (fs !! Update.DROID_JS p) as [js|] eqn:Hjs.
  - unfold Update.rmForce, Update.rename.
    assert (delete (Update.DROID_OLD p) fs !! Update.DROID_JS p = Some js) as Hjs'
        by (rewrite lookup_delete_ne by congruence; exact Hjs).
    eexists. rewrite Hjs'.
    split; [reflexivity|]. split; [apply lookup_insert_eq|]. split.
    + rewrite lookup_insert_ne by congruence. apply lookup_delete_eq.
    + intros path H1 H2. rewrite lookup_insert_ne by congruence.
      rewrite !lookup_delete_ne by congruence. reflexivity.
  - exists fs. split; [reflexivity|]. split; [reflexivity|]. split; [exact Hjs|]. auto.
Qed.

(** When the dump is there, [rotateArtifacts] returns, and afterwards
    [droid.exe] is gone, [droid.js] and [droid.raw.js] hold what it held,
    [droid.old.js] holds the former [droid.js] (or, if there was none,
    what it held before), and every other file is as it was. *)
Theorem rotation_keeps_the_previous_version (p : Update.Paths) (fs : gmap string (list byte))
    (exe : list byte) :
  NoDup (Update.rotated p) ->
  fs !! Update.DROID_EXE p = Some exe ->
  exists fs' : gmap string (list byte),
    Update.rotateArtifacts p fs = (fs', Update.Done tt)
    /\ fs' !! Update.DROID_EXE p = None
    /\ fs' !! Update.DROID_JS p = Some exe
    /\ fs' !! Update.DROID_RAW p = Some exe
    /\ fs' !! Update.DROID_OLD p = Update.backup p fs
    /\ forall path : string, path ∉ Update.rotated p -> fs' !! path = fs !! path.
Proof.
  intros Hnd Hexe.
  destruct (rotated_distinct p Hnd) as (Hej & Her & Heo & Hjr & Hjo & Hro).
  destruct (backup_step p fs Hnd) as (fs1 & Hstep & Hold & Hjs & Hrest).
  unfold Update.rotateArtifacts.
  unfold Update.bind at 1. unfold Update.bind at 1 in Hstep.
  destruct (Update.fileExists (Update.DROID_JS p) fs) as [fs0 [jsExists|e]] eqn:Hfe.
  2:{ discriminate. }
  unfold Update.bind at 1. rewrite Hstep.
  unfold Update.bind, Update.fileExists, Update.access, Update.rename, Update.copyFile.
  rewrite (Hrest (Update.DROID_EXE p)) by congruence. rewrite Hexe. simpl.
  rewrite (Hrest (Update.DROID_EXE p)) by congruence. rewrite Hexe.
  rewrite lookup_insert_eq.
  eexists. split; [reflexivity|]. split; [|split; [|split; [|split]]].
  - rewrite !lookup_insert_ne by congruence. apply lookup_delete_eq.
  - rewrite lookup_insert_ne by congruence. apply lookup_insert_eq.
  - apply lookup_insert_eq.
  - rewrite !lookup_insert_ne by congruence. rewrite lookup_delete_ne by congruence.
    exact Hold.
  - intros path Hpath. unfold Update.rotated in Hpath.
    rewrite !not_elem_of_cons in Hpath. destruct Hpath as (H1 & H2 & H3 & H4 & _).
    rewrite !lookup_insert_ne by congruence. rewrite lookup_delete_ne by congruence.
    now apply Hrest.
Qed.

Lemma samplePaths_distinct : NoDup (Update.rotated Update.samplePaths).
Proof.
  unfold Update.rotated. simpl.
  repeat (apply NoDup_cons_2;
          [rewrite ?not_elem_of_cons; repeat split;
           first [discriminate | apply not_elem_of_nil]|]).
  apply NoDup_nil_2.
Qed.

Lemma rotation_keeps_the_previous_version_witness :
  let p := Update.samplePaths in
  let fs : gmap string (list byte) :=
    <[Update.DROID_EXE p := list_byte_of_string "new"]>
      (<[Update.DROID_JS p := list_byte_of_string "current"]> ∅) in
  exists fs' : gmap string (list byte),
    Update.rotateArtifacts p fs = (fs', Update.Done tt)
    /\ fs' !! Update.DROID_EXE p = None
    /\ fs' !! Update.DROID_JS p = Some (list_byte_of_string "new")
    /\ fs' !! Update.DROID_RAW p = Some (list_byte_of_string "new")
    /\ fs' !! Update.DROID_OLD p = Some (list_byte_of_string "current")
    /\ forall path : string, path ∉ Update.rotated p -> fs' !! path = fs !! path.
Proof.
  exact (rotation_keeps_the_previous_version Update.samplePaths
           (<[Update.DROID_EXE Update.samplePaths := list_byte_of_string "new"]>
              (<[Update.DROID_JS Update.samplePaths := list_byte_of_string "current"]> ∅))
           (list_byte_of_string "new") samplePaths_distinct eq_refl).
Defined.

(** When the dump is not there, [rotateArtifacts] throws, but only after
    the backup: [droid.js] is gone by then, moved to [droid.old.js] if
    there was one, and nothing puts it back. *)
Theorem rotation_without_dump_fails_after_backup (p : Update.Paths)
    (fs : gmap string (list byte)) :
  NoDup (Update.rotated p) ->
  fs !! Update.DROID_EXE p = None ->
  exists fs' : gmap string (list byte),
    Update.rotateArtifacts p fs = (fs', Update.Thrown Update.ExeMissing)
    /\ fs' !! Update.DROID_JS p = None
    /\ fs' !! Update.DROID_OLD p = Update.backup p fs
    /\ forall path : string,
        path <> Update.DROID_JS p -> path <> Update.DROID_OLD p ->
        fs' !! path = fs !! path.
Proof.
  intros Hnd Hexe.
  destruct (rotated_distinct p Hnd) as (Hej & Her & Heo & Hjr & Hjo & Hro).
  destruct (backup_step p fs Hnd) as (fs1 & Hstep & Hold & Hjs & Hrest).
  unfold Update.rotateArtifacts.
  unfold Update.bind at 1. unfold Update.bind at 1 in Hstep.
  destruct (Update.fileExists (Update.DROID_JS p) fs) as [fs0 [jsExists|e]] eqn:Hfe.
  2:{ discriminate. }
  unfold Update.bind at 1. rewrite Hstep.
  unfold Update.bind, Update.fileExists, Update.access, Update.throw.
  rewrite (Hrest (Update.DROID_EXE p)) by congruence. rewrite Hexe. simpl.
  exists fs1. auto.
Qed.

Lemma rotation_without_dump_fails_after_backup_witness :
  let p := Update.samplePaths in
  let fs : gmap string (list byte) :=
    <[Update.DROID_JS p := list_byte_of_string "current"]> ∅ in
  exists fs' : gmap string (list byte),
    Update.rotateArtifacts p fs = (fs', Update.Thrown Update.ExeMissing)
    /\ fs' !! Update.DROID_JS p = None
    /\ fs' !! Update.DROID_OLD p = Some (list_byte_of_string "current")
    /\ forall path : string,
        path <> Update.DROID_JS p -> path <> Update.DROID_OLD p ->
        fs' !! path = fs !! path.
Proof.
  exact (rotation_without_dump_fails_after_backup Update.samplePaths
           (<[Update.DROID_JS Update.samplePaths := list_byte_of_string "current"]> ∅)
           samplePaths_distinct eq_refl).
Defined.

(** ** The promotion of the generated file *)

(** [promoteGenerated] never throws and changes no path but that of
    [droid.js]: when [droid.generated.js] is there, [droid.js] gets its
    contents and the generated file stays where it is; when it is not,
    [droid.js] is left as it was. *)
Theorem promotion_changes_only_droid_js (p : Update.Paths) (fs : gmap string (list byte)) :
  let run := Update.promoteGenerated p fs in
  run.2 = Update.Done tt
  /\ (forall path, path <> Update.DROID_JS p -> run.1 !! path = fs !! path)
  /\ run.1 !! Update.DROID_JS p
     = match fs !! Update.DROID_GENERATED p with
       | Some generated => Some generated
       | None => fs !! Update.DROID_JS p
       end.
Proof.
  unfold Update.promoteGenerated, Update.bind, Update.fileExists, Update.access,
    Update.readFile, Update.writeFile, Update.ret.
  destruct (fs !! Update.DROID_GENERATED p) as [generated|] eqn:Hgen; cbn.
  - rewrite Hgen. cbn. split; [reflexivity|]. split.
    + intros path Hne. now rewrite lookup_insert_ne.
    + now rewrite lookup_insert_eq.
  - split; [reflexivity|]. split; [reflexivity|reflexivity].
Qed.
